(** * SM2 key exchange (sm2/sm2_keyexchange.go): a shallow embedding

    The session object [KeyExchange] and its operations are translated from
    the Go source.  A pointer that may be nil (to a big.Int or to an
    ecdsa.PublicKey) and a byte slice are options; an operation that
    dereferences nil, or divides by zero, panics.  An operation that assigns
    fields returns the session after it, also when it returns an error.

    A big.Int is modelled by its integer value.  The only operation that
    writes into a big.Int it did not allocate is Destroy, on r and on the
    coordinates of v: r comes from randFieldElement and the coordinates of v
    from the curve's ScalarMult, and the session shares neither with its
    other fields.

    The curve, the SM3 digest, the key-derivation function, the identity
    digest and the random scalar are outside the file: the curve is a record
    of the methods of elliptic.Curve, the others are the class [Externals].

    A point received from the peer is an object of its own: it is not the
    session's own [secret] handed back to it.

    The file also embeds, from the certificate package smx509, the helpers
    that encode the key usages of a certificate. *)

From Stdlib Require Import ZArith List Bool Lia.
From Stdlib Require Import Strings.Byte.
From Stdlib Require Strings.String.
Import String.StringSyntax.
Delimit Scope string_scope with string.
Import ListNotations.
Local Open Scope Z_scope.

Set Implicit Arguments.

(** ** Bytes and big integers *)

Module Bytes.

Definition byte_of_Z (z : Z) : byte :=
  match Byte.of_N (Z.to_N (z mod 256)) with
  | Some b => b
  | None => x00
  end.

Definition Z_of_byte (b : byte) : Z := Z.of_N (Byte.to_N b).

(** Little-endian base-256 digits of a non-negative integer; [fuel]
    bounds the number of digits. *)
Fixpoint le_digits (fuel : nat) (z : Z) : list byte :=
  match fuel with
  | O => []
  | S fuel' =>
      if z =? 0 then [] else byte_of_Z z :: le_digits fuel' (z / 256)
  end.

(** [big.Int.Bytes]: the absolute value as a big-endian byte slice,
    without leading zero bytes (the empty slice for 0). *)
Definition Bytes (z : Z) : list byte :=
  rev (le_digits (S (Z.to_nat (Z.log2 (Z.abs z)))) (Z.abs z)).

(** [big.Int.SetBytes]: the big-endian unsigned integer of a slice. *)
Definition SetBytes (bs : list byte) : Z :=
  fold_left (fun acc b => acc * 256 + Z_of_byte b) bs 0.

(** [big.Int.BitLen]: the length of the absolute value in bits. *)
Definition BitLen (z : Z) : Z :=
  if z =? 0 then 0 else Z.log2 (Z.abs z) + 1.

(** [big.Int.Mod]: Euclidean modulus; a zero modulus panics. *)
Definition Mod (x m : Z) : option Z :=
  if m =? 0 then None else Some (x mod Z.abs m).

(** [big.Int.Sign]. *)
Definition Sign (z : Z) : Z := Z.sgn z.

(** [uint(w)] for a Go [int] on a 64-bit platform. *)
Definition uint (w : Z) : Z := w mod 2 ^ 64.

(** [big.Int.Lsh]. *)
Definition Lsh (x n : Z) : Z := Z.shiftl x n.

(** [big.Int.Lsh] allocates the words of its result before it shifts.  A
    shift of 2^63 bits or more, which is what [uint] makes of a negative
    [int], asks [make] for a slice beyond its range, and the call panics;
    a zero operand is returned without an allocation. *)
Definition Lsh_panics (x n : Z) : bool := negb (x =? 0) && (2 ^ 63 <=? n).

(** [big.Int.And]. *)
Definition And (x y : Z) : Z := Z.land x y.

End Bytes.
Import Bytes.

(** ** crypto/subtle *)

Module subtle.

(** [ConstantTimeByteEq]: [int((uint32(x^y) - 1) >> 31)]. *)
Definition ConstantTimeByteEq (x y : Z) : Z :=
  Z.shiftr ((Z.lxor x y - 1) mod 2 ^ 32) 31.

(** The loop [v |= x[i] ^ y[i]] over two slices of equal length. *)
Fixpoint or_of_xors (v : Z) (x y : list byte) : Z :=
  match x, y with
  | a :: x', b :: y' =>
      or_of_xors (Z.lor v (Z.lxor (Z_of_byte a) (Z_of_byte b))) x' y'
  | _, _ => v
  end.

Definition ConstantTimeCompare (x y : list byte) : Z :=
  if negb (Nat.eqb (length x) (length y)) then 0
  else ConstantTimeByteEq (or_of_xors 0 x y) 0.

End subtle.

(** ** Collaborators of the session *)

(** A Go [error] is its message. *)
Definition error : Type := String.string.

(** What a Go call does: return normally, return a non-nil [error], or
    panic at run time. *)
Inductive result (A : Type) : Type :=
| Ok (a : A)
| Err (e : error)
| Panic.
Arguments Ok {A} a.
Arguments Err {A} e.
Arguments Panic {A}.

(** Whether a call returned the error [e]. *)
Definition fails_with {A : Type} (e : error) (x : result A) : bool :=
  match x with
  | Err e' => String.eqb e e'
  | _ => false
  end.

(** Dereferencing a pointer that may be nil. *)
Definition bind_opt {A B : Type} (o : option A) (k : A -> option B) : option B :=
  match o with
  | Some a => k a
  | None => None
  end.

Declare Scope deref_scope.
Delimit Scope deref_scope with deref.
Notation "x <- o ;; k" := (bind_opt o (fun x => k))
  (at level 61, o at next level, right associativity) : deref_scope.

Module elliptic.

(** The [elliptic.Curve] interface as the session uses it.  Coordinates
    are integers, and a nil coordinate handed to a method is a panic of the
    caller's step; the point at infinity is returned as (0, 0). *)
Record Curve : Type := {
  curve_id : Z;       (* which interface value this is; decides == *)
  Params_N : Z;       (* Params().N, the order of the base point *)
  byteLen : nat;      (* the fixed field-element byte width *)
  IsOnCurve : Z -> Z -> bool;
  Add : Z -> Z -> Z -> Z -> Z * Z;
  ScalarMult : Z -> Z -> list byte -> Z * Z;
  ScalarBaseMult : list byte -> Z * Z
}.

(** [c1 != c2] on two interface values. *)
Definition neq (c1 c2 : Curve) : bool := negb (curve_id c1 =? curve_id c2).

End elliptic.

Module ecdsa.

(** [ecdsa.PublicKey].  The curve of a key is an interface value that is
    not nil, and so is the order of its parameters: NewKeyExchange calls
    priv.Params().N.BitLen() at once, and panics on a nil one. *)
Record PublicKey : Type := {
  Curve : elliptic.Curve;
  X : option Z;
  Y : option Z
}.

End ecdsa.

(** [sm2.PrivateKey]: an [ecdsa.PrivateKey], which embeds its public key.
    The session's pointer to it is not nil: NewKeyExchange dereferences it
    before anything else. *)
Record PrivateKey : Type := {
  PublicKey : ecdsa.PublicKey;
  D : option Z
}.

(** The parts of the package, and of the [sm3] package, that the session
    calls and that are outside this file. *)
Class Externals : Type := {
  (* the SM3 digest of a message *)
  SM3 : list byte -> list byte;
  (* sm3.Kdf(z, keyLen); None when it panics *)
  Kdf : list byte -> Z -> option (list byte);
  (* CalculateZA(pub, uid): the digest slice (None is nil) and the error *)
  CalculateZA : ecdsa.PublicKey -> list byte -> option (list byte) * option error;
  (* an io.Reader *)
  Reader : Type;
  (* randFieldElement(priv, rand): the scalar (None is nil) and the error *)
  randFieldElement : PrivateKey -> Reader -> option Z * option error
}.

(** Modelled from the spec: the package variable [defaultUID], "a standard
    16-byte ASCII literal", given in the end-to-end scenario as
    1234567812345678. *)
Definition defaultUID : list byte :=
  [x31; x32; x33; x34; x35; x36; x37; x38;
   x31; x32; x33; x34; x35; x36; x37; x38].

(** Modelled from the spec: [bigIntToBytes], the fixed-width conversion of a
    coordinate: the big-endian bytes, left-padded with zero bytes to the
    curve's field-element byte length. *)
Definition bigIntToBytes (c : elliptic.Curve) (value : Z) : list byte :=
  let bytes := Bytes value in
  repeat x00 (elliptic.byteLen c - length bytes) ++ bytes.

(** ** The streaming hash [hash.Hash]

    A hash in progress is the bytes written since it was created or reset. *)
Module hash.
Section Hash.
Context {E : Externals}.

Definition Hash : Type := list byte.

Definition New : Hash := [].
Definition Write (h : Hash) (p : list byte) : Hash := h ++ p.
Definition Sum (h : Hash) (b : list byte) : list byte := b ++ SM3 h.
Definition Reset (h : Hash) : Hash := [].
End Hash.
End hash.

(** ** The session *)

Record KeyExchange : Type := {
  genSignature : bool;
  keyLength : Z;
  privateKey : PrivateKey;
  z : option (list byte);
  peerPub : option ecdsa.PublicKey;
  peerZ : option (list byte);
  r : option Z;
  secret : option ecdsa.PublicKey;
  peerSecret : option ecdsa.PublicKey;
  w2 : option Z;
  w2Minus1 : option Z;
  v : option ecdsa.PublicKey
}.

(** The curve of the session: [ke.privateKey.Curve]. *)
Definition curve (ke : KeyExchange) : elliptic.Curve :=
  ecdsa.Curve (PublicKey (privateKey ke)).

(** A slice read as its elements: nil reads as the empty slice. *)
Definition elems (s : option (list byte)) : list byte :=
  match s with
  | Some l => l
  | None => []
  end.

(** [len(s)]. *)
Definition len (s : option (list byte)) : Z := Z.of_nat (length (elems s)).

(** Assignments to single fields. *)
Definition set_z (x : option (list byte)) (ke : KeyExchange) : KeyExchange :=
  {| genSignature := genSignature ke; keyLength := keyLength ke;
     privateKey := privateKey ke; z := x; peerPub := peerPub ke;
     peerZ := peerZ ke; r := r ke; secret := secret ke;
     peerSecret := peerSecret ke; w2 := w2 ke; w2Minus1 := w2Minus1 ke;
     v := v ke |}.

Definition set_peerPub (x : option ecdsa.PublicKey) (ke : KeyExchange) : KeyExchange :=
  {| genSignature := genSignature ke; keyLength := keyLength ke;
     privateKey := privateKey ke; z := z ke; peerPub := x;
     peerZ := peerZ ke; r := r ke; secret := secret ke;
     peerSecret := peerSecret ke; w2 := w2 ke; w2Minus1 := w2Minus1 ke;
     v := v ke |}.

Definition set_peerZ (x : option (list byte)) (ke : KeyExchange) : KeyExchange :=
  {| genSignature := genSignature ke; keyLength := keyLength ke;
     privateKey := privateKey ke; z := z ke; peerPub := peerPub ke;
     peerZ := x; r := r ke; secret := secret ke;
     peerSecret := peerSecret ke; w2 := w2 ke; w2Minus1 := w2Minus1 ke;
     v := v ke |}.

Definition set_r (x : option Z) (ke : KeyExchange) : KeyExchange :=
  {| genSignature := genSignature ke; keyLength := keyLength ke;
     privateKey := privateKey ke; z := z ke; peerPub := peerPub ke;
     peerZ := peerZ ke; r := x; secret := secret ke;
     peerSecret := peerSecret ke; w2 := w2 ke; w2Minus1 := w2Minus1 ke;
     v := v ke |}.

Definition set_secret (x : option ecdsa.PublicKey) (ke : KeyExchange) : KeyExchange :=
  {| genSignature := genSignature ke; keyLength := keyLength ke;
     privateKey := privateKey ke; z := z ke; peerPub := peerPub ke;
     peerZ := peerZ ke; r := r ke; secret := x;
     peerSecret := peerSecret ke; w2 := w2 ke; w2Minus1 := w2Minus1 ke;
     v := v ke |}.

Definition set_peerSecret (x : option ecdsa.PublicKey) (ke : KeyExchange) : KeyExchange :=
  {| genSignature := genSignature ke; keyLength := keyLength ke;
     privateKey := privateKey ke; z := z ke; peerPub := peerPub ke;
     peerZ := peerZ ke; r := r ke; secret := secret ke;
     peerSecret := x; w2 := w2 ke; w2Minus1 := w2Minus1 ke;
     v := v ke |}.

Definition set_w2 (x : option Z) (ke : KeyExchange) : KeyExchange :=
  {| genSignature := genSignature ke; keyLength := keyLength ke;
     privateKey := privateKey ke; z := z ke; peerPub := peerPub ke;
     peerZ := peerZ ke; r := r ke; secret := secret ke;
     peerSecret := peerSecret ke; w2 := x; w2Minus1 := w2Minus1 ke;
     v := v ke |}.

Definition set_w2Minus1 (x : option Z) (ke : KeyExchange) : KeyExchange :=
  {| genSignature := genSignature ke; keyLength := keyLength ke;
     privateKey := privateKey ke; z := z ke; peerPub := peerPub ke;
     peerZ := peerZ ke; r := r ke; secret := secret ke;
     peerSecret := peerSecret ke; w2 := w2 ke; w2Minus1 := x;
     v := v ke |}.

Definition set_v (x : option ecdsa.PublicKey) (ke : KeyExchange) : KeyExchange :=
  {| genSignature := genSignature ke; keyLength := keyLength ke;
     privateKey := privateKey ke; z := z ke; peerPub := peerPub ke;
     peerZ := peerZ ke; r := r ke; secret := secret ke;
     peerSecret := peerSecret ke; w2 := w2 ke; w2Minus1 := w2Minus1 ke;
     v := x |}.

(** [pub.X, pub.Y = x, y] on the key a pointer refers to. *)
Definition set_XY (pub : ecdsa.PublicKey) (xy : Z * Z) : ecdsa.PublicKey :=
  {| ecdsa.Curve := ecdsa.Curve pub;
     ecdsa.X := Some (fst xy); ecdsa.Y := Some (snd xy) |}.

(** [&ecdsa.PublicKey{}] with its [Curve] assigned. *)
Definition emptyKey (c : elliptic.Curve) : ecdsa.PublicKey :=
  {| ecdsa.Curve := c; ecdsa.X := None; ecdsa.Y := None |}.

(** ** The operations of sm2_keyexchange.go *)

Definition err_peerPub_exists : error :=
  "sm2: 'peerPub' already exists, please do not set it"%string.
Definition err_peer_not_supported : error :=
  "sm2: peer public key is not expected/supported"%string.
Definition err_no_peer : error :=
  "sm2: no peer public key given"%string.
Definition err_invalid_initiator_key : error :=
  "sm2: invalid initiator's ephemeral public key"%string.
Definition err_invalid_responder_key : error :=
  "sm2: invalid responder's ephemeral public key"%string.
Definition err_V_infinity : error :=
  "sm2: key exchange failed, V is infinity point"%string.
Definition err_U_infinity : error :=
  "sm2: key exchange failed, U is infinity point"%string.
Definition err_invalid_responder_signature : error :=
  "sm2: invalid responder's signature"%string.
Definition err_invalid_initiator_signature : error :=
  "sm2: invalid initiator's signature"%string.

Section Operations.
Context {E : Externals}.
Local Open Scope deref_scope.

Definition destroyBigInt (n : option Z) : option Z :=
  match n with
  | Some _ => Some 0
  | None => None
  end.

Definition destroyPublicKey (pub : option ecdsa.PublicKey) : option ecdsa.PublicKey :=
  match pub with
  | Some p =>
      Some {| ecdsa.Curve := ecdsa.Curve p;
              ecdsa.X := destroyBigInt (ecdsa.X p);
              ecdsa.Y := destroyBigInt (ecdsa.Y p) |}
  | None => None
  end.

(** [bytes[i] = b]; the loop below stays within the slice. *)
Fixpoint store (i : nat) (b : byte) (bytes : list byte) : list byte :=
  match bytes, i with
  | [], _ => []
  | _ :: tl, O => b :: tl
  | a :: tl, S i' => a :: store i' b tl
  end.

(** [for v := range bytes { bytes[v] = 0 }], from index [i], [n] rounds. *)
Fixpoint zero_range (i n : nat) (bytes : list byte) : list byte :=
  match n with
  | O => bytes
  | S n' => zero_range (S i) n' (store i x00 bytes)
  end.

Definition destroyBytes (bytes : option (list byte)) : option (list byte) :=
  match bytes with
  | Some l => Some (zero_range 0 (length l) l)
  | None => None
  end.

Definition Destroy (ke : KeyExchange) : KeyExchange :=
  let ke := set_z (destroyBytes (z ke)) ke in
  let ke := set_peerZ (destroyBytes (peerZ ke)) ke in
  let ke := set_r (destroyBigInt (r ke)) ke in
  set_v (destroyPublicKey (v ke)) ke.

Definition SetPeerParameters (peerPub' : option ecdsa.PublicKey)
    (peerUID : list byte) (ke : KeyExchange) : KeyExchange * result unit :=
  match peerPub' with
  | None => (ke, Ok tt)
  | Some pub =>
      let peerUID := if (Z.of_nat (length peerUID) =? 0) then defaultUID else peerUID in
      match peerPub ke with
      | Some _ => (ke, Err err_peerPub_exists)
      | None =>
          if elliptic.neq (ecdsa.Curve pub) (curve ke)
          then (ke, Err err_peer_not_supported)
          else
            let ke := set_peerPub (Some pub) ke in
            let '(za, err) := CalculateZA pub peerUID in
            let ke := set_peerZ za ke in
            match err with
            | Some e => (ke, Err e)
            | None =>
                (set_peerSecret (Some (emptyKey (ecdsa.Curve pub))) ke, Ok tt)
            end
      end
  end.

Definition NewKeyExchange (priv : PrivateKey) (peerPub' : option ecdsa.PublicKey)
    (uid peerUID : list byte) (keyLen : Z) (genSignature' : bool)
    : result KeyExchange :=
  let ke := {| genSignature := genSignature'; keyLength := keyLen;
               privateKey := priv; z := None; peerPub := None;
               peerZ := None; r := None; secret := None;
               peerSecret := None; w2 := None; w2Minus1 := None;
               v := None |} in
  let one := 1 in
  let w := (BitLen (elliptic.Params_N (curve ke)) + 1) ÷ 2 - 1 in
  if Lsh_panics one (uint w) then Panic else
  let ke := set_w2 (Some (Lsh one (uint w))) ke in
  let ke := set_w2Minus1 (w' <- w2 ke ;; Some (w' - one)) ke in
  let uid := if (Z.of_nat (length uid) =? 0) then defaultUID else uid in
  let '(za, err) := CalculateZA (PublicKey priv) uid in
  let ke := set_z za ke in
  match err with
  | Some e => Err e
  | None =>
      match SetPeerParameters peerPub' peerUID ke with
      | (_, Err e) => Err e
      | (_, Panic) => Panic
      | (ke, Ok _) =>
          let ke := set_secret (Some (emptyKey (ecdsa.Curve (PublicKey priv)))) ke in
          let ke := set_v (Some (emptyKey (ecdsa.Curve (PublicKey priv)))) ke in
          Ok ke
      end
  end.

(** [None] is a panic: [r] or [ke.secret] is nil. *)
Definition initKeyExchange (ke : KeyExchange) (r' : option Z) : option KeyExchange :=
  rv <- r' ;;
  sec <- secret ke ;;
  let ke := set_secret
              (Some (set_XY sec (elliptic.ScalarBaseMult (curve ke) (Bytes rv)))) ke in
  Some (set_r (Some rv) ke).

(** The point returned is the pointer [ke.secret] itself. *)
Definition InitKeyExchange (rand : Reader) (ke : KeyExchange)
    : KeyExchange * result (option ecdsa.PublicKey) :=
  let '(r', err) := randFieldElement (privateKey ke) rand in
  match err with
  | Some e => (ke, Err e)
  | None =>
      match initKeyExchange ke r' with
      | None => (ke, Panic)
      | Some ke' => (ke', Ok (secret ke'))
      end
  end.

(** [None] is a panic: a nil coordinate, scalar or point. *)
Definition sign (ke : KeyExchange) (isResponder : bool) (prefix : byte)
    : option (list byte) :=
  let c := curve ke in
  let hash := hash.New in
  v' <- v ke ;;
  vX <- ecdsa.X v' ;;
  let hash := hash.Write hash (bigIntToBytes c vX) in
  hash <-
    (if isResponder then
       let hash := hash.Write hash (elems (peerZ ke)) in
       let hash := hash.Write hash (elems (z ke)) in
       ps <- peerSecret ke ;;
       psX <- ecdsa.X ps ;;
       let hash := hash.Write hash (bigIntToBytes c psX) in
       psY <- ecdsa.Y ps ;;
       let hash := hash.Write hash (bigIntToBytes c psY) in
       s <- secret ke ;;
       sX <- ecdsa.X s ;;
       let hash := hash.Write hash (bigIntToBytes c sX) in
       sY <- ecdsa.Y s ;;
       Some (hash.Write hash (bigIntToBytes c sY))
     else
       let hash := hash.Write hash (elems (z ke)) in
       let hash := hash.Write hash (elems (peerZ ke)) in
       s <- secret ke ;;
       sX <- ecdsa.X s ;;
       let hash := hash.Write hash (bigIntToBytes c sX) in
       sY <- ecdsa.Y s ;;
       let hash := hash.Write hash (bigIntToBytes c sY) in
       ps <- peerSecret ke ;;
       psX <- ecdsa.X ps ;;
       let hash := hash.Write hash (bigIntToBytes c psX) in
       psY <- ecdsa.Y ps ;;
       Some (hash.Write hash (bigIntToBytes c psY))) ;;
  let buffer := hash.Sum hash [] in
  let hash := hash.Reset hash in
  let hash := hash.Write hash [prefix] in
  vY <- ecdsa.Y v' ;;
  let hash := hash.Write hash (bigIntToBytes c vY) in
  let hash := hash.Write hash buffer in
  Some (hash.Sum hash []).

(** [None] is a panic: a nil coordinate, or [sm3.Kdf] panics. *)
Definition generateSharedKey (ke : KeyExchange) (isResponder : bool)
    : option (list byte) :=
  let c := curve ke in
  let buffer := [] in
  v' <- v ke ;;
  vX <- ecdsa.X v' ;;
  let buffer := buffer ++ bigIntToBytes c vX in
  vY <- ecdsa.Y v' ;;
  let buffer := buffer ++ bigIntToBytes c vY in
  let buffer :=
    if isResponder then (buffer ++ elems (peerZ ke)) ++ elems (z ke)
    else (buffer ++ elems (z ke)) ++ elems (peerZ ke) in
  Kdf buffer (keyLength ke).

(** avf is the associative value function. *)
Definition avf (ke : KeyExchange) (x : option Z) : option Z :=
  m <- w2Minus1 ke ;;
  xv <- x ;;
  let t := And m xv in
  w <- w2 ke ;;
  Some (w + t).

(** mqv implements the SM2-MQV procedure; [None] is a panic. *)
Definition mqv (ke : KeyExchange) : option KeyExchange :=
  let c := curve ke in
  s <- secret ke ;;
  t <- avf ke (ecdsa.X s) ;;
  rv <- r ke ;;
  let t := t * rv in
  d <- D (privateKey ke) ;;
  let t := t + d in
  t <- Mod t (elliptic.Params_N c) ;;
  ps <- peerSecret ke ;;
  x1 <- avf ke (ecdsa.X ps) ;;
  psX <- ecdsa.X ps ;;
  psY <- ecdsa.Y ps ;;
  let xy := elliptic.ScalarMult c psX psY (Bytes x1) in
  pp <- peerPub ke ;;
  ppX <- ecdsa.X pp ;;
  ppY <- ecdsa.Y pp ;;
  let xy := elliptic.Add c ppX ppY (fst xy) (snd xy) in
  v' <- v ke ;;
  Some (set_v (Some (set_XY v' (elliptic.ScalarMult c (fst xy) (snd xy)
                                  (Bytes t)))) ke).

(** [ke.v.X.Sign() == 0 && ke.v.Y.Sign() == 0]; [None] is a panic. *)
Definition v_is_infinity (ke : KeyExchange) : option bool :=
  v' <- v ke ;;
  vX <- ecdsa.X v' ;;
  if Sign vX =? 0 then
    vY <- ecdsa.Y v' ;;
    Some (Sign vY =? 0)
  else Some false.

(** The two assignments after [ke.peerSecret = rA] are those of
    initKeyExchange; the point returned is the pointer [ke.secret]. *)
Definition respondKeyExchange (ke : KeyExchange) (rA : option ecdsa.PublicKey)
    (r' : option Z)
    : KeyExchange * result (option ecdsa.PublicKey * option (list byte)) :=
  match peerPub ke with
  | None => (ke, Err err_no_peer)
  | Some _ =>
      match (pA <- rA ;; aX <- ecdsa.X pA ;; aY <- ecdsa.Y pA ;;
             Some (elliptic.IsOnCurve (curve ke) aX aY)) with
      | None => (ke, Panic)
      | Some false => (ke, Err err_invalid_initiator_key)
      | Some true =>
          let ke := set_peerSecret rA ke in
          match initKeyExchange ke r' with
          | None => (ke, Panic)
          | Some ke =>
              match mqv ke with
              | None => (ke, Panic)
              | Some ke =>
                  match v_is_infinity ke with
                  | None => (ke, Panic)
                  | Some true => (ke, Err err_V_infinity)
                  | Some false =>
                      if negb (genSignature ke)
                      then (ke, Ok (secret ke, None))
                      else
                        match sign ke true x02 with
                        | Some tag => (ke, Ok (secret ke, Some tag))
                        | None => (ke, Panic)
                        end
                  end
              end
          end
      end
  end.

Definition RepondKeyExchange (rand : Reader) (rA : option ecdsa.PublicKey)
    (ke : KeyExchange)
    : KeyExchange * result (option ecdsa.PublicKey * option (list byte)) :=
  let '(r', err) := randFieldElement (privateKey ke) rand in
  match err with
  | Some e => (ke, Err e)
  | None => respondKeyExchange ke rA r'
  end.

Definition ConfirmResponder (rB : option ecdsa.PublicKey) (sB : option (list byte))
    (ke : KeyExchange)
    : KeyExchange * result (list byte * option (list byte)) :=
  match peerPub ke with
  | None => (ke, Err err_no_peer)
  | Some _ =>
      match (pB <- rB ;; bX <- ecdsa.X pB ;; bY <- ecdsa.Y pB ;;
             Some (elliptic.IsOnCurve (curve ke) bX bY)) with
      | None => (ke, Panic)
      | Some false => (ke, Err err_invalid_responder_key)
      | Some true =>
          let ke := set_peerSecret rB ke in
          match mqv ke with
          | None => (ke, Panic)
          | Some ke =>
              match v_is_infinity ke with
              | None => (ke, Panic)
              | Some true => (ke, Err err_U_infinity)
              | Some false =>
                  let checked :=
                    if len sB >? 0 then
                      match sign ke false x02 with
                      | None => Panic
                      | Some buffer =>
                          if negb (subtle.ConstantTimeCompare buffer (elems sB) =? 1)
                          then Err err_invalid_responder_signature
                          else Ok tt
                      end
                    else Ok tt in
                  match checked with
                  | Panic => (ke, Panic)
                  | Err e => (ke, Err e)
                  | Ok _ =>
                      match generateSharedKey ke false with
                      | None => (ke, Panic)
                      | Some key =>
                          if negb (genSignature ke) then (ke, Ok (key, None))
                          else
                            match sign ke false x03 with
                            | Some tag => (ke, Ok (key, Some tag))
                            | None => (ke, Panic)
                            end
                      end
                  end
              end
          end
      end
  end.

Definition ConfirmInitiator (s1 : option (list byte)) (ke : KeyExchange)
    : result (list byte) :=
  let checked :=
    match s1 with
    | Some s =>
        match sign ke true x03 with
        | None => Panic
        | Some buffer =>
            if negb (subtle.ConstantTimeCompare buffer s =? 1)
            then Err err_invalid_initiator_signature
            else Ok tt
        end
    | None => Ok tt
    end in
  match checked with
  | Panic => Panic
  | Err e => Err e
  | Ok _ =>
      match generateSharedKey ke true with
      | None => Panic
      | Some key => Ok key
      end
  end.

End Operations.

(** ** Reference definitions, following the specification *)

Section Reference.
Context {E : Externals}.

(** The calls a holder of a session can make on it. *)
Inductive call : Type :=
| CallSetPeerParameters (peerPub' : option ecdsa.PublicKey) (peerUID : list byte)
| CallInitKeyExchange (rand : Reader)
| CallRepondKeyExchange (rand : Reader) (rA : option ecdsa.PublicKey)
| CallConfirmResponder (rB : option ecdsa.PublicKey) (sB : option (list byte))
| CallConfirmInitiator (s1 : option (list byte))
| CallDestroy.

(** The session after a call, whatever the call returned. *)
Definition after (ke : KeyExchange) (c : call) : KeyExchange :=
  match c with
  | CallSetPeerParameters pub uid => fst (SetPeerParameters pub uid ke)
  | CallInitKeyExchange rand => fst (InitKeyExchange rand ke)
  | CallRepondKeyExchange rand rA => fst (RepondKeyExchange rand rA ke)
  | CallConfirmResponder rB sB => fst (ConfirmResponder rB sB ke)
  | CallConfirmInitiator s1 => ke
  | CallDestroy => Destroy ke
  end.

(** The fields no operation assigns after construction. *)
Definition fixed (ke : KeyExchange) : option Z * option Z :=
  (w2 ke, w2Minus1 ke).

(** w = floor((bitlen(order) + 1) / 2) - 1. *)
Definition window (order : Z) : Z := (BitLen order + 1) / 2 - 1.

(** AssociativeValue(x) = 2^w + (x AND (2^w - 1)). *)
Definition AssociativeValue (w x : Z) : Z := 2 ^ w + Z.land x (2 ^ w - 1).

(** The curve provider on points and integer scalars. *)
Definition scalarMultiply (c : elliptic.Curve) (P : Z * Z) (k : Z) : Z * Z :=
  elliptic.ScalarMult c (fst P) (snd P) (Bytes k).

Definition scalarBaseMultiply (c : elliptic.Curve) (k : Z) : Z * Z :=
  elliptic.ScalarBaseMult c (Bytes k).

Definition add (c : elliptic.Curve) (P Q : Z * Z) : Z * Z :=
  elliptic.Add c (fst P) (snd P) (fst Q) (snd Q).

(** Combine, in the five steps of the specification. *)
Definition Combine (c : elliptic.Curve) (w : Z) (ownEphemeralX r' d : Z)
    (peerLongTermPoint peerEphemeralPoint : Z * Z) : Z * Z :=
  let t := AssociativeValue w ownEphemeralX in
  let t := (t * r' + d) mod elliptic.Params_N c in
  let x1 := AssociativeValue w (fst peerEphemeralPoint) in
  let basePoint :=
    add c peerLongTermPoint (scalarMultiply c peerEphemeralPoint x1) in
  scalarMultiply c basePoint t.

(** The confirmation tag as two digests: the inner one over v.x, the two
    identity digests and the two ephemeral points in the order of the
    role, the outer one over the prefix byte, v.y and the inner digest. *)
Definition ComputeTag (c : elliptic.Curve) (isResponderRole : bool)
    (prefixByte : byte) (v' : Z * Z) (ownZ peerZ' : list byte)
    (ownEphemeral peerEphemeral : Z * Z) : list byte :=
  let inner :=
    SM3 (bigIntToBytes c (fst v')
         ++ (if isResponderRole
             then peerZ' ++ ownZ
                  ++ bigIntToBytes c (fst peerEphemeral)
                  ++ bigIntToBytes c (snd peerEphemeral)
                  ++ bigIntToBytes c (fst ownEphemeral)
                  ++ bigIntToBytes c (snd ownEphemeral)
             else ownZ ++ peerZ'
                  ++ bigIntToBytes c (fst ownEphemeral)
                  ++ bigIntToBytes c (snd ownEphemeral)
                  ++ bigIntToBytes c (fst peerEphemeral)
                  ++ bigIntToBytes c (snd peerEphemeral))) in
  SM3 ([prefixByte] ++ bigIntToBytes c (snd v') ++ inner).

(** The point mqv stores, in terms of the two constants of the session. *)
Definition mqv_point (c : elliptic.Curve) (a b sx rv d : Z)
    (peerLongTerm peerEphemeral : Z * Z) : Z * Z :=
  scalarMultiply c
    (add c peerLongTerm
       (scalarMultiply c peerEphemeral (a + Z.land b (fst peerEphemeral))))
    (((a + Z.land b sx) * rv + d) mod elliptic.Params_N c).

(** The identity a session is built with: the default for an empty one. *)
Definition identity (uid : list byte) : list byte :=
  if Z.of_nat (length uid) =? 0 then defaultUID else uid.

(** The session NewKeyExchange builds when a peer key is supplied. *)
Definition constructed (priv : PrivateKey) (pub : ecdsa.PublicKey)
    (uid peerUID : list byte) (keyLen : Z) (gen : bool) : KeyExchange :=
  let w2' := Lsh 1 (uint ((BitLen (elliptic.Params_N (ecdsa.Curve (PublicKey priv))) + 1) ÷ 2 - 1)) in
  {| genSignature := gen; keyLength := keyLen; privateKey := priv;
     z := fst (CalculateZA (PublicKey priv) (identity uid));
     peerPub := Some pub;
     peerZ := fst (CalculateZA pub (identity peerUID));
     r := None;
     secret := Some (emptyKey (ecdsa.Curve (PublicKey priv)));
     peerSecret := Some (emptyKey (ecdsa.Curve pub));
     w2 := Some w2'; w2Minus1 := Some (w2' - 1);
     v := Some (emptyKey (ecdsa.Curve (PublicKey priv))) |}.

(** The two coordinates a point pointer refers to, when none is nil. *)
Definition coords (pub : option ecdsa.PublicKey) : option (Z * Z) :=
  match pub with
  | Some p =>
      match ecdsa.X p, ecdsa.Y p with
      | Some x, Some y => Some (x, y)
      | _, _ => None
      end
  | None => None
  end.

(** What the session needs of its curve: the multiples of the base point
    form a cyclic group of order N, and the non-zero ones are points of
    the curve. *)
Record CurveLaws (c : elliptic.Curve) : Prop := {
  order_pos : 0 < elliptic.Params_N c;
  base_add : forall k l, 0 <= k -> 0 <= l ->
    add c (scalarBaseMultiply c k) (scalarBaseMultiply c l)
    = scalarBaseMultiply c ((k + l) mod elliptic.Params_N c);
  base_mul : forall k l, 0 <= k -> 0 <= l ->
    scalarMultiply c (scalarBaseMultiply c k) l
    = scalarBaseMultiply c ((k * l) mod elliptic.Params_N c);
  base_on_curve : forall k, 0 < k < elliptic.Params_N c ->
    elliptic.IsOnCurve c (fst (scalarBaseMultiply c k))
                         (snd (scalarBaseMultiply c k)) = true
}.

(** A key pair of the curve: a private scalar in [1, N-1] and the
    multiple of the base point by it. *)
Definition valid_key (c : elliptic.Curve) (priv : PrivateKey) : Prop :=
  exists d, 0 < d < elliptic.Params_N c
            /\ D priv = Some d
            /\ PublicKey priv = set_XY (emptyKey c) (scalarBaseMultiply c d).

End Reference.

(** ** Parts of a session *)

(** The curve of a point slot, when the slot is allocated: the operations
    assign the coordinates of [secret] and of [v], never the two pointers. *)
Definition slot (pub : option ecdsa.PublicKey) : option elliptic.Curve :=
  option_map ecdsa.Curve pub.

(** What the protocol steps read of a session and do not assign: all of it
    but the ephemeral scalar, the coordinates of the ephemeral point and of
    the combination point, and the peer's ephemeral point. *)
Definition base (ke : KeyExchange) :=
  (genSignature ke, keyLength ke, privateKey ke, z ke, peerPub ke, peerZ ke,
   w2 ke, w2Minus1 ke, slot (secret ke), slot (v ke)).

(** What no call assigns, teardown included. *)
Definition kept (ke : KeyExchange) :=
  (genSignature ke, keyLength ke, privateKey ke,
   slot (secret ke), slot (v ke), len (z ke)).

Section Unbound.
Context {E : Externals}.

(** The session NewKeyExchange builds when no peer key is supplied. *)
Definition constructed_unbound (priv : PrivateKey) (uid : list byte)
    (keyLen : Z) (gen : bool) : KeyExchange :=
  let w2' := Lsh 1 (uint ((BitLen (elliptic.Params_N (ecdsa.Curve (PublicKey priv))) + 1) ÷ 2 - 1)) in
  {| genSignature := gen; keyLength := keyLen; privateKey := priv;
     z := fst (CalculateZA (PublicKey priv) (identity uid));
     peerPub := None; peerZ := None; r := None;
     secret := Some (emptyKey (ecdsa.Curve (PublicKey priv)));
     peerSecret := None;
     w2 := Some w2'; w2Minus1 := Some (w2' - 1);
     v := Some (emptyKey (ecdsa.Curve (PublicKey priv))) |}.

End Unbound.

(** ** Instances of the curve

    Affine arithmetic on a curve y^2 = x^3 + a x + b over the integers
    modulo a prime p, behind the methods of elliptic.Curve.  The point at
    infinity is (0, 0), and a scalar is the big-endian integer of its bytes. *)
Module Weierstrass.
Section Curve.
Variables p a b : Z.

(** Extended Euclid: the coefficient of [r1] in the greatest common divisor. *)
Fixpoint egcd (fuel : nat) (r0 r1 s0 s1 : Z) : Z :=
  match fuel with
  | O => s0
  | S fuel' =>
      if r1 =? 0 then s0
      else let q := r0 / r1 in egcd fuel' r1 (r0 - q * r1) s1 (s0 - q * s1)
  end.

Definition inv (x : Z) : Z :=
  egcd (2 * Z.to_nat (Z.log2 p) + 2) p (x mod p) 0 1 mod p.

Definition IsOnCurve (x y : Z) : bool :=
  (0 <=? x) && (x <? p) && (0 <=? y) && (y <? p)
  && ((y * y - (x * x * x + a * x + b)) mod p =? 0).

Definition Add (x1 y1 x2 y2 : Z) : Z * Z :=
  if (x1 =? 0) && (y1 =? 0) then (x2, y2)
  else if (x2 =? 0) && (y2 =? 0) then (x1, y1)
  else if (x1 =? x2) && ((y1 + y2) mod p =? 0) then (0, 0)
  else
    let l := if (x1 =? x2) && (y1 =? y2)
             then ((3 * x1 * x1 + a) * inv (2 * y1)) mod p
             else ((y2 - y1) * inv (x2 - x1)) mod p in
    let x3 := (l * l - x1 - x2) mod p in
    (x3, (l * (x1 - x3) - y1) mod p).

(** Double and add, from the most significant bit. *)
Fixpoint mul_pos (x y : Z) (k : positive) : Z * Z :=
  match k with
  | xH => (x, y)
  | xO k' =>
      let P := mul_pos x y k' in Add (fst P) (snd P) (fst P) (snd P)
  | xI k' =>
      let P := mul_pos x y k' in
      let Q := Add (fst P) (snd P) (fst P) (snd P) in
      Add (fst Q) (snd Q) x y
  end.

Definition ScalarMult (x y : Z) (k : list byte) : Z * Z :=
  match SetBytes k with
  | Zpos n => mul_pos x y n
  | _ => (0, 0)
  end.

End Curve.
End Weierstrass.

(** ** A small instance

    The curve y^2 = x^3 + 2x + 2 over the field of 17 elements, whose
    points form a group of prime order 19 generated by (5, 1), with
    stand-ins for the digest and the key-derivation function.  The
    instance is used to run the operations on concrete sessions. *)
Module Toy.

Definition p : Z := 17.
Definition a : Z := 2.
Definition b : Z := 2.

Definition IsOnCurve : Z -> Z -> bool := Weierstrass.IsOnCurve p a b.

Definition Add : Z -> Z -> Z -> Z -> Z * Z := Weierstrass.Add p a.

Definition ScalarMult : Z -> Z -> list byte -> Z * Z :=
  Weierstrass.ScalarMult p a.

Definition ScalarBaseMult (k : list byte) : Z * Z := ScalarMult 5 1 k.

Definition curve : elliptic.Curve :=
  {| elliptic.curve_id := 1;
     elliptic.Params_N := 19;
     elliptic.byteLen := 1;
     elliptic.IsOnCurve := IsOnCurve;
     elliptic.Add := Add;
     elliptic.ScalarMult := ScalarMult;
     elliptic.ScalarBaseMult := ScalarBaseMult |}.

(** A second interface value, for keys on another curve. *)
Definition other_curve : elliptic.Curve :=
  {| elliptic.curve_id := 2;
     elliptic.Params_N := 19;
     elliptic.byteLen := 1;
     elliptic.IsOnCurve := IsOnCurve;
     elliptic.Add := Add;
     elliptic.ScalarMult := ScalarMult;
     elliptic.ScalarBaseMult := ScalarBaseMult |}.

(** A third interface value, whose parameters give the order 0. *)
Definition zero_order : elliptic.Curve :=
  {| elliptic.curve_id := 3;
     elliptic.Params_N := 0;
     elliptic.byteLen := 1;
     elliptic.IsOnCurve := IsOnCurve;
     elliptic.Add := Add;
     elliptic.ScalarMult := ScalarMult;
     elliptic.ScalarBaseMult := ScalarBaseMult |}.

(** A 32-byte stand-in for the digest. *)
Definition checksum (m : list byte) : Z :=
  fold_left (fun acc x => (acc * 31 + Z_of_byte x + 7) mod 256) m 0.

Definition digest (m : list byte) : list byte :=
  map (fun i => byte_of_Z (checksum m + Z.of_nat i)) (seq 0 32).

Definition kdf (data : list byte) (keyLen : Z) : option (list byte) :=
  if (0 <=? keyLen) && (keyLen <? 2 ^ 37)
  then Some (map (fun i => byte_of_Z (checksum data + 3 * Z.of_nat i))
                 (seq 0 (Z.to_nat keyLen)))
  else None.

Definition err_uid_too_long : error := "sm2: the uid is too long"%string.

(** The identity digest fails on an identity of 8192 bytes or more, whose
    bit length does not fit its two-byte length field. *)
Definition calculateZA (pub : ecdsa.PublicKey) (uid : list byte)
    : option (list byte) * option error :=
  if (8192 <=? Z.of_nat (length uid)) then (None, Some err_uid_too_long)
  else
    (Some (digest (uid
                   ++ bigIntToBytes (ecdsa.Curve pub) (match ecdsa.X pub with Some x => x | None => 0 end)
                   ++ bigIntToBytes (ecdsa.Curve pub) (match ecdsa.Y pub with Some y => y | None => 0 end))),
     None).

Definition err_EOF : error := "EOF"%string.

(** A reader is the scalar it will yield, or is exhausted. *)
Definition rand (priv : PrivateKey) (rd : option Z) : option Z * option error :=
  match rd with
  | Some k => (Some k, None)
  | None => (None, Some err_EOF)
  end.

#[export] Instance externals : Externals :=
  {| SM3 := digest; Kdf := kdf; CalculateZA := calculateZA;
     Reader := option Z; randFieldElement := rand |}.

(** The key pair of private scalar [d]. *)
Definition key (d : Z) : PrivateKey :=
  {| PublicKey := set_XY (emptyKey curve) (ScalarBaseMult (Bytes d));
     D := Some d |}.

(** Sessions of the instance: bound to a peer at construction, and not. *)
Definition session (d dpeer : Z) (gen : bool) : KeyExchange :=
  constructed (key d) (PublicKey (key dpeer)) [] [] 16 gen.

Definition unbound (d : Z) : KeyExchange :=
  {| genSignature := true; keyLength := 16; privateKey := key d;
     z := fst (calculateZA (PublicKey (key d)) defaultUID);
     peerPub := None; peerZ := None; r := None;
     secret := Some (emptyKey curve); peerSecret := None;
     w2 := Some 4; w2Minus1 := Some 3; v := Some (emptyKey curve) |}.

(** The multiple of the base point by [k], as a received point. *)
Definition point (k : Z) : ecdsa.PublicKey :=
  set_XY (emptyKey curve) (ScalarBaseMult (Bytes k)).

(** A received point that is not on the curve. *)
Definition off_curve : ecdsa.PublicKey := set_XY (emptyKey curve) (1, 1).

(** The initiator of private scalar 3 after drawing 7, and the responder
    of private scalar 5 after drawing 11 on the initiator's point. *)
Definition initiated : KeyExchange :=
  fst (InitKeyExchange (Some 7) (session 3 5 true)).

Definition responded : KeyExchange :=
  fst (RepondKeyExchange (Some 11) (Some (point 7)) (session 5 3 true)).

(** An identity too long for the identity digest. *)
Definition long_uid : list byte := repeat x00 (Z.to_nat 8192).

(** The multiples of the base point, in order. *)
Definition table : list (Z * Z) :=
  Eval vm_compute in
    map (fun k => ScalarBaseMult (Bytes (Z.of_nat k))) (seq 0 19).

Definition T (i : Z) : Z * Z := nth (Z.to_nat i) table (0, 0).

Definition indices : list Z := map Z.of_nat (seq 0 19).

End Toy.

(** ** The curve of the SM2 standard

    The recommended 256-bit curve of GB/T 32918.5, with the sessions of two
    key pairs on it.  The second private scalar is chosen for the draw 1:
    with r = 1 the ephemeral point is the base point, and
    avf(Gx) * 1 + dB is the order N. *)
Module SM2.

Definition p : Z :=
  0xFFFFFFFEFFFFFFFFFFFFFFFFFFFFFFFFFFFFFFFF00000000FFFFFFFFFFFFFFFF.
Definition a : Z :=
  0xFFFFFFFEFFFFFFFFFFFFFFFFFFFFFFFFFFFFFFFF00000000FFFFFFFFFFFFFFFC.
Definition b : Z :=
  0x28E9FA9E9D9F5E344D5A9E4BCF6509A7F39789F515AB8F92DDBCBD414D940E93.
Definition N : Z :=
  0xFFFFFFFEFFFFFFFFFFFFFFFFFFFFFFFF7203DF6B21C6052B53BBF40939D54123.
Definition Gx : Z :=
  0x32C4AE2C1F1981195F9904466A39C9948FE30BBFF2660BE1715A4589334C74C7.
Definition Gy : Z :=
  0xBC3736A2F4F6779C59BDCEE36B692153D0A9877CC62A474002DF32E52139F0A0.

Definition curve : elliptic.Curve :=
  {| elliptic.curve_id := 3;
     elliptic.Params_N := N;
     elliptic.byteLen := 32;
     elliptic.IsOnCurve := Weierstrass.IsOnCurve p a b;
     elliptic.Add := Weierstrass.Add p a;
     elliptic.ScalarMult := Weierstrass.ScalarMult p a;
     elliptic.ScalarBaseMult := Weierstrass.ScalarMult p a Gx Gy |}.

Definition key (d : Z) : PrivateKey :=
  {| PublicKey := set_XY (emptyKey curve) (scalarBaseMultiply curve d);
     D := Some d |}.

Definition session (d dpeer : Z) (gen : bool) : KeyExchange :=
  @constructed Toy.externals (key d) (PublicKey (key dpeer)) [] [] 16 gen.

Definition point (k : Z) : ecdsa.PublicKey :=
  set_XY (emptyKey curve) (scalarBaseMultiply curve k).



End SM2.

(** ** Key usages in certificates (package smx509)

    The helpers of the certificate package that encode the key usage and
    the extended key usages of a certificate.  A byte is the integer it
    holds, an object identifier the list of its components, and
    asn1.Marshal, which is outside the repository, a parameter. *)

(** *** encoding/asn1 *)
Module asn1.

(** [asn1.BitString]: the bits, most significant bit of each byte first. *)
Record BitString : Type := {
  Bytes : list byte;
  BitLength : Z
}.

(** The bit of index [i] of a byte slice read as a bit string:
    [int(b.Bytes[i/8] >> (7 - uint(i%8))) & 1] of [BitString.At], without
    its test against BitLength. *)
Definition bit (bytes : list byte) (i : Z) : bool :=
  Z.testbit (Z_of_byte (nth (Z.to_nat (i / 8)) bytes x00)) (7 - i mod 8).

(** [ObjectIdentifier.Equal]: the same length and the same components. *)
Fixpoint Equal (oi other : list Z) : bool :=
  match oi, other with
  | [], [] => true
  | a :: oi', b :: other' => (a =? b) && Equal oi' other'
  | _, _ => false
  end.

End asn1.

(** *** crypto/x509/pkix *)
Module pkix.
Record Extension : Type := {
  Id : list Z;
  Critical : bool;
  Value : option (list byte)
}.
End pkix.

(** *** smx509 *)
Module smx509.

(** A shift to the left of a byte keeps its eight low bits. *)
Definition reverseBitsInAByte (in' : byte) : byte :=
  let i := Z_of_byte in' in
  let b1 := Z.lor (Z.shiftr i 4) (Z.shiftl i 4 mod 256) in
  let b2 := Z.lor (Z.land (Z.shiftr b1 2) 0x33)
                  (Z.land (Z.shiftl b1 2 mod 256) 0xcc) in
  let b3 := Z.lor (Z.land (Z.shiftr b2 1) 0x55)
                  (Z.land (Z.shiftl b2 1 mod 256) 0xaa) in
  byte_of_Z b3.

(** [for bit := uint(0); bit < 8; bit++] from [bit], [rounds] rounds left:
    the length returned from inside the loop, or the length after it. *)
Fixpoint bits_from (b : Z) (bit : Z) (rounds : nat) (bitLen : Z) : Z + Z :=
  match rounds with
  | O => inr bitLen
  | S rounds' =>
      if Z.land (Z.shiftr b bit) 1 =? 1 then inl bitLen
      else bits_from b (bit + 1) rounds' (bitLen - 1)
  end.

(** [for i := range bitString] from [i], [rounds] rounds left. *)
Fixpoint bytes_from (bitString : list byte) (i rounds : nat) (bitLen : Z) : Z :=
  match rounds with
  | O => 0
  | S rounds' =>
      let b := nth (length bitString - i - 1) bitString x00 in
      match bits_from (Z_of_byte b) 0 8 bitLen with
      | inl n => n
      | inr bitLen => bytes_from bitString (S i) rounds' bitLen
      end
  end.

Definition asn1BitLength (bitString : list byte) : Z :=
  let bitLen := Z.of_nat (length bitString) * 8 in
  bytes_from bitString 0 (length bitString) bitLen.

Definition oidExtensionKeyUsage : list Z := [2; 5; 29; 15].

Section MarshalBits.
Variable Marshal : asn1.BitString -> option (list byte) * option error.

Definition marshalKeyUsage (ku : Z) : pkix.Extension * option error :=
  let a0 := reverseBitsInAByte (byte_of_Z ku) in
  let a1 := reverseBitsInAByte (byte_of_Z (Z.shiftr ku 8)) in
  let l := if negb (Z_of_byte a1 =? 0) then 2%nat else 1%nat in
  let bitString := firstn l [a0; a1] in
  let '(value, err) :=
    Marshal {| asn1.Bytes := bitString;
               asn1.BitLength := asn1BitLength bitString |} in
  ({| pkix.Id := oidExtensionKeyUsage; pkix.Critical := true;
      pkix.Value := value |}, err).
End MarshalBits.
(** The [ExtKeyUsage] constants of crypto/x509, in the order of their iota. *)
Definition ExtKeyUsageAny : Z := 0.
Definition ExtKeyUsageServerAuth : Z := 1.
Definition ExtKeyUsageClientAuth : Z := 2.
Definition ExtKeyUsageCodeSigning : Z := 3.
Definition ExtKeyUsageEmailProtection : Z := 4.
Definition ExtKeyUsageIPSECEndSystem : Z := 5.
Definition ExtKeyUsageIPSECTunnel : Z := 6.
Definition ExtKeyUsageIPSECUser : Z := 7.
Definition ExtKeyUsageTimeStamping : Z := 8.
Definition ExtKeyUsageOCSPSigning : Z := 9.
Definition ExtKeyUsageMicrosoftServerGatedCrypto : Z := 10.
Definition ExtKeyUsageNetscapeServerGatedCrypto : Z := 11.
Definition ExtKeyUsageMicrosoftCommercialCodeSigning : Z := 12.
Definition ExtKeyUsageMicrosoftKernelCodeSigning : Z := 13.

Definition oidExtKeyUsageAny : list Z := [2; 5; 29; 37; 0].
Definition oidExtKeyUsageServerAuth : list Z := [1; 3; 6; 1; 5; 5; 7; 3; 1].
Definition oidExtKeyUsageClientAuth : list Z := [1; 3; 6; 1; 5; 5; 7; 3; 2].
Definition oidExtKeyUsageCodeSigning : list Z := [1; 3; 6; 1; 5; 5; 7; 3; 3].
Definition oidExtKeyUsageEmailProtection : list Z := [1; 3; 6; 1; 5; 5; 7; 3; 4].
Definition oidExtKeyUsageIPSECEndSystem : list Z := [1; 3; 6; 1; 5; 5; 7; 3; 5].
Definition oidExtKeyUsageIPSECTunnel : list Z := [1; 3; 6; 1; 5; 5; 7; 3; 6].
Definition oidExtKeyUsageIPSECUser : list Z := [1; 3; 6; 1; 5; 5; 7; 3; 7].
Definition oidExtKeyUsageTimeStamping : list Z := [1; 3; 6; 1; 5; 5; 7; 3; 8].
Definition oidExtKeyUsageOCSPSigning : list Z := [1; 3; 6; 1; 5; 5; 7; 3; 9].
Definition oidExtKeyUsageMicrosoftServerGatedCrypto : list Z :=
  [1; 3; 6; 1; 4; 1; 311; 10; 3; 3].
Definition oidExtKeyUsageNetscapeServerGatedCrypto : list Z :=
  [2; 16; 840; 1; 113730; 4; 1].
Definition oidExtKeyUsageMicrosoftCommercialCodeSigning : list Z :=
  [1; 3; 6; 1; 4; 1; 311; 2; 1; 22].
Definition oidExtKeyUsageMicrosoftKernelCodeSigning : list Z :=
  [1; 3; 6; 1; 4; 1; 311; 61; 1; 1].

(** extKeyUsageOIDs contains the mapping between an ExtKeyUsage and its OID. *)
Definition extKeyUsageOIDs : list (Z * list Z) :=
  [(ExtKeyUsageAny, oidExtKeyUsageAny);
   (ExtKeyUsageServerAuth, oidExtKeyUsageServerAuth);
   (ExtKeyUsageClientAuth, oidExtKeyUsageClientAuth);
   (ExtKeyUsageCodeSigning, oidExtKeyUsageCodeSigning);
   (ExtKeyUsageEmailProtection, oidExtKeyUsageEmailProtection);
   (ExtKeyUsageIPSECEndSystem, oidExtKeyUsageIPSECEndSystem);
   (ExtKeyUsageIPSECTunnel, oidExtKeyUsageIPSECTunnel);
   (ExtKeyUsageIPSECUser, oidExtKeyUsageIPSECUser);
   (ExtKeyUsageTimeStamping, oidExtKeyUsageTimeStamping);
   (ExtKeyUsageOCSPSigning, oidExtKeyUsageOCSPSigning);
   (ExtKeyUsageMicrosoftServerGatedCrypto, oidExtKeyUsageMicrosoftServerGatedCrypto);
   (ExtKeyUsageNetscapeServerGatedCrypto, oidExtKeyUsageNetscapeServerGatedCrypto);
   (ExtKeyUsageMicrosoftCommercialCodeSigning, oidExtKeyUsageMicrosoftCommercialCodeSigning);
   (ExtKeyUsageMicrosoftKernelCodeSigning, oidExtKeyUsageMicrosoftKernelCodeSigning)].

(** The loop of extKeyUsageFromOID over the pairs that are left; the
    results not assigned are the zero values. *)
Fixpoint extKeyUsageFromOID_range (oid : list Z) (pairs : list (Z * list Z))
    : Z * bool :=
  match pairs with
  | [] => (0, false)
  | p :: pairs' =>
      if asn1.Equal oid (snd p) then (fst p, true)
      else extKeyUsageFromOID_range oid pairs'
  end.

Definition extKeyUsageFromOID (oid : list Z) : Z * bool :=
  extKeyUsageFromOID_range oid extKeyUsageOIDs.

(** The loop of oidFromExtKeyUsage; a nil identifier is the empty list. *)
Fixpoint oidFromExtKeyUsage_range (eku : Z) (pairs : list (Z * list Z))
    : list Z * bool :=
  match pairs with
  | [] => ([], false)
  | p :: pairs' =>
      if eku =? fst p then (snd p, true)
      else oidFromExtKeyUsage_range eku pairs'
  end.

Definition oidFromExtKeyUsage (eku : Z) : list Z * bool :=
  oidFromExtKeyUsage_range eku extKeyUsageOIDs.

Definition oidExtensionExtendedKeyUsage : list Z := [2; 5; 29; 37].

Definition err_unknown_extended_key_usage : error :=
  "x509: unknown extended key usage"%string.

(** [oids[i] = oid], within the slice. *)
Fixpoint assign (A : Type) (i : nat) (x : A) (l : list A) : list A :=
  match l, i with
  | [], _ => []
  | _ :: tl, O => x :: tl
  | a :: tl, S i' => a :: assign i' x tl
  end.

(** [copy(dst, src)]: as many elements as the shorter of the two holds. *)
Definition copy (A : Type) (dst src : list A) : list A :=
  firstn (length dst) src ++ skipn (length src) dst.

Section MarshalOids.
Variable Marshal : list (list Z) -> option (list byte) * option error.

(** [for i, u := range extUsages] from index [i]: the slice after the
    loop, or None when the loop returns on an unknown usage. *)
Fixpoint marshalExtKeyUsage_range (extUsages : list Z) (i : nat)
    (oids : list (list Z)) : option (list (list Z)) :=
  match extUsages with
  | [] => Some oids
  | u :: extUsages' =>
      let '(oid, ok) := oidFromExtKeyUsage u in
      if ok then marshalExtKeyUsage_range extUsages' (S i) (assign i oid oids)
      else None
  end.

Definition marshalExtKeyUsage (extUsages : list Z)
    (unknownUsages : list (list Z)) : pkix.Extension * option error :=
  let ext := {| pkix.Id := oidExtensionExtendedKeyUsage;
                pkix.Critical := false; pkix.Value := None |} in
  let oids := repeat [] (length extUsages + length unknownUsages) in
  match marshalExtKeyUsage_range extUsages 0 oids with
  | None => (ext, Some err_unknown_extended_key_usage)
  | Some oids =>
      let oids := firstn (length extUsages) oids
                  ++ copy (skipn (length extUsages) oids) unknownUsages in
      let '(value, err) := Marshal oids in
      ({| pkix.Id := oidExtensionExtendedKeyUsage; pkix.Critical := false;
          pkix.Value := value |}, err)
  end.

End MarshalOids.
End smx509.


(** * Properties *)

(** ** Bytes of big integers *)

Lemma Z_of_byte_range (x : byte) : 0 <= Z_of_byte x < 256.
Proof.
  unfold Z_of_byte. pose proof (Byte.to_N_bounded x). lia.
Qed.

Lemma Z_of_byte_of_Z (n : Z) : Z_of_byte (byte_of_Z n) = n mod 256.
Proof.
  unfold Z_of_byte, byte_of_Z.
  assert (Hr : 0 <= n mod 256 < 256) by (apply Z.mod_pos_bound; lia).
  destruct (Byte.of_N (Z.to_N (n mod 256))) as [x|] eqn:Hx.
  - apply Byte.to_of_N in Hx. rewrite Hx. lia.
  - apply Byte.of_N_None_iff in Hx. lia.
Qed.

Lemma Z_of_byte_inj (x y : byte) : Z_of_byte x = Z_of_byte y -> x = y.
Proof.
  unfold Z_of_byte. intros H. apply N2Z.inj in H.
  pose proof (Byte.of_to_N x) as Hx. pose proof (Byte.of_to_N y) as Hy.
  rewrite H in Hx. congruence.
Qed.

Lemma SetBytes_snoc (bs : list byte) (x : byte) :
  SetBytes (bs ++ [x]) = SetBytes bs * 256 + Z_of_byte x.
Proof.
  unfold SetBytes. rewrite fold_left_app. reflexivity.
Qed.

Lemma SetBytes_le_digits (fuel : nat) :
  forall n, 0 <= n < 2 ^ Z.of_nat fuel ->
            SetBytes (rev (le_digits fuel n)) = n.
Proof.
  induction fuel as [|fuel IH]; intros n Hn.
  - change (2 ^ Z.of_nat 0) with 1 in Hn.
    change (SetBytes (rev (le_digits 0 n))) with 0. lia.
  - cbn [le_digits]. destruct (n =? 0) eqn:H0.
    + apply Z.eqb_eq in H0. subst. reflexivity.
    + apply Z.eqb_neq in H0. cbn [rev]. rewrite SetBytes_snoc, Z_of_byte_of_Z.
      rewrite IH.
      * pose proof (Z.div_mod n 256). lia.
      * rewrite Nat2Z.inj_succ, Z.pow_succ_r in Hn by lia.
        split; [apply Z.div_pos; lia|].
        apply Z.div_lt_upper_bound; lia.
Qed.

Lemma SetBytes_Bytes (n : Z) : SetBytes (Bytes n) = Z.abs n.
Proof.
  unfold Bytes. apply SetBytes_le_digits.
  split; [lia|].
  rewrite Nat2Z.inj_succ, Z2Nat.id by apply Z.log2_nonneg.
  destruct (Z.eq_dec (Z.abs n) 0) as [->|Hn]; [reflexivity|].
  apply Z.log2_spec. lia.
Qed.

Lemma SetBytes_zeros (k : nat) (bs : list byte) :
  SetBytes (repeat x00 k ++ bs) = SetBytes bs.
Proof.
  unfold SetBytes. rewrite fold_left_app. f_equal.
  induction k as [|k IH]; [reflexivity|]. simpl. exact IH.
Qed.

(** The fixed-width conversion keeps the value and pads on the left. *)
Lemma SetBytes_bigIntToBytes (c : elliptic.Curve) (n : Z) :
  SetBytes (bigIntToBytes c n) = Z.abs n.
Proof.
  unfold bigIntToBytes. rewrite SetBytes_zeros. apply SetBytes_Bytes.
Qed.

Lemma length_le_digits (fuel : nat) :
  forall (k : nat) n, 0 <= n < 256 ^ Z.of_nat k ->
                      (length (le_digits fuel n) <= k)%nat.
Proof.
  induction fuel as [|fuel IH]; intros k n Hn; [simpl; lia|].
  cbn [le_digits]. destruct (n =? 0) eqn:H0; [simpl; lia|].
  apply Z.eqb_neq in H0. destruct k as [|k]; [simpl in Hn; lia|].
  cbn [length]. apply le_n_S, IH.
  rewrite Nat2Z.inj_succ, Z.pow_succ_r in Hn by lia.
  split; [apply Z.div_pos; lia|]. apply Z.div_lt_upper_bound; lia.
Qed.

(** A coordinate below 256^byteLen is serialized on exactly byteLen bytes. *)
Lemma length_bigIntToBytes (c : elliptic.Curve) (n : Z) :
  0 <= n < 256 ^ Z.of_nat (elliptic.byteLen c) ->
  length (bigIntToBytes c n) = elliptic.byteLen c.
Proof.
  intros Hn. unfold bigIntToBytes.
  rewrite length_app, repeat_length.
  assert (length (Bytes n) <= elliptic.byteLen c)%nat; [|lia].
  unfold Bytes. rewrite length_rev. apply length_le_digits.
  rewrite Z.abs_eq; lia.
Qed.

(** ** Constant-time comparison *)

Lemma byte_bits_bound (x y : Z) :
  0 <= x < 256 -> 0 <= y < 256 ->
  0 <= Z.lor x y < 256 /\ 0 <= Z.lxor x y < 256.
Proof.
  intros Hx Hy.
  assert (Hb : forall n, 0 <= n -> (n < 256 <-> n = 0 \/ Z.log2 n < 8)).
  { intros n Hn. destruct (Z.eq_dec n 0) as [->|H0]; [simpl; lia|].
    change 256 with (2 ^ 8). rewrite Z.log2_lt_pow2 by lia. lia. }
  assert (Hl : 0 <= Z.lor x y) by (apply Z.lor_nonneg; lia).
  assert (Hxo : 0 <= Z.lxor x y) by (apply Z.lxor_nonneg; lia).
  pose proof (Z.log2_lor x y ltac:(lia) ltac:(lia)) as H1.
  pose proof (Z.log2_lxor x y ltac:(lia) ltac:(lia)) as H2.
  assert (Hlx : x = 0 \/ Z.log2 x < 8) by (apply Hb; lia).
  assert (Hly : y = 0 \/ Z.log2 y < 8) by (apply Hb; lia).
  assert (Z.log2 x < 8 /\ Z.log2 y < 8) as [Hx8 Hy8].
  { split; [destruct Hlx as [->|]|destruct Hly as [->|]]; simpl; lia. }
  split; (split; [assumption|]); apply Hb; try assumption; right; lia.
Qed.

Lemma or_of_xors_range (x y : list byte) :
  forall acc, 0 <= acc < 256 -> 0 <= subtle.or_of_xors acc x y < 256.
Proof.
  revert y. induction x as [|a x IH]; intros [|b y] acc Hacc; simpl; try lia.
  apply IH.
  apply byte_bits_bound; [assumption|].
  apply byte_bits_bound; apply Z_of_byte_range.
Qed.

Lemma or_of_xors_zero (x y : list byte) :
  length x = length y ->
  forall acc, 0 <= acc ->
              (subtle.or_of_xors acc x y = 0 <-> acc = 0 /\ x = y).
Proof.
  revert y. induction x as [|a x IH]; intros [|b y] Hlen acc Hacc;
    simpl in *; try discriminate.
  - intuition.
  - injection Hlen as Hlen.
    pose proof (Z_of_byte_range a) as Ha. pose proof (Z_of_byte_range b) as Hb.
    assert (Hn : 0 <= Z.lor acc (Z.lxor (Z_of_byte a) (Z_of_byte b))).
    { apply Z.lor_nonneg. split; [lia|]. apply Z.lxor_nonneg. lia. }
    rewrite (IH y Hlen _ Hn).
    rewrite Z.lor_eq_0_iff, Z.lxor_eq_0_iff.
    split.
    + intros [[H1 H2] H3]. apply Z_of_byte_inj in H2. subst. auto.
    + intros [H1 H2]. injection H2 as -> ->. auto.
Qed.

Lemma ConstantTimeByteEq_zero (n : Z) :
  0 <= n < 256 -> (subtle.ConstantTimeByteEq n 0 = 1 <-> n = 0).
Proof.
  intros Hn. unfold subtle.ConstantTimeByteEq. rewrite Z.lxor_0_r.
  rewrite Z.shiftr_div_pow2 by lia.
  destruct (Z.eq_dec n 0) as [->|H0].
  - split; [reflexivity|]. intros _. reflexivity.
  - split; [|lia]. intros H. exfalso.
    rewrite Z.mod_small in H by lia.
    rewrite Z.div_small in H by lia. discriminate.
Qed.

(** [ConstantTimeCompare] returns 1 exactly on equal slices. *)
Lemma ConstantTimeCompare_spec (x y : list byte) :
  subtle.ConstantTimeCompare x y = 1 <-> x = y.
Proof.
  unfold subtle.ConstantTimeCompare.
  destruct (Nat.eqb (length x) (length y)) eqn:Hlen; simpl.
  - apply Nat.eqb_eq in Hlen.
    rewrite ConstantTimeByteEq_zero by (apply or_of_xors_range; lia).
    rewrite or_of_xors_zero by (assumption || lia). intuition.
  - apply Nat.eqb_neq in Hlen. split; [discriminate|].
    intros ->. contradiction.
Qed.

Lemma ConstantTimeCompare_neq (x y : list byte) :
  x <> y -> negb (subtle.ConstantTimeCompare x y =? 1) = true.
Proof.
  intros H. apply negb_true_iff, Z.eqb_neq.
  rewrite ConstantTimeCompare_spec. assumption.
Qed.

Lemma ConstantTimeCompare_refl (x : list byte) :
  negb (subtle.ConstantTimeCompare x x =? 1) = false.
Proof.
  apply negb_false_iff, Z.eqb_eq, ConstantTimeCompare_spec. reflexivity.
Qed.

(** ** Teardown *)

Lemma zero_range_cons (n : nat) :
  forall i x l, zero_range (S i) n (x :: l) = x :: zero_range i n l.
Proof.
  induction n as [|n IH]; intros i x l; [reflexivity|].
  cbn [zero_range]. rewrite <- IH. destruct l; reflexivity.
Qed.

Lemma zero_range_all (l : list byte) :
  zero_range 0 (length l) l = repeat x00 (length l).
Proof.
  induction l as [|x l IH]; [reflexivity|].
  cbn [length zero_range store repeat].
  rewrite zero_range_cons, IH. reflexivity.
Qed.

Lemma destroyBytes_zero (s : option (list byte)) :
  Forall (fun x => x = x00) (elems (destroyBytes s))
  /\ len (destroyBytes s) = len s.
Proof.
  destruct s as [l|]; unfold len; simpl; [|split; [constructor|reflexivity]].
  rewrite zero_range_all. split.
  - apply Forall_forall. intros x Hx. apply repeat_spec in Hx. assumption.
  - rewrite repeat_length. reflexivity.
Qed.

(** C9.  After Destroy every byte of the identity digests z and peerZ is
    zero (and the slices keep their lengths), the ephemeral scalar r is 0
    unless it is nil, and the coordinates of the combination point v are 0
    unless they are nil; a nil pointer stays nil. *)
Theorem Destroy_wipes (ke : KeyExchange) :
  Forall (fun x => x = x00) (elems (z (Destroy ke)))
  /\ len (z (Destroy ke)) = len (z ke)
  /\ Forall (fun x => x = x00) (elems (peerZ (Destroy ke)))
  /\ len (peerZ (Destroy ke)) = len (peerZ ke)
  /\ r (Destroy ke) = option_map (fun _ => 0) (r ke)
  /\ option_map ecdsa.X (v (Destroy ke))
     = option_map (fun pub => option_map (fun _ => 0) (ecdsa.X pub)) (v ke)
  /\ option_map ecdsa.Y (v (Destroy ke))
     = option_map (fun pub => option_map (fun _ => 0) (ecdsa.Y pub)) (v ke).
Proof.
  unfold Destroy. cbn [z peerZ r v set_z set_peerZ set_r set_v].
  pose proof (destroyBytes_zero (z ke)) as [Hz Hzl].
  pose proof (destroyBytes_zero (peerZ ke)) as [Hp Hpl].
  repeat (split; [assumption|]).
  split; [destruct (r ke); reflexivity|].
  split; (destruct (v ke) as [pub|]; [|reflexivity]); simpl.
  - destruct (ecdsa.X pub); reflexivity.
  - destruct (ecdsa.Y pub); reflexivity.
Qed.

(** ** The window constants *)

Ltac break_match :=
  match goal with
  | |- context [match ?x with _ => _ end] => destruct x eqn:?
  | H : context [match ?x with _ => _ end] |- _ => destruct x eqn:?
  end.

Section Window.
Context {E : Externals}.

Lemma initKeyExchange_shape (ke ke' : KeyExchange) (r' : option Z) :
  initKeyExchange ke r' = Some ke' ->
  exists rv sec,
    r' = Some rv /\ secret ke = Some sec
    /\ ke' = set_r (Some rv)
               (set_secret
                  (Some (set_XY sec (scalarBaseMultiply (curve ke) rv))) ke).
Proof.
  unfold initKeyExchange, bind_opt. intros H.
  destruct r' as [rv|]; [|discriminate].
  destruct (secret ke) as [sec|]; [|discriminate].
  injection H as <-. exists rv, sec. auto.
Qed.

Lemma mqv_shape (ke ke' : KeyExchange) :
  mqv ke = Some ke' ->
  exists v0 xy, v ke = Some v0 /\ ke' = set_v (Some (set_XY v0 xy)) ke.
Proof.
  unfold mqv, bind_opt. intros H.
  repeat break_match; try discriminate.
  injection H as <-. eauto.
Qed.

Lemma initKeyExchange_fixed (ke ke' : KeyExchange) (r' : option Z) :
  initKeyExchange ke r' = Some ke' -> fixed ke' = fixed ke.
Proof.
  intros H. apply initKeyExchange_shape in H as (rv & sec & _ & _ & ->).
  reflexivity.
Qed.

Lemma mqv_fixed (ke ke' : KeyExchange) :
  mqv ke = Some ke' -> fixed ke' = fixed ke.
Proof.
  intros H. apply mqv_shape in H as (v0 & xy & _ & ->). reflexivity.
Qed.

Lemma SetPeerParameters_fixed pub uid (ke : KeyExchange) :
  fixed (fst (SetPeerParameters pub uid ke)) = fixed ke.
Proof.
  unfold SetPeerParameters. repeat break_match; reflexivity.
Qed.

Lemma InitKeyExchange_fixed rand (ke : KeyExchange) :
  fixed (fst (InitKeyExchange rand ke)) = fixed ke.
Proof.
  unfold InitKeyExchange.
  destruct (randFieldElement (privateKey ke) rand) as [r' [e|]];
    [reflexivity|].
  destruct (initKeyExchange ke r') as [ke'|] eqn:Hi; [|reflexivity].
  apply initKeyExchange_fixed in Hi. exact Hi.
Qed.

Lemma respondKeyExchange_fixed rA r' (ke : KeyExchange) :
  fixed (fst (respondKeyExchange ke rA r')) = fixed ke.
Proof.
  unfold respondKeyExchange.
  destruct (peerPub ke); [|reflexivity].
  destruct (bind_opt rA _) as [[|]|]; try reflexivity.
  destruct (initKeyExchange _ r') as [ke1|] eqn:Hi; [|reflexivity].
  apply initKeyExchange_fixed in Hi.
  change (fixed (set_peerSecret rA ke)) with (fixed ke) in Hi.
  destruct (mqv ke1) as [ke2|] eqn:Hm; [|exact Hi].
  apply mqv_fixed in Hm. rewrite <- Hi, <- Hm.
  repeat break_match; reflexivity.
Qed.

Lemma ConfirmResponder_fixed rB sB (ke : KeyExchange) :
  fixed (fst (ConfirmResponder rB sB ke)) = fixed ke.
Proof.
  unfold ConfirmResponder.
  destruct (peerPub ke); [|reflexivity].
  destruct (bind_opt rB _) as [[|]|]; try reflexivity.
  destruct (mqv _) as [ke2|] eqn:Hm; [|reflexivity].
  apply mqv_fixed in Hm.
  change (fixed (set_peerSecret rB ke)) with (fixed ke) in Hm.
  rewrite <- Hm.
  repeat break_match; reflexivity.
Qed.

Lemma after_fixed (ke : KeyExchange) (c : call) :
  fixed (after ke c) = fixed ke.
Proof.
  destruct c; cbn [after].
  - apply SetPeerParameters_fixed.
  - apply InitKeyExchange_fixed.
  - unfold RepondKeyExchange.
    destruct (randFieldElement (privateKey ke) rand) as [r' [e|]];
      [reflexivity|apply respondKeyExchange_fixed].
  - apply ConfirmResponder_fixed.
  - reflexivity.
  - reflexivity.
Qed.

Lemma calls_fixed (calls : list call) :
  forall ke, fixed (fold_left after calls ke) = fixed ke.
Proof.
  induction calls as [|c calls IH]; intros ke; [reflexivity|].
  cbn [fold_left]. rewrite IH. apply after_fixed.
Qed.

Lemma NewKeyExchange_fixed priv pub uid peerUID keyLen gen ke :
  NewKeyExchange priv pub uid peerUID keyLen gen = Ok ke ->
  let w2' := Lsh 1 (uint ((BitLen (elliptic.Params_N (ecdsa.Curve (PublicKey priv))) + 1) ÷ 2 - 1)) in
  fixed ke = (Some w2', Some (w2' - 1)).
Proof.
  unfold NewKeyExchange. intros H.
  destruct (Lsh_panics _ _); [discriminate|].
  destruct (CalculateZA (PublicKey priv) _) as [za [e|]]; [discriminate|].
  match type of H with
  | match SetPeerParameters ?a ?b ?k with _ => _ end = _ =>
      pose proof (SetPeerParameters_fixed a b k) as Hf;
      destruct (SetPeerParameters a b k) as [ke1 [[]|e|]]
  end; try discriminate.
  injection H as <-. exact Hf.
Qed.

Lemma window_range (order : Z) :
  0 < order -> BitLen order < 2 ^ 63 ->
  0 <= window order < 2 ^ 64
  /\ (BitLen order + 1) ÷ 2 - 1 = window order.
Proof.
  intros Hpos Hlen. unfold window, BitLen in *.
  destruct (order =? 0) eqn:H0; [apply Z.eqb_eq in H0; lia|].
  pose proof (Z.log2_nonneg (Z.abs order)) as Hl.
  rewrite Z.quot_div_nonneg by lia.
  assert (1 <= (Z.log2 (Z.abs order) + 1 + 1) / 2)
    by (apply Z.div_le_lower_bound; lia).
  assert ((Z.log2 (Z.abs order) + 1 + 1) / 2 < 2 ^ 64)
    by (apply Z.div_lt_upper_bound; lia).
  lia.
Qed.

Lemma AssociativeValue_range (w x : Z) :
  0 <= w ->
  2 ^ w <= AssociativeValue w x <= 2 ^ (w + 1) - 1.
Proof.
  intros Hw. unfold AssociativeValue.
  replace (2 ^ w - 1) with (Z.ones w) by (rewrite Z.ones_equiv; lia).
  rewrite Z.land_ones by assumption.
  pose proof (Z.mod_pos_bound x (2 ^ w) ltac:(apply Z.pow_pos_nonneg; lia)).
  rewrite Z.pow_add_r by lia. lia.
Qed.

Lemma avf_AssociativeValue (ke : KeyExchange) (w x : Z) :
  fixed ke = (Some (2 ^ w), Some (2 ^ w - 1)) ->
  avf ke (Some x) = Some (AssociativeValue w x).
Proof.
  unfold fixed, avf, bind_opt, AssociativeValue, And. intros H.
  injection H as -> ->. rewrite Z.land_comm. reflexivity.
Qed.

(** C8.  A session built by NewKeyExchange for a curve of order N > 0
    holds w2 = 2^w and w2Minus1 = 2^w - 1 with w = floor((bitlen(N)+1)/2) - 1;
    whatever calls are made on it afterwards the two constants are the
    same; and on every later state avf(x) = 2^w + (x AND (2^w - 1)), a
    value of the interval [2^w, 2^(w+1) - 1]. *)
Theorem window_constants priv pub uid peerUID keyLen gen ke :
  let order := elliptic.Params_N (ecdsa.Curve (PublicKey priv)) in
  let w := window order in
  0 < order -> BitLen order < 2 ^ 63 ->
  NewKeyExchange priv pub uid peerUID keyLen gen = Ok ke ->
  w2 ke = Some (2 ^ w) /\ w2Minus1 ke = Some (2 ^ w - 1)
  /\ forall calls,
       let ke' := fold_left after calls ke in
       w2 ke' = Some (2 ^ w) /\ w2Minus1 ke' = Some (2 ^ w - 1)
       /\ forall x, 0 <= x ->
            exists t, avf ke' (Some x) = Some t
                      /\ t = 2 ^ w + Z.land x (2 ^ w - 1)
                      /\ 2 ^ w <= t <= 2 ^ (w + 1) - 1.
Proof.
  intros order w Hpos Hlen Hnew.
  apply NewKeyExchange_fixed in Hnew. cbv zeta in Hnew.
  destruct (window_range Hpos Hlen) as [Hw Hq].
  fold order in Hnew. rewrite Hq in Hnew. fold w in Hnew, Hw.
  unfold uint, Lsh in Hnew. rewrite Z.mod_small, Z.shiftl_1_l in Hnew by lia.
  assert (Hall : forall calls,
             fixed (fold_left after calls ke) = (Some (2 ^ w), Some (2 ^ w - 1)))
    by (intros calls; rewrite calls_fixed; exact Hnew).
  split; [|split].
  - specialize (Hall []). injection Hall as H1 H2. exact H1.
  - specialize (Hall []). injection Hall as H1 H2. exact H2.
  - intros calls ke'. pose proof (Hall calls) as Hf. fold ke' in Hf.
    split; [|split].
    + injection Hf as H1 H2. exact H1.
    + injection Hf as H1 H2. exact H2.
    + intros x Hx. exists (AssociativeValue w x).
      split; [apply avf_AssociativeValue; exact Hf|].
      split; [reflexivity|]. apply AssociativeValue_range. lia.
Qed.

End Window.

(** ** Checks on the received ephemeral point *)

Section Checks.
Context {E : Externals}.

Lemma on_curve_check (c : elliptic.Curve) (pt : option ecdsa.PublicKey) x y :
  coords pt = Some (x, y) ->
  bind_opt pt (fun p => bind_opt (ecdsa.X p) (fun pX =>
    bind_opt (ecdsa.Y p) (fun pY => Some (elliptic.IsOnCurve c pX pY))))
  = Some (elliptic.IsOnCurve c x y).
Proof.
  unfold coords, bind_opt. intros H.
  destruct pt as [p|]; [|discriminate].
  destruct (ecdsa.X p), (ecdsa.Y p); try discriminate.
  injection H as -> ->. reflexivity.
Qed.

(** C5.  ConfirmResponder, on every session and tag, fails with the
    no-peer-key error when no peer public key is bound, and with the
    invalid-ephemeral-key error when a peer key is bound and the received
    point, given with its two coordinates, is not on the curve.
    respondKeyExchange does the same on every scalar.  RepondKeyExchange
    draws its scalar first: when the draw fails it returns the error of the
    draw, whatever the peer key and the point are, and makes the two checks
    only when the draw succeeds.  In each case the session is returned as
    it was: the point is not stored, and no scalar, ephemeral point or
    combination point is computed. *)
Theorem ephemeral_key_checks (ke : KeyExchange) (pt : option ecdsa.PublicKey) :
  (peerPub ke = None ->
     (forall sB, ConfirmResponder pt sB ke = (ke, Err err_no_peer))
     /\ (forall r', respondKeyExchange ke pt r' = (ke, Err err_no_peer))
     /\ (forall rand,
           snd (randFieldElement (privateKey ke) rand) = None ->
           RepondKeyExchange rand pt ke = (ke, Err err_no_peer)))
  /\ (forall x y,
        peerPub ke <> None -> coords pt = Some (x, y) ->
        elliptic.IsOnCurve (curve ke) x y = false ->
        (forall sB,
            ConfirmResponder pt sB ke = (ke, Err err_invalid_responder_key))
        /\ (forall r',
              respondKeyExchange ke pt r' = (ke, Err err_invalid_initiator_key))
        /\ (forall rand,
              snd (randFieldElement (privateKey ke) rand) = None ->
              RepondKeyExchange rand pt ke
              = (ke, Err err_invalid_initiator_key)))
  /\ (forall rand e,
        snd (randFieldElement (privateKey ke) rand) = Some e ->
        RepondKeyExchange rand pt ke = (ke, Err e)).
Proof.
  assert (Hdrawn : forall rand,
             snd (randFieldElement (privateKey ke) rand) = None ->
             RepondKeyExchange rand pt ke
             = respondKeyExchange ke pt
                 (fst (randFieldElement (privateKey ke) rand))).
  { intros rand. unfold RepondKeyExchange.
    destruct (randFieldElement (privateKey ke) rand) as [r' [e|]];
      [discriminate|reflexivity]. }
  split; [|split].
  - intros Hpeer.
    assert (Hr : forall r', respondKeyExchange ke pt r' = (ke, Err err_no_peer))
      by (intros r'; unfold respondKeyExchange; rewrite Hpeer; reflexivity).
    split; [|split].
    + intros sB. unfold ConfirmResponder. rewrite Hpeer. reflexivity.
    + exact Hr.
    + intros rand Hrand. rewrite (Hdrawn rand Hrand). apply Hr.
  - intros x y Hpeer Hpt Hoff.
    assert (Hr : forall r', respondKeyExchange ke pt r'
                            = (ke, Err err_invalid_initiator_key)).
    { intros r'. unfold respondKeyExchange.
      destruct (peerPub ke); [|contradiction].
      rewrite (on_curve_check _ _ Hpt), Hoff. reflexivity. }
    split; [|split].
    + intros sB. unfold ConfirmResponder.
      destruct (peerPub ke); [|contradiction].
      rewrite (on_curve_check _ _ Hpt), Hoff. reflexivity.
    + exact Hr.
    + intros rand Hrand. rewrite (Hdrawn rand Hrand). apply Hr.
  - intros rand e Hrand. unfold RepondKeyExchange.
    destruct (randFieldElement (privateKey ke) rand) as [r' [e'|]];
      [|discriminate].
    cbn [snd] in Hrand. injection Hrand as ->. reflexivity.
Qed.

(** ** The infinity check *)

(** C4.  When the received point passes the checks and the combination
    point computed by mqv is (0, 0), RepondKeyExchange (respondKeyExchange
    on the drawn scalar) returns the "V is infinity point" error and
    ConfirmResponder the "U is infinity point" error, with no point, tag or
    key; and whenever either returns normally, the combination point of
    the session is not (0, 0). *)
Theorem infinity_is_fatal (ke : KeyExchange) (rand : Reader)
    (pt : option ecdsa.PublicKey) (x y : Z) (r' : option Z)
    (sB : option (list byte)) :
  randFieldElement (privateKey ke) rand = (r', None) ->
  peerPub ke <> None -> coords pt = Some (x, y) ->
  elliptic.IsOnCurve (curve ke) x y = true ->
  (forall ke1 ke2,
      initKeyExchange (set_peerSecret pt ke) r' = Some ke1 ->
      mqv ke1 = Some ke2 -> coords (v ke2) = Some (0, 0) ->
      respondKeyExchange ke pt r' = (ke2, Err err_V_infinity)
      /\ RepondKeyExchange rand pt ke = (ke2, Err err_V_infinity))
  /\ (forall ke2,
      mqv (set_peerSecret pt ke) = Some ke2 -> coords (v ke2) = Some (0, 0) ->
      ConfirmResponder pt sB ke = (ke2, Err err_U_infinity))
  /\ (forall ke' res,
      RepondKeyExchange rand pt ke = (ke', Ok res) ->
      coords (v ke') <> Some (0, 0))
  /\ (forall ke' res,
      ConfirmResponder pt sB ke = (ke', Ok res) ->
      coords (v ke') <> Some (0, 0)).
Proof.
  intros Hrand Hpeer Hpt Hon.
  assert (Hinf : forall k, coords (v k) = Some (0, 0) ->
                           v_is_infinity k = Some true).
  { intros k. unfold coords, v_is_infinity, bind_opt.
    destruct (v k) as [p|]; [|discriminate].
    destruct (ecdsa.X p), (ecdsa.Y p); try discriminate.
    intros H. injection H as -> ->. reflexivity. }
  assert (Hfin : forall k, v_is_infinity k = Some false ->
                           coords (v k) <> Some (0, 0)).
  { intros k Hk Hc. apply Hinf in Hc. congruence. }
  unfold RepondKeyExchange. rewrite Hrand.
  unfold respondKeyExchange, ConfirmResponder.
  destruct (peerPub ke); [|contradiction].
  rewrite (on_curve_check _ _ Hpt), Hon.
  split; [|split; [|split]].
  - intros ke1 ke2 -> -> Hv. rewrite (Hinf _ Hv). split; reflexivity.
  - intros ke2 -> Hv. rewrite (Hinf _ Hv). reflexivity.
  - intros ke' res H.
    destruct (initKeyExchange _ r') as [ke1|]; [|discriminate].
    destruct (mqv ke1) as [ke2|]; [|discriminate].
    destruct (v_is_infinity ke2) as [[|]|] eqn:Hv; try discriminate.
    apply Hfin.
    destruct (negb (genSignature ke2)); [congruence|].
    destruct (sign ke2 true x02); [congruence|discriminate].
  - intros ke' res H.
    destruct (mqv _) as [ke2|]; [|discriminate].
    destruct (v_is_infinity ke2) as [[|]|] eqn:Hv; try discriminate.
    apply Hfin.
    repeat break_match; try discriminate; congruence.
Qed.

End Checks.

(** ** What the internal steps compute *)

Section Steps.
Context {E : Externals}.

Lemma coords_inv (pub : option ecdsa.PublicKey) (xy : Z * Z) :
  coords pub = Some xy ->
  exists p, pub = Some p /\ ecdsa.X p = Some (fst xy)
            /\ ecdsa.Y p = Some (snd xy).
Proof.
  unfold coords. intros H. destruct pub as [p|]; [|discriminate].
  destruct (ecdsa.X p) eqn:HX, (ecdsa.Y p) eqn:HY; try discriminate.
  injection H as <-. exists p. auto.
Qed.

Lemma avf_value (ke : KeyExchange) (a b x : Z) :
  w2 ke = Some a -> w2Minus1 ke = Some b ->
  avf ke (Some x) = Some (a + Z.land b x).
Proof.
  unfold avf, bind_opt, And. intros -> ->. reflexivity.
Qed.

Lemma mqv_value (ke : KeyExchange) (a b sx rv d : Z)
    (s0 v0 : ecdsa.PublicKey) (peerLongTerm peerEphemeral : Z * Z) :
  0 < elliptic.Params_N (curve ke) ->
  w2 ke = Some a -> w2Minus1 ke = Some b ->
  secret ke = Some s0 -> ecdsa.X s0 = Some sx ->
  r ke = Some rv -> D (privateKey ke) = Some d ->
  coords (peerPub ke) = Some peerLongTerm ->
  coords (peerSecret ke) = Some peerEphemeral ->
  v ke = Some v0 ->
  mqv ke
  = Some (set_v (Some (set_XY v0
                         (mqv_point (curve ke) a b sx rv d
                                    peerLongTerm peerEphemeral))) ke).
Proof.
  intros HN Hw2 Hw2m Hs HsX Hr Hd Hpp Hps Hv.
  apply coords_inv in Hpp as (pp & Hpp & HppX & HppY).
  apply coords_inv in Hps as (ps & Hps & HpsX & HpsY).
  unfold mqv. rewrite Hs. cbn [bind_opt].
  rewrite HsX, (avf_value _ _ Hw2 Hw2m). cbn [bind_opt].
  rewrite Hr, Hd. cbn [bind_opt].
  unfold Mod. destruct (elliptic.Params_N (curve ke) =? 0) eqn:H0;
    [apply Z.eqb_eq in H0; lia|].
  rewrite Z.abs_eq by lia. cbn [bind_opt].
  rewrite Hps. cbn [bind_opt].
  rewrite HpsX, (avf_value _ _ Hw2 Hw2m). cbn [bind_opt].
  rewrite HpsY. cbn [bind_opt].
  unfold mqv_point, add, scalarMultiply. cbv zeta.
  rewrite Hpp. cbn [bind_opt]. rewrite HppX, HppY. cbn [bind_opt].
  rewrite Hv. reflexivity.
Qed.

Lemma sign_value (ke : KeyExchange) (isResponder : bool) (prefix : byte)
    (vxy sxy pxy : Z * Z) :
  coords (v ke) = Some vxy ->
  coords (secret ke) = Some sxy ->
  coords (peerSecret ke) = Some pxy ->
  sign ke isResponder prefix
  = Some (ComputeTag (curve ke) isResponder prefix vxy
            (elems (z ke)) (elems (peerZ ke)) sxy pxy).
Proof.
  intros Hv Hs Hp.
  apply coords_inv in Hv as (v0 & Hv & HvX & HvY).
  apply coords_inv in Hs as (s0 & Hs & HsX & HsY).
  apply coords_inv in Hp as (p0 & Hp & HpX & HpY).
  unfold sign, ComputeTag, bind_opt.
  rewrite Hv, HvX, HvY.
  destruct isResponder; rewrite Hs, HsX, HsY, Hp, HpX, HpY;
    unfold hash.Sum, hash.Write, hash.Reset, hash.New; cbn [app];
    repeat rewrite <- app_assoc; reflexivity.
Qed.

Lemma generateSharedKey_value (ke : KeyExchange) (isResponder : bool)
    (vxy : Z * Z) :
  coords (v ke) = Some vxy ->
  generateSharedKey ke isResponder
  = Kdf (bigIntToBytes (curve ke) (fst vxy)
         ++ bigIntToBytes (curve ke) (snd vxy)
         ++ (if isResponder then elems (peerZ ke) ++ elems (z ke)
             else elems (z ke) ++ elems (peerZ ke)))
        (keyLength ke).
Proof.
  intros Hv. apply coords_inv in Hv as (v0 & Hv & HvX & HvY).
  unfold generateSharedKey, bind_opt. rewrite Hv, HvX, HvY. cbn [app].
  destruct isResponder; repeat rewrite <- app_assoc; reflexivity.
Qed.

Lemma v_is_infinity_value (ke : KeyExchange) (vxy : Z * Z) :
  coords (v ke) = Some vxy ->
  v_is_infinity ke = Some ((fst vxy =? 0) && (snd vxy =? 0)).
Proof.
  intros Hv. apply coords_inv in Hv as (v0 & Hv & HvX & HvY).
  unfold v_is_infinity, bind_opt, Sign. rewrite Hv, HvX, HvY.
  destruct vxy as [x y]. cbn [fst snd].
  assert (Hsgn : forall n, (Z.sgn n =? 0) = (n =? 0))
    by (intros n; destruct n; reflexivity).
  rewrite !Hsgn. destruct (x =? 0); reflexivity.
Qed.

End Steps.

(** ** Confirmation tags *)

Section Tags.
Context {E : Externals}.

(** C3.  On a session whose combination point and two ephemeral points
    are set, sign is the two-stage digest of the reference: the inner
    digest over v.x, the identity digests and the ephemeral points in the
    order of the role (responder: peerZ, z, peer point, own point;
    initiator: z, peerZ, own point, peer point), the outer digest over the
    prefix byte, v.y and the inner digest.  Each coordinate is written as
    its big-endian bytes behind zero bytes, on exactly the field-element
    byte length when it is below 256^byteLen, and reads back as itself. *)
Theorem sign_two_stage (ke : KeyExchange) (isResponder : bool) (prefix : byte)
    (vxy sxy pxy : Z * Z) :
  coords (v ke) = Some vxy ->
  coords (secret ke) = Some sxy ->
  coords (peerSecret ke) = Some pxy ->
  sign ke isResponder prefix
  = Some (ComputeTag (curve ke) isResponder prefix vxy
            (elems (z ke)) (elems (peerZ ke)) sxy pxy)
  /\ forall n, 0 <= n < 256 ^ Z.of_nat (elliptic.byteLen (curve ke)) ->
       bigIntToBytes (curve ke) n
       = repeat x00 (elliptic.byteLen (curve ke) - length (Bytes n)) ++ Bytes n
       /\ length (bigIntToBytes (curve ke) n) = elliptic.byteLen (curve ke)
       /\ SetBytes (bigIntToBytes (curve ke) n) = n.
Proof.
  intros Hv Hs Hp. split.
  - apply sign_value; assumption.
  - intros n Hn. split; [reflexivity|]. split.
    + apply length_bigIntToBytes. assumption.
    + rewrite SetBytes_bigIntToBytes. lia.
Qed.

(** The tag the initiator recomputes in its own order is the tag of the
    responder role on the mirrored fields, and conversely. *)
Lemma ComputeTag_mirror (c : elliptic.Curve) (prefix : byte) (vxy : Z * Z)
    (zA zB : list byte) (RA RB : Z * Z) :
  ComputeTag c false prefix vxy zA zB RA RB
  = ComputeTag c true prefix vxy zB zA RB RA.
Proof. reflexivity. Qed.


End Tags.

(** ** The MQV combination *)

Section Combination.
Context {E : Externals}.

(** C2.  On a session holding the window constants of construction, its
    own scalars and ephemeral point, the peer's public key and the peer's
    ephemeral point, mqv stores in v the point Combine of the
    specification: t = avf(own ephemeral x), t = (t * r + d) mod N,
    x1 = avf(peer ephemeral x), basePoint = peer public key
    + x1 * peer ephemeral point, v = t * basePoint.  It is a function of
    the session alone, and changes no other field. *)
Theorem mqv_is_Combine (ke : KeyExchange) (w sx rv d : Z)
    (s0 v0 : ecdsa.PublicKey) (peerLongTerm peerEphemeral : Z * Z) :
  0 < elliptic.Params_N (curve ke) ->
  w2 ke = Some (2 ^ w) -> w2Minus1 ke = Some (2 ^ w - 1) ->
  secret ke = Some s0 -> ecdsa.X s0 = Some sx ->
  r ke = Some rv -> D (privateKey ke) = Some d ->
  coords (peerPub ke) = Some peerLongTerm ->
  coords (peerSecret ke) = Some peerEphemeral ->
  v ke = Some v0 ->
  mqv ke
  = Some (set_v (Some (set_XY v0
                         (Combine (curve ke) w sx rv d
                                  peerLongTerm peerEphemeral))) ke).
Proof.
  intros HN Hw2 Hw2m Hs HsX Hr Hd Hpp Hps Hv.
  rewrite (mqv_value ke HN Hw2 Hw2m Hs HsX Hr Hd Hpp Hps Hv).
  unfold mqv_point, Combine, AssociativeValue.
  rewrite (Z.land_comm sx), (Z.land_comm (fst peerEphemeral)).
  reflexivity.
Qed.

End Combination.

(** ** Key agreement *)

Section Agreement.
Context {E : Externals}.






(** The responder's step on a session that is ready for it. *)
Lemma respondKeyExchange_value (ke : KeyExchange) (pt s0 v0 : ecdsa.PublicKey)
    (a b rv d : Z) (PP P : Z * Z) :
  0 < elliptic.Params_N (curve ke) ->
  w2 ke = Some a -> w2Minus1 ke = Some b ->
  secret ke = Some s0 -> v ke = Some v0 -> D (privateKey ke) = Some d ->
  coords (peerPub ke) = Some PP -> coords (Some pt) = Some P ->
  elliptic.IsOnCurve (curve ke) (fst P) (snd P) = true ->
  let c := curve ke in
  let R := scalarBaseMultiply c rv in
  let V := mqv_point c a b (fst R) rv d PP P in
  let ke' := set_v (Some (set_XY v0 V))
               (set_r (Some rv)
                  (set_secret (Some (set_XY s0 R))
                     (set_peerSecret (Some pt) ke))) in
  respondKeyExchange ke (Some pt) (Some rv)
  = (ke',
     if (fst V =? 0) && (snd V =? 0) then Err err_V_infinity
     else Ok (Some (set_XY s0 R),
              if genSignature ke
              then Some (ComputeTag c true x02 V (elems (z ke))
                           (elems (peerZ ke)) R P)
              else None)).
Proof.
  intros HN Hw2 Hw2m Hs Hv Hd Hpp Hpt Hon c R V ke'.
  unfold respondKeyExchange.
  destruct (peerPub ke) as [pp|] eqn:Hpeer; [|discriminate].
  destruct P as [x y].
  rewrite (on_curve_check _ _ Hpt). cbn [fst snd] in Hon. rewrite Hon.
  unfold initKeyExchange. cbn [bind_opt secret set_peerSecret].
  rewrite Hs.
  change (curve (set_peerSecret (Some pt) ke)) with c.
  fold (scalarBaseMultiply c rv). fold R.
  cbn [bind_opt]. set (ke1 := set_r _ _).
  assert (Hm : mqv ke1 = Some ke').
  { apply (mqv_value ke1 (s0 := set_XY s0 R) (sx := fst R) (v0 := v0));
      try assumption; try reflexivity.
    change (peerPub ke1) with (peerPub ke). rewrite Hpeer. exact Hpp. }
  rewrite Hm.
  assert (HvV : coords (v ke') = Some V) by (destruct V; reflexivity).
  rewrite (v_is_infinity_value _ HvV).
  destruct ((fst V =? 0) && (snd V =? 0)); [reflexivity|].
  change (secret ke') with (Some (set_XY s0 R)).
  change (genSignature ke') with (genSignature ke).
  destruct (genSignature ke); [|reflexivity]. cbn [negb].
  rewrite (sign_value ke' true x02 (vxy := V) (sxy := R) (pxy := (x, y)));
    [reflexivity|assumption|destruct R; reflexivity|assumption].
Qed.





Lemma coords_set_XY (p : ecdsa.PublicKey) (xy : Z * Z) :
  coords (Some (set_XY p xy)) = Some xy.
Proof. destruct xy. reflexivity. Qed.



End Agreement.

(** ** Binding the peer *)

Section PeerBinding.
Context {E : Externals}.

(** The calls that bind nothing leave the session as it was. *)
Lemma SetPeerParameters_guards (ke : KeyExchange) (pub : ecdsa.PublicKey)
    (uid : list byte) :
  SetPeerParameters None uid ke = (ke, Ok tt)
  /\ (peerPub ke <> None ->
      SetPeerParameters (Some pub) uid ke = (ke, Err err_peerPub_exists))
  /\ (peerPub ke = None ->
      elliptic.neq (ecdsa.Curve pub) (curve ke) = true ->
      SetPeerParameters (Some pub) uid ke = (ke, Err err_peer_not_supported)).
Proof.
  unfold SetPeerParameters. split; [reflexivity|]. split.
  - intros H. destruct (peerPub ke); [reflexivity|contradiction].
  - intros -> ->. reflexivity.
Qed.

(** A successful binding sets the peer key, its digest and an empty slot
    for the peer's ephemeral point. *)
Lemma SetPeerParameters_binds (ke : KeyExchange) (pub : ecdsa.PublicKey)
    (uid : list byte) (za : option (list byte)) :
  peerPub ke = None ->
  elliptic.neq (ecdsa.Curve pub) (curve ke) = false ->
  CalculateZA pub (identity uid) = (za, None) ->
  SetPeerParameters (Some pub) uid ke
  = (set_peerSecret (Some (emptyKey (ecdsa.Curve pub)))
       (set_peerZ za (set_peerPub (Some pub) ke)), Ok tt).
Proof.
  unfold SetPeerParameters, identity. intros -> -> ->. reflexivity.
Qed.

(** When the identity digest of the peer fails, the error is returned
    with the peer key already stored. *)
Lemma SetPeerParameters_digest_failure (ke : KeyExchange)
    (pub : ecdsa.PublicKey) (uid : list byte) (za : option (list byte))
    (e : error) :
  peerPub ke = None ->
  elliptic.neq (ecdsa.Curve pub) (curve ke) = false ->
  CalculateZA pub (identity uid) = (za, Some e) ->
  SetPeerParameters (Some pub) uid ke
  = (set_peerZ za (set_peerPub (Some pub) ke), Err e).
Proof.
  unfold SetPeerParameters, identity. intros -> -> ->. reflexivity.
Qed.

End PeerBinding.

(** ** Construction *)

Section Construction.
Context {E : Externals}.

(** X1.  Supplying the peer's key to NewKeyExchange is the same as
    building the session without a peer and calling SetPeerParameters on
    it afterwards with that key and identity: both give the same session,
    or the same error.  Without a peer key the peer identity handed to
    NewKeyExchange is not read. *)
Theorem NewKeyExchange_deferred_peer (priv : PrivateKey) (pub : ecdsa.PublicKey)
    (uid peerUID ignored : list byte) (keyLen : Z) (gen : bool) :
  NewKeyExchange priv (Some pub) uid peerUID keyLen gen
  = match NewKeyExchange priv None uid ignored keyLen gen with
    | Ok ke0 =>
        match SetPeerParameters (Some pub) peerUID ke0 with
        | (ke, Ok _) => Ok ke
        | (_, Err e) => Err e
        | (_, Panic) => Panic
        end
    | Err e => Err e
    | Panic => Panic
    end.
Proof.
  unfold NewKeyExchange, SetPeerParameters.
  destruct (Lsh_panics _ _); [reflexivity|].
  destruct (CalculateZA (PublicKey priv) _) as [za [e|]]; [reflexivity|].
  cbn [peerPub set_z set_w2 set_w2Minus1 set_secret set_v curve privateKey].
  destruct (elliptic.neq _ _); [reflexivity|].
  destruct (CalculateZA pub _) as [zb [e|]]; reflexivity.
Qed.

(** The shift of NewKeyExchange is out of range exactly for the order 0:
    w = (0 + 1) / 2 - 1 = -1, and uint(-1) = 2^64 - 1. *)
Lemma window_shift_panics (order : Z) :
  BitLen order < 2 ^ 63 ->
  Lsh_panics 1 (uint ((BitLen order + 1) ÷ 2 - 1)) = true <-> order = 0.
Proof.
  intros Hlen. unfold Lsh_panics, uint, BitLen in *.
  change (negb (1 =? 0)) with true. cbn [andb].
  destruct (order =? 0) eqn:H0.
  - apply Z.eqb_eq in H0. split; [intros _; exact H0|intros _; reflexivity].
  - apply Z.eqb_neq in H0.
    pose proof (Z.log2_nonneg (Z.abs order)) as Hl.
    rewrite Z.quot_div_nonneg by lia.
    assert (1 <= (Z.log2 (Z.abs order) + 1 + 1) / 2)
      by (apply Z.div_le_lower_bound; lia).
    assert ((Z.log2 (Z.abs order) + 1 + 1) / 2 < 2 ^ 63)
      by (apply Z.div_lt_upper_bound; lia).
    rewrite Z.mod_small by lia.
    split; [|contradiction]. intros Hle. apply Z.leb_le in Hle. lia.
Qed.

(** What NewKeyExchange returns, case by case. *)
Lemma NewKeyExchange_result (priv : PrivateKey)
    (pub' : option ecdsa.PublicKey) (uid peerUID : list byte) (keyLen : Z)
    (gen : bool) :
  let new := NewKeyExchange priv pub' uid peerUID keyLen gen in
  (new = Panic
   <-> Lsh_panics 1 (uint ((BitLen (elliptic.Params_N
                                      (ecdsa.Curve (PublicKey priv))) + 1)
                           ÷ 2 - 1)) = true)
  /\ (forall e, new = Err e ->
        snd (CalculateZA (PublicKey priv) (identity uid)) = Some e
        \/ exists pub, pub' = Some pub
             /\ ((e = err_peer_not_supported
                  /\ elliptic.neq (ecdsa.Curve pub) (ecdsa.Curve (PublicKey priv)) = true)
                 \/ snd (CalculateZA pub (identity peerUID)) = Some e))
  /\ (forall ke, new = Ok ke ->
        ke = match pub' with
             | Some pub => constructed priv pub uid peerUID keyLen gen
             | None => constructed_unbound priv uid keyLen gen
             end)
  /\ (pub' = None -> new = NewKeyExchange priv None uid [] keyLen gen).
Proof.
  intros new. subst new.
  unfold NewKeyExchange, SetPeerParameters, constructed, constructed_unbound,
    identity. cbv zeta. cbn [curve privateKey].
  destruct (Lsh_panics _ _).
  { split; [split; reflexivity|]. split; [discriminate|].
    split; [discriminate|reflexivity]. }
  destruct (CalculateZA (PublicKey priv) _) as [za [e|]].
  - split; [split; discriminate|]. split; [|split; [discriminate|reflexivity]].
    intros e' H. injection H as <-. left. reflexivity.
  - destruct pub' as [pub|].
    + cbn [peerPub set_z set_w2 set_w2Minus1 curve privateKey].
      destruct (elliptic.neq _ _) eqn:Hneq.
      * split; [split; discriminate|]. split; [|split; discriminate].
        intros e H. injection H as <-. right. exists pub. split; [reflexivity|]. left. split; [reflexivity|exact Hneq].
      * destruct (CalculateZA pub _) as [zb [e|]] eqn:Hzb.
        -- split; [split; discriminate|]. split; [|split; discriminate].
           intros e' H. injection H as <-. right. exists pub. split; [reflexivity|].
           right. rewrite Hzb. reflexivity.
        -- split; [split; discriminate|]. split; [discriminate|].
           split; [|discriminate]. intros ke H. injection H as <-. reflexivity.
    + split; [split; discriminate|]. split; [discriminate|].
      split; [|reflexivity]. intros ke H. injection H as <-. reflexivity.
Qed.

(** X2.  On a private key with its curve, of an order N whose bit length
    is a Go int, NewKeyExchange panics exactly when N is 0: the window is
    then w = -1 and Lsh is asked for a shift of uint(-1) bits.  It
    returns an error, and no session, in three cases only: the identity
    digest of the own key fails, the peer key is of another curve (the
    "not expected/supported" error), or the identity digest of the peer
    key fails.  The session it returns has no ephemeral scalar, empty slots
    for the ephemeral and the combination point on the curve of the key,
    the digest of the own identity (of the default identity when uid is
    empty), and is bound to the peer key if one was given; without a peer
    key the peer identity is not read. *)
Theorem NewKeyExchange_outcome (priv : PrivateKey)
    (pub' : option ecdsa.PublicKey) (uid peerUID : list byte) (keyLen : Z)
    (gen : bool) :
  let order := elliptic.Params_N (ecdsa.Curve (PublicKey priv)) in
  let new := NewKeyExchange priv pub' uid peerUID keyLen gen in
  BitLen order < 2 ^ 63 ->
  (new = Panic <-> order = 0)
  /\ (forall e, new = Err e ->
        snd (CalculateZA (PublicKey priv) (identity uid)) = Some e
        \/ exists pub, pub' = Some pub
             /\ ((e = err_peer_not_supported
                  /\ elliptic.neq (ecdsa.Curve pub) (ecdsa.Curve (PublicKey priv)) = true)
                 \/ snd (CalculateZA pub (identity peerUID)) = Some e))
  /\ (forall ke, new = Ok ke ->
        ke = match pub' with
             | Some pub => constructed priv pub uid peerUID keyLen gen
             | None => constructed_unbound priv uid keyLen gen
             end)
  /\ (pub' = None -> new = NewKeyExchange priv None uid [] keyLen gen).
Proof.
  intros order new Hlen.
  destruct (NewKeyExchange_result priv pub' uid peerUID keyLen gen)
    as (H1 & H2 & H3 & H4).
  split; [|split; [exact H2|split; [exact H3|exact H4]]].
  pose proof (@window_shift_panics order Hlen) as H0. fold order in H1.
  split; intros H; [apply H0, H1, H|apply H1, H0, H].
Qed.

End Construction.

(** ** What the calls keep *)

Section Frames.
Context {E : Externals}.

Lemma initKeyExchange_kept (ke ke' : KeyExchange) (r' : option Z) :
  initKeyExchange ke r' = Some ke' ->
  kept ke' = kept ke /\ peerPub ke' = peerPub ke.
Proof.
  intros H. apply initKeyExchange_shape in H as (rv & sec & _ & Hs & ->).
  unfold kept. cbn. rewrite Hs. auto.
Qed.

Lemma mqv_kept (ke ke' : KeyExchange) :
  mqv ke = Some ke' -> kept ke' = kept ke /\ peerPub ke' = peerPub ke.
Proof.
  intros H. apply mqv_shape in H as (v0 & xy & Hv & ->).
  unfold kept. cbn. rewrite Hv. auto.
Qed.

Lemma SetPeerParameters_kept pub uid (ke : KeyExchange) :
  kept (fst (SetPeerParameters pub uid ke)) = kept ke
  /\ (forall pub0, peerPub ke = Some pub0 ->
        peerPub (fst (SetPeerParameters pub uid ke)) = Some pub0).
Proof.
  unfold SetPeerParameters.
  destruct pub as [pub|]; [|auto].
  destruct (peerPub ke) eqn:Hp.
  - split; [reflexivity|]. intros pub0 H. cbn [fst]. congruence.
  - split; [|intros pub0 H; discriminate H].
    repeat break_match; reflexivity.
Qed.

Lemma InitKeyExchange_kept rand (ke : KeyExchange) :
  kept (fst (InitKeyExchange rand ke)) = kept ke
  /\ peerPub (fst (InitKeyExchange rand ke)) = peerPub ke.
Proof.
  unfold InitKeyExchange.
  destruct (randFieldElement (privateKey ke) rand) as [r' [e|]]; [auto|].
  destruct (initKeyExchange ke r') as [ke'|] eqn:Hi; [|auto].
  apply initKeyExchange_kept in Hi. exact Hi.
Qed.

Lemma respondKeyExchange_kept rA r' (ke : KeyExchange) :
  kept (fst (respondKeyExchange ke rA r')) = kept ke
  /\ peerPub (fst (respondKeyExchange ke rA r')) = peerPub ke.
Proof.
  unfold respondKeyExchange.
  destruct (peerPub ke) eqn:Hp; [|auto].
  destruct (bind_opt rA _) as [[|]|]; auto.
  destruct (initKeyExchange _ r') as [ke1|] eqn:Hi; [|rewrite <- Hp; auto].
  apply initKeyExchange_kept in Hi as [Hi1 Hi2].
  change (kept (set_peerSecret rA ke)) with (kept ke) in Hi1.
  change (peerPub (set_peerSecret rA ke)) with (peerPub ke) in Hi2.
  destruct (mqv ke1) as [ke2|] eqn:Hm; [|cbn [fst]; rewrite Hp in Hi2; auto].
  apply mqv_kept in Hm as [Hm1 Hm2].
  rewrite <- Hp, <- Hi1, <- Hi2, <- Hm1, <- Hm2.
  repeat break_match; auto.
Qed.

Lemma ConfirmResponder_kept rB sB (ke : KeyExchange) :
  kept (fst (ConfirmResponder rB sB ke)) = kept ke
  /\ peerPub (fst (ConfirmResponder rB sB ke)) = peerPub ke.
Proof.
  unfold ConfirmResponder.
  destruct (peerPub ke) eqn:Hp; [|auto].
  destruct (bind_opt rB _) as [[|]|]; auto.
  destruct (mqv _) as [ke2|] eqn:Hm; [|rewrite <- Hp; auto].
  apply mqv_kept in Hm as [Hm1 Hm2].
  change (kept (set_peerSecret rB ke)) with (kept ke) in Hm1.
  change (peerPub (set_peerSecret rB ke)) with (peerPub ke) in Hm2.
  rewrite <- Hp, <- Hm1, <- Hm2.
  repeat break_match; auto.
Qed.

Lemma Destroy_kept (ke : KeyExchange) :
  kept (Destroy ke) = kept ke /\ peerPub (Destroy ke) = peerPub ke.
Proof.
  split; [|reflexivity]. unfold kept, Destroy.
  cbn [genSignature keyLength privateKey secret v z set_z set_peerZ set_r set_v].
  pose proof (destroyBytes_zero (z ke)) as [_ Hz]. rewrite Hz.
  destruct (v ke); reflexivity.
Qed.

Lemma after_kept (ke : KeyExchange) (c : call) :
  kept (after ke c) = kept ke
  /\ (forall pub0, peerPub ke = Some pub0 -> peerPub (after ke c) = Some pub0).
Proof.
  destruct c; cbn [after].
  - apply SetPeerParameters_kept.
  - destruct (InitKeyExchange_kept rand ke) as [H1 H2].
    split; [exact H1|]. intros pub0 <-. exact H2.
  - unfold RepondKeyExchange.
    destruct (randFieldElement (privateKey ke) rand) as [r' [e|]]; [auto|].
    destruct (respondKeyExchange_kept rA r' ke) as [H1 H2].
    split; [exact H1|]. intros pub0 <-. exact H2.
  - destruct (ConfirmResponder_kept rB sB ke) as [H1 H2].
    split; [exact H1|]. intros pub0 <-. exact H2.
  - auto.
  - destruct (Destroy_kept ke) as [H1 H2].
    split; [exact H1|]. intros pub0 <-. exact H2.
Qed.

Lemma calls_kept (calls : list call) :
  forall ke,
    kept (fold_left after calls ke) = kept ke
    /\ (forall pub0, peerPub ke = Some pub0 ->
          peerPub (fold_left after calls ke) = Some pub0).
Proof.
  induction calls as [|c calls IH]; intros ke; [auto|].
  cbn [fold_left]. destruct (IH (after ke c)) as [H1 H2].
  destruct (after_kept ke c) as [H3 H4].
  split; [congruence|]. auto.
Qed.

(** X3.  Whatever calls are made on a session, in any order and whatever
    they return, genSignature, keyLength and the private key are the ones
    it started with, the slots secret and v stay allocated (or nil) on the
    same curve, and the identity digest z keeps its length. *)
Theorem long_term_fields_kept (ke : KeyExchange) (calls : list call) :
  let ke' := fold_left after calls ke in
  genSignature ke' = genSignature ke
  /\ keyLength ke' = keyLength ke
  /\ privateKey ke' = privateKey ke
  /\ slot (secret ke') = slot (secret ke)
  /\ slot (v ke') = slot (v ke)
  /\ len (z ke') = len (z ke).
Proof.
  intros ke'. destruct (calls_kept calls ke) as [H _]. fold ke' in H.
  unfold kept in H. injection H as H1 H2 H3 H4 H5 H6. auto 10.
Qed.

(** X4.  The peer key is bound once.  SetPeerParameters returns normally
    with a key only on a session that had none, and binds that key; once a
    session holds a peer key, it holds the same key after any sequence of
    calls, every later SetPeerParameters with a key returns the
    "'peerPub' already exists" error and leaves the session as it is, and
    with a nil key it returns normally and does nothing. *)
Theorem peer_bound_once :
  (forall (ke0 ke : KeyExchange) pub0 uid0,
      SetPeerParameters (Some pub0) uid0 ke0 = (ke, Ok tt) ->
      peerPub ke0 = None /\ peerPub ke = Some pub0)
  /\ (forall (ke : KeyExchange) pub0 (calls : list call) pub uid,
      peerPub ke = Some pub0 ->
      let ke' := fold_left after calls ke in
      peerPub ke' = Some pub0
      /\ SetPeerParameters (Some pub) uid ke' = (ke', Err err_peerPub_exists)
      /\ SetPeerParameters None uid ke' = (ke', Ok tt)).
Proof.
  split.
  - intros ke0 ke pub0 uid0. unfold SetPeerParameters.
    destruct (peerPub ke0); [discriminate|].
    destruct (elliptic.neq _ _); [discriminate|].
    destruct (CalculateZA pub0 _) as [za [e|]]; [discriminate|].
    intros H. injection H as <-. auto.
  - intros ke pub0 calls pub uid Hp ke'.
    destruct (calls_kept calls ke) as [_ H]. specialize (H _ Hp). fold ke' in H.
    split; [exact H|]. unfold SetPeerParameters. rewrite H. auto.
Qed.


(** X6.  InitKeyExchange and SetPeerParameters commute: binding the peer
    before or after the ephemeral key is drawn leaves the same session,
    and each call returns the same in both orders. *)
Theorem InitKeyExchange_commutes_with_binding (ke : KeyExchange)
    (rand : Reader) (pub : option ecdsa.PublicKey) (uid : list byte) :
  InitKeyExchange rand (fst (SetPeerParameters pub uid ke))
  = (fst (SetPeerParameters pub uid (fst (InitKeyExchange rand ke))),
     snd (InitKeyExchange rand ke))
  /\ snd (SetPeerParameters pub uid (fst (InitKeyExchange rand ke)))
     = snd (SetPeerParameters pub uid ke).
Proof.
  assert (Hinit : forall k : KeyExchange,
             InitKeyExchange rand k
             = match randFieldElement (privateKey k) rand with
               | (_, Some e) => (k, Err e)
               | (r', None) =>
                   match r', secret k with
                   | Some rv, Some sec =>
                       let R := set_XY sec (elliptic.ScalarBaseMult (curve k)
                                              (Bytes rv)) in
                       (set_r (Some rv) (set_secret (Some R) k), Ok (Some R))
                   | _, _ => (k, Panic)
                   end
               end).
  { intros k. unfold InitKeyExchange, initKeyExchange, bind_opt.
    destruct (randFieldElement (privateKey k) rand) as [[rv|] [e|]];
      try reflexivity.
    destruct (secret k); reflexivity. }
  assert (Hbind : forall (k : KeyExchange) x y,
             SetPeerParameters pub uid (set_r x (set_secret y k))
             = (set_r x (set_secret y (fst (SetPeerParameters pub uid k))),
                snd (SetPeerParameters pub uid k))).
  { intros k x y. unfold SetPeerParameters, curve.
    cbn [peerPub privateKey set_r set_secret].
    repeat break_match; reflexivity. }
  assert (Hkeep : privateKey (fst (SetPeerParameters pub uid ke)) = privateKey ke
                  /\ secret (fst (SetPeerParameters pub uid ke)) = secret ke).
  { unfold SetPeerParameters. repeat break_match; split; reflexivity. }
  destruct Hkeep as [H1 H2].
  rewrite !Hinit. unfold curve. rewrite H1, H2.
  destruct (randFieldElement (privateKey ke) rand) as [[rv|] [e|]];
    cbn [fst snd]; try (split; reflexivity).
  destruct (secret ke) as [sec|]; cbn [fst snd]; [|split; reflexivity].
  cbv zeta. rewrite Hbind. split; reflexivity.
Qed.

End Frames.

(** ** Repeating a step *)

Section Overwriting.
Context {E : Externals}.

(** Two sessions that differ at most in the coordinates of v. *)
Lemma mqv_overwrites (k1 k2 : KeyExchange) :
  set_v None k1 = set_v None k2 -> slot (v k1) = slot (v k2) ->
  mqv k1 = mqv k2.
Proof.
  destruct k1 as [g1 l1 p1 z1 pp1 pz1 r1 s1 ps1 a1 b1 v1],
           k2 as [g2 l2 p2 z2 pp2 pz2 r2 s2 ps2 a2 b2 v2].
  unfold set_v, slot. cbn. intros H Hv. injection H as -> -> -> -> -> -> -> -> -> -> ->.
  unfold mqv, avf, bind_opt. cbn.
  destruct v1 as [[c1 x1 y1]|], v2 as [[c2 x2 y2]|]; try discriminate.
  - injection Hv as ->. unfold set_XY. cbn. reflexivity.
  - repeat break_match; reflexivity.
Qed.

Lemma base_curve (ke1 ke2 : KeyExchange) :
  base ke1 = base ke2 -> curve ke1 = curve ke2 /\ peerPub ke1 = peerPub ke2.
Proof.
  unfold base, curve. intros H. injection H as _ _ -> _ -> _ _ _ _ _. auto.
Qed.

Lemma initKeyExchange_overwrites (ke1 ke2 : KeyExchange) ps r' :
  base ke1 = base ke2 ->
  match initKeyExchange (set_peerSecret ps ke1) r',
        initKeyExchange (set_peerSecret ps ke2) r' with
  | Some k1, Some k2 => set_v None k1 = set_v None k2 /\ slot (v k1) = slot (v k2)
  | None, None => True
  | _, _ => False
  end.
Proof.
  destruct ke1 as [g1 l1 p1 z1 pp1 pz1 r1 s1 ps1 a1 b1 v1],
           ke2 as [g2 l2 p2 z2 pp2 pz2 r2 s2 ps2 a2 b2 v2].
  unfold base, slot. cbn. intros H.
  injection H as -> -> -> -> -> -> -> -> Hs Hv.
  unfold initKeyExchange, bind_opt. cbn. destruct r' as [rv|]; [|exact I].
  destruct s1 as [[c1 x1 y1]|], s2 as [[c2 x2 y2]|]; try discriminate;
    [|exact I].
  injection Hs as ->. split; [reflexivity|exact Hv].
Qed.

Lemma respondKeyExchange_only_base (ke1 ke2 : KeyExchange) rA r' :
  base ke1 = base ke2 ->
  snd (respondKeyExchange ke1 rA r') = snd (respondKeyExchange ke2 rA r')
  /\ forall ke' out,
       respondKeyExchange ke2 rA r' = (ke', Ok out) ->
       respondKeyExchange ke1 rA r' = (ke', Ok out).
Proof.
  intros Hb. destruct (base_curve Hb) as [Hc Hp].
  pose proof (initKeyExchange_overwrites rA r' Hb) as Hi.
  unfold respondKeyExchange. rewrite Hc, Hp.
  destruct (peerPub ke2); [|split; [reflexivity|discriminate]].
  destruct (bind_opt rA _) as [[|]|]; try (split; [reflexivity|discriminate]).
  destruct (initKeyExchange (set_peerSecret rA ke1) r') as [k1|],
           (initKeyExchange (set_peerSecret rA ke2) r') as [k2|];
    try contradiction; [|split; [reflexivity|discriminate]].
  destruct Hi as [H1 H2]. rewrite (mqv_overwrites H1 H2).
  destruct (mqv k2) as [m|]; [|split; [reflexivity|discriminate]].
  split; [|auto]. reflexivity.
Qed.

Lemma ConfirmResponder_only_base (ke1 ke2 : KeyExchange) rB sB :
  base ke1 = base ke2 -> r ke1 = r ke2 -> secret ke1 = secret ke2 ->
  snd (ConfirmResponder rB sB ke1) = snd (ConfirmResponder rB sB ke2)
  /\ forall ke' out,
       ConfirmResponder rB sB ke2 = (ke', Ok out) ->
       ConfirmResponder rB sB ke1 = (ke', Ok out).
Proof.
  intros Hb Hr Hs. destruct (base_curve Hb) as [Hc Hp].
  assert (Hm : mqv (set_peerSecret rB ke1) = mqv (set_peerSecret rB ke2)).
  { apply mqv_overwrites.
    - destruct ke1, ke2. unfold base in Hb. cbn in *.
      injection Hb as -> -> -> -> -> -> -> -> _ _. subst. reflexivity.
    - unfold base in Hb. injection Hb as _ _ _ _ _ _ _ _ _ Hv. exact Hv. }
  unfold ConfirmResponder. cbv zeta. rewrite Hc, Hp, Hm. clear Hm.
  destruct (peerPub ke2); [|split; [reflexivity|discriminate]].
  destruct (bind_opt rB _) as [[|]|]; try (split; [reflexivity|discriminate]).
  destruct (mqv (set_peerSecret rB ke2)) as [m|];
    [|split; [reflexivity|discriminate]].
  split; [|auto]. reflexivity.
Qed.

Lemma initKeyExchange_base (ke ke' : KeyExchange) (r' : option Z) :
  initKeyExchange ke r' = Some ke' -> base ke' = base ke.
Proof.
  intros H. apply initKeyExchange_shape in H as (rv & sec & _ & Hs & ->).
  unfold base. cbn. rewrite Hs. reflexivity.
Qed.

Lemma mqv_base (ke ke' : KeyExchange) :
  mqv ke = Some ke' ->
  base ke' = base ke /\ r ke' = r ke /\ secret ke' = secret ke.
Proof.
  intros H. apply mqv_shape in H as (v0 & xy & Hv & ->).
  unfold base. cbn. rewrite Hv. auto.
Qed.

Lemma respondKeyExchange_base rA r' (ke : KeyExchange) :
  base (fst (respondKeyExchange ke rA r')) = base ke.
Proof.
  unfold respondKeyExchange.
  destruct (peerPub ke); [|reflexivity].
  destruct (bind_opt rA _) as [[|]|]; try reflexivity.
  destruct (initKeyExchange _ r') as [ke1|] eqn:Hi; [|reflexivity].
  apply initKeyExchange_base in Hi.
  change (base (set_peerSecret rA ke)) with (base ke) in Hi.
  destruct (mqv ke1) as [ke2|] eqn:Hm; [|exact Hi].
  apply mqv_base in Hm as [Hm _]. rewrite <- Hi, <- Hm.
  repeat break_match; reflexivity.
Qed.

Lemma ConfirmResponder_base rB sB (ke : KeyExchange) :
  let ke' := fst (ConfirmResponder rB sB ke) in
  base ke' = base ke /\ r ke' = r ke /\ secret ke' = secret ke.
Proof.
  unfold ConfirmResponder.
  destruct (peerPub ke); [|auto].
  destruct (bind_opt rB _) as [[|]|]; auto.
  destruct (mqv _) as [ke2|] eqn:Hm; [|cbn; auto].
  apply mqv_base in Hm.
  change (base (set_peerSecret rB ke)) with (base ke) in Hm.
  change (r (set_peerSecret rB ke)) with (r ke) in Hm.
  change (secret (set_peerSecret rB ke)) with (secret ke) in Hm.
  repeat break_match; exact Hm.
Qed.

(** X13.  A step can be repeated.  After a call of RepondKeyExchange,
    whatever it returned, a second call on another draw and point returns
    what it would have returned on the session before the first call, and
    when it returns normally it also leaves the same session: the scalar,
    the two ephemeral points and the combination point of the first call
    are overwritten.  The same holds for ConfirmResponder after
    ConfirmResponder, which keeps the ephemeral key of InitKeyExchange. *)
Theorem steps_can_be_repeated :
  (forall (ke : KeyExchange) rand1 rA1 rand rA,
      let ke1 := fst (RepondKeyExchange rand1 rA1 ke) in
      snd (RepondKeyExchange rand rA ke1) = snd (RepondKeyExchange rand rA ke)
      /\ forall ke' out,
           RepondKeyExchange rand rA ke = (ke', Ok out) ->
           RepondKeyExchange rand rA ke1 = (ke', Ok out))
  /\ (forall (ke : KeyExchange) rB1 sB1 rB sB,
      let ke1 := fst (ConfirmResponder rB1 sB1 ke) in
      snd (ConfirmResponder rB sB ke1) = snd (ConfirmResponder rB sB ke)
      /\ forall ke' out,
           ConfirmResponder rB sB ke = (ke', Ok out) ->
           ConfirmResponder rB sB ke1 = (ke', Ok out)).
Proof.
  split.
  - intros ke rand1 rA1 rand rA ke1.
    assert (Hb : base ke1 = base ke).
    { unfold ke1, RepondKeyExchange.
      destruct (randFieldElement (privateKey ke) rand1) as [r1 [e|]];
        [reflexivity|apply respondKeyExchange_base]. }
    assert (Hp : privateKey ke1 = privateKey ke)
      by (unfold base in Hb; injection Hb as _ _ -> _ _ _ _ _ _ _; reflexivity).
    unfold RepondKeyExchange. rewrite Hp.
    destruct (randFieldElement (privateKey ke) rand) as [r' [e|]].
    + split; [reflexivity|discriminate].
    + apply respondKeyExchange_only_base. exact Hb.
  - intros ke rB1 sB1 rB sB ke1.
    destruct (ConfirmResponder_base rB1 sB1 ke) as (Hb & Hr & Hs).
    apply ConfirmResponder_only_base; assumption.
Qed.

End Overwriting.

(** ** What the steps compute *)

Section Outcomes.
Context {E : Externals}.

(** X7.  The responder's step in closed form.  On a session holding its
    window constants a and b, its private scalar d and the peer's key PP,
    for a received point P of the curve and a drawn scalar rv,
    RepondKeyExchange stores P, rv, R = rv * G and
    V = ((a + (b AND R.x)) * rv + d mod N) * (PP + (a + (b AND P.x)) * P);
    it returns the "V is infinity point" error when V is (0, 0), and
    otherwise R with, when genSignature is set, the tag of prefix 0x02 in
    the responder's order, and no tag when it is not. *)
Theorem RepondKeyExchange_outcome (ke : KeyExchange) (rand : Reader)
    (pt s0 v0 : ecdsa.PublicKey) (a b rv d : Z) (PP P : Z * Z) :
  0 < elliptic.Params_N (curve ke) ->
  w2 ke = Some a -> w2Minus1 ke = Some b ->
  secret ke = Some s0 -> v ke = Some v0 -> D (privateKey ke) = Some d ->
  coords (peerPub ke) = Some PP -> coords (Some pt) = Some P ->
  elliptic.IsOnCurve (curve ke) (fst P) (snd P) = true ->
  randFieldElement (privateKey ke) rand = (Some rv, None) ->
  let c := curve ke in
  let R := scalarBaseMultiply c rv in
  let V := scalarMultiply c
             (add c PP (scalarMultiply c P (a + Z.land b (fst P))))
             (((a + Z.land b (fst R)) * rv + d) mod elliptic.Params_N c) in
  let ke' := set_v (Some (set_XY v0 V))
               (set_r (Some rv)
                  (set_secret (Some (set_XY s0 R))
                     (set_peerSecret (Some pt) ke))) in
  RepondKeyExchange rand (Some pt) ke
  = (ke',
     if (fst V =? 0) && (snd V =? 0) then Err err_V_infinity
     else Ok (Some (set_XY s0 R),
              if genSignature ke
              then Some (ComputeTag c true x02 V (elems (z ke))
                           (elems (peerZ ke)) R P)
              else None)).
Proof.
  intros HN Hw2 Hw2m Hs Hv Hd Hpp Hpt Hon Hrand c R V ke'.
  unfold RepondKeyExchange. rewrite Hrand.
  exact (@respondKeyExchange_value E ke pt s0 v0 a b rv d PP P
           HN Hw2 Hw2m Hs Hv Hd Hpp Hpt Hon).
Qed.

(** The initiator's second step in closed form. *)
Lemma ConfirmResponder_run (ke : KeyExchange) (pt s0 v0 : ecdsa.PublicKey)
    (sB : option (list byte)) (a b rv d : Z) (PP P S : Z * Z) :
  0 < elliptic.Params_N (curve ke) ->
  w2 ke = Some a -> w2Minus1 ke = Some b ->
  secret ke = Some s0 -> coords (Some s0) = Some S ->
  r ke = Some rv -> v ke = Some v0 -> D (privateKey ke) = Some d ->
  coords (peerPub ke) = Some PP -> coords (Some pt) = Some P ->
  elliptic.IsOnCurve (curve ke) (fst P) (snd P) = true ->
  let c := curve ke in
  let U := scalarMultiply c
             (add c PP (scalarMultiply c P (a + Z.land b (fst P))))
             (((a + Z.land b (fst S)) * rv + d) mod elliptic.Params_N c) in
  let ke' := set_v (Some (set_XY v0 U)) (set_peerSecret (Some pt) ke) in
  let tag prefix :=
    ComputeTag c false prefix U (elems (z ke)) (elems (peerZ ke)) S P in
  ConfirmResponder (Some pt) sB ke
  = (ke',
     if (fst U =? 0) && (snd U =? 0) then Err err_U_infinity
     else if (len sB >? 0)
             && negb (subtle.ConstantTimeCompare (tag x02) (elems sB) =? 1)
     then Err err_invalid_responder_signature
     else match Kdf (bigIntToBytes c (fst U) ++ bigIntToBytes c (snd U)
                     ++ elems (z ke) ++ elems (peerZ ke)) (keyLength ke) with
          | Some key => Ok (key, if genSignature ke then Some (tag x03) else None)
          | None => Panic
          end).
Proof.
  intros HN Hw2 Hw2m Hs HS Hr Hv Hd Hpp Hpt Hon.
  destruct P as [x y]. cbn [fst snd] in Hon.
  intros c U ke' tag.
  unfold ConfirmResponder. cbv zeta.
  destruct (peerPub ke) as [pp|] eqn:Hpeer; [|discriminate].
  rewrite (on_curve_check _ _ Hpt), Hon.
  pose proof (coords_inv _ HS) as (s1 & Hs1 & HsX & HsY).
  injection Hs1 as <-.
  assert (Hm : mqv (set_peerSecret (Some pt) ke) = Some ke').
  { apply (mqv_value (set_peerSecret (Some pt) ke) (s0 := s0) (sx := fst S)
             (v0 := v0)); try assumption; try reflexivity.
    change (peerPub (set_peerSecret (Some pt) ke)) with (peerPub ke).
    rewrite Hpeer. exact Hpp. }
  rewrite Hm.
  assert (HvU : coords (v ke') = Some U) by (destruct U; reflexivity).
  assert (HsS : coords (secret ke') = Some S)
    by (change (secret ke') with (secret ke); rewrite Hs; exact HS).
  assert (HpP : coords (peerSecret ke') = Some (x, y)) by exact Hpt.
  rewrite (v_is_infinity_value _ HvU).
  destruct ((fst U =? 0) && (snd U =? 0)); [reflexivity|].
  rewrite !(sign_value ke' false _ HvU HsS HpP).
  rewrite (generateSharedKey_value ke' false HvU).
  change (curve ke') with c. change (z ke') with (z ke).
  change (peerZ ke') with (peerZ ke).
  change (keyLength ke') with (keyLength ke).
  change (genSignature ke') with (genSignature ke).
  fold (tag x02). fold (tag x03).
  destruct (len sB >? 0); cbn [andb];
    [destruct (negb (subtle.ConstantTimeCompare _ _ =? 1)); [reflexivity|]|];
    destruct (Kdf _ _); [|reflexivity| |reflexivity];
    destruct (genSignature ke); reflexivity.
Qed.

(** X8.  The initiator's second step in closed form.  On a session that
    holds its ephemeral scalar rv and point S, for a received point P of
    the curve, ConfirmResponder stores P and
    U = ((a + (b AND S.x)) * rv + d mod N) * (PP + (a + (b AND P.x)) * P);
    it returns the "U is infinity point" error when U is (0, 0), the
    "invalid responder's signature" error when a tag of positive length
    is not the one of prefix 0x02 it recomputes, and otherwise the key
    Kdf(U.x || U.y || z || peerZ, keyLength) with, when genSignature is
    set, the tag of prefix 0x03; it panics only if Kdf does. *)
Theorem ConfirmResponder_outcome (ke : KeyExchange) (pt s0 v0 : ecdsa.PublicKey)
    (sB : option (list byte)) (a b rv d : Z) (PP P S : Z * Z) :
  0 < elliptic.Params_N (curve ke) ->
  w2 ke = Some a -> w2Minus1 ke = Some b ->
  secret ke = Some s0 -> coords (Some s0) = Some S ->
  r ke = Some rv -> v ke = Some v0 -> D (privateKey ke) = Some d ->
  coords (peerPub ke) = Some PP -> coords (Some pt) = Some P ->
  elliptic.IsOnCurve (curve ke) (fst P) (snd P) = true ->
  let c := curve ke in
  let U := scalarMultiply c
             (add c PP (scalarMultiply c P (a + Z.land b (fst P))))
             (((a + Z.land b (fst S)) * rv + d) mod elliptic.Params_N c) in
  let ke' := set_v (Some (set_XY v0 U)) (set_peerSecret (Some pt) ke) in
  let tag prefix :=
    ComputeTag c false prefix U (elems (z ke)) (elems (peerZ ke)) S P in
  ConfirmResponder (Some pt) sB ke
  = (ke',
     if (fst U =? 0) && (snd U =? 0) then Err err_U_infinity
     else if (len sB >? 0)
             && negb (subtle.ConstantTimeCompare (tag x02) (elems sB) =? 1)
     then Err err_invalid_responder_signature
     else match Kdf (bigIntToBytes c (fst U) ++ bigIntToBytes c (snd U)
                     ++ elems (z ke) ++ elems (peerZ ke)) (keyLength ke) with
          | Some key => Ok (key, if genSignature ke then Some (tag x03) else None)
          | None => Panic
          end).
Proof. exact (@ConfirmResponder_run ke pt s0 v0 sB a b rv d PP P S). Qed.

(** X9.  The two roles mirror each other.  When an initiator session and a
    responder session hold the same combination point, each the other's
    identity digest as its peerZ and each the other's ephemeral point as
    its peerSecret, sign in the initiator's order on the one is sign in
    the responder's order on the other, for every prefix, and both derive
    the same key: Kdf over the point, the initiator's digest and the
    responder's digest, in this order. *)
Theorem roles_mirror (keA keB : KeyExchange) (prefix : byte) (V RA RB : Z * Z) :
  curve keA = curve keB -> keyLength keA = keyLength keB ->
  coords (v keA) = Some V -> coords (v keB) = Some V ->
  elems (z keA) = elems (peerZ keB) -> elems (peerZ keA) = elems (z keB) ->
  coords (secret keA) = Some RA -> coords (peerSecret keB) = Some RA ->
  coords (peerSecret keA) = Some RB -> coords (secret keB) = Some RB ->
  sign keA false prefix = sign keB true prefix
  /\ generateSharedKey keA false = generateSharedKey keB true
  /\ generateSharedKey keA false
     = Kdf (bigIntToBytes (curve keA) (fst V) ++ bigIntToBytes (curve keA) (snd V)
            ++ elems (z keA) ++ elems (z keB)) (keyLength keA).
Proof.
  intros Hc Hl HvA HvB Hz Hpz HsA HpB HpA HsB.
  rewrite (sign_value keA false prefix HvA HsA HpA).
  rewrite (sign_value keB true prefix HvB HsB HpB).
  rewrite (generateSharedKey_value keA false HvA).
  rewrite (generateSharedKey_value keB true HvB).
  rewrite <- Hc, <- Hl, <- Hz, <- Hpz. auto.
Qed.

(** X10.  The errors a step can return.  RepondKeyExchange returns the
    error of randFieldElement, the no-peer-key error or the invalid-point
    error, each with the session unchanged, or the "V is infinity point"
    error on a combination point (0, 0), and no other.  ConfirmResponder
    returns the no-peer-key or the invalid-point error with the session
    unchanged, the "U is infinity point" error, or the signature error on
    a tag of positive length that differs from the recomputed one, and no
    other: key derivation never returns an error.  ConfirmInitiator
    returns only the signature error, and only on a non-nil tag that
    differs from the recomputed one. *)
Theorem errors_returned :
  (forall (ke ke' : KeyExchange) rand rA e,
      RepondKeyExchange rand rA ke = (ke', Err e) ->
      (snd (randFieldElement (privateKey ke) rand) = Some e /\ ke' = ke)
      \/ (e = err_no_peer /\ peerPub ke = None /\ ke' = ke)
      \/ (e = err_invalid_initiator_key /\ ke' = ke)
      \/ (e = err_V_infinity /\ v_is_infinity ke' = Some true))
  /\ (forall (ke ke' : KeyExchange) rB sB e,
      ConfirmResponder rB sB ke = (ke', Err e) ->
      (e = err_no_peer /\ peerPub ke = None /\ ke' = ke)
      \/ (e = err_invalid_responder_key /\ ke' = ke)
      \/ (e = err_U_infinity /\ v_is_infinity ke' = Some true)
      \/ (e = err_invalid_responder_signature /\ 0 < len sB
          /\ sign ke' false x02 <> Some (elems sB)))
  /\ (forall (ke : KeyExchange) s1 e,
      ConfirmInitiator s1 ke = Err e ->
      e = err_invalid_initiator_signature
      /\ exists s, s1 = Some s /\ sign ke true x03 <> Some s).
Proof.
  split; [|split].
  - intros ke ke' rand rA e. unfold RepondKeyExchange.
    destruct (randFieldElement (privateKey ke) rand) as [r' [e'|]].
    + intros H. injection H as <- <-. left. auto.
    + unfold respondKeyExchange.
      destruct (peerPub ke); [|intros H; injection H as <- <-; auto 6].
      destruct (bind_opt rA _) as [[|]|]; try discriminate;
        [|intros H; injection H as <- <-; auto 6].
      destruct (initKeyExchange _ r') as [ke1|]; [|discriminate].
      destruct (mqv ke1) as [ke2|]; [|discriminate].
      destruct (v_is_infinity ke2) as [[|]|] eqn:Hv; try discriminate.
      * intros H. injection H as <- <-. auto 6.
      * destruct (negb (genSignature ke2)); [discriminate|].
        destruct (sign ke2 true x02); discriminate.
  - intros ke ke' rB sB e. unfold ConfirmResponder. cbv zeta.
    destruct (peerPub ke); [|intros H; injection H as <- <-; auto 6].
    destruct (bind_opt rB _) as [[|]|]; try discriminate;
      [|intros H; injection H as <- <-; auto 6].
    destruct (mqv _) as [ke2|]; [|discriminate].
    destruct (v_is_infinity ke2) as [[|]|] eqn:Hv; try discriminate.
    + intros H. injection H as <- <-. auto 6.
    + destruct (len sB >? 0) eqn:Hlen.
      * destruct (sign ke2 false x02) as [buffer|] eqn:Hs; [|discriminate].
        destruct (negb _) eqn:Hcmp.
        -- intros H. injection H as <- <-. right. right. right.
           split; [reflexivity|]. split; [apply Z.gtb_lt; exact Hlen|].
           intros Heq. rewrite Hs in Heq. injection Heq as ->.
           rewrite ConstantTimeCompare_refl in Hcmp. discriminate Hcmp.
        -- destruct (generateSharedKey ke2 false); [|discriminate].
           destruct (negb (genSignature ke2)); [discriminate|].
           destruct (sign ke2 false x03); discriminate.
      * destruct (generateSharedKey ke2 false); [|discriminate].
        destruct (negb (genSignature ke2)); [discriminate|].
        destruct (sign ke2 false x03); discriminate.
  - intros ke s1 e. unfold ConfirmInitiator. cbv zeta.
    destruct s1 as [s|].
    + destruct (sign ke true x03) as [buffer|] eqn:Hs; [|discriminate].
      destruct (negb _) eqn:Hcmp.
      * intros H. injection H as <-. split; [reflexivity|].
        exists s. split; [reflexivity|]. intros Heq. injection Heq as ->.
        rewrite ConstantTimeCompare_refl in Hcmp. discriminate Hcmp.
      * destruct (generateSharedKey ke true); discriminate.
    + destruct (generateSharedKey ke true); discriminate.
Qed.

(** X11.  Whenever RepondKeyExchange returns normally, the point it
    returns is the session's secret, and it returns a tag exactly when
    genSignature is set: the value of sign in the responder's order with
    prefix 0x02, 32 bytes long.  Whenever ConfirmResponder returns
    normally, the key is the one generateSharedKey derives on the session
    it leaves, and it returns a tag exactly when genSignature is set: the
    value of sign in the initiator's order with prefix 0x03, 32 bytes
    long.  32 is the length of an SM3 digest. *)
Theorem tags_follow_genSignature :
  (forall m, length (SM3 m) = 32%nat) ->
  (forall (ke ke' : KeyExchange) rand rA RB sB,
      RepondKeyExchange rand rA ke = (ke', Ok (RB, sB)) ->
      RB = secret ke'
      /\ sB = (if genSignature ke then sign ke' true x02 else None)
      /\ (if genSignature ke then exists tag, sB = Some tag /\ length tag = 32%nat
          else sB = None))
  /\ (forall (ke ke' : KeyExchange) rB sB key sA,
      ConfirmResponder rB sB ke = (ke', Ok (key, sA)) ->
      generateSharedKey ke' false = Some key
      /\ sA = (if genSignature ke then sign ke' false x03 else None)
      /\ (if genSignature ke then exists tag, sA = Some tag /\ length tag = 32%nat
          else sA = None)).
Proof.
  intros Hsize.
  assert (Hsign : forall ke b p tag, sign ke b p = Some tag ->
                                     length tag = 32%nat).
  { intros ke b p tag Hsign. unfold sign, bind_opt in Hsign.
    repeat break_match; try discriminate;
      injection Hsign as <-; unfold hash.Sum; cbn [app]; apply Hsize. }
  split.
  - intros ke ke' rand rA RB sB. unfold RepondKeyExchange.
    destruct (randFieldElement (privateKey ke) rand) as [r' [e'|]];
      [discriminate|].
    pose proof (respondKeyExchange_base rA r' ke) as Hb.
    intros H. rewrite H in Hb. cbn [fst] in Hb.
    assert (Hg : genSignature ke' = genSignature ke)
      by (unfold base in Hb; injection Hb; auto).
    revert H. unfold respondKeyExchange.
    destruct (peerPub ke); [|discriminate].
    destruct (bind_opt rA _) as [[|]|]; try discriminate.
    destruct (initKeyExchange _ r') as [ke1|]; [|discriminate].
    destruct (mqv ke1) as [ke2|]; [|discriminate].
    destruct (v_is_infinity ke2) as [[|]|]; try discriminate.
    destruct (genSignature ke2) eqn:Hg2; cbn [negb].
    + destruct (sign ke2 true x02) as [tag|] eqn:Hs; [|discriminate].
      intros H. injection H as <- <- <-. rewrite <- Hg, Hg2, Hs.
      split; [reflexivity|]. split; [reflexivity|].
      exists tag. split; [reflexivity|]. exact (Hsign _ _ _ _ Hs).
    + intros H. injection H as <- <- <-. rewrite <- Hg, Hg2. auto.
  - intros ke ke' rB sB key sA.
    destruct (ConfirmResponder_base rB sB ke) as (Hb & _).
    intros H. rewrite H in Hb. cbn [fst] in Hb.
    assert (Hg : genSignature ke' = genSignature ke)
      by (unfold base in Hb; injection Hb; auto).
    revert H. unfold ConfirmResponder. cbv zeta.
    destruct (peerPub ke); [|discriminate].
    destruct (bind_opt rB _) as [[|]|]; try discriminate.
    destruct (mqv _) as [ke2|]; [|discriminate].
    destruct (v_is_infinity ke2) as [[|]|]; try discriminate.
    match goal with
    | |- context [match ?c with Ok _ => _ | Err _ => _ | Panic => _ end] =>
        destruct c as [[]|e|]; try discriminate
    end.
    destruct (generateSharedKey ke2 false) as [k|] eqn:Hk; [|discriminate].
    destruct (genSignature ke2) eqn:Hg2; cbn [negb].
    + destruct (sign ke2 false x03) as [tag|] eqn:Hs; [|discriminate].
      intros H. injection H as <- <- <-. rewrite <- Hg, Hg2, Hs.
      split; [exact Hk|]. split; [reflexivity|].
      exists tag. split; [reflexivity|]. exact (Hsign _ _ _ _ Hs).
    + intros H. injection H as <- <- <-. rewrite <- Hg, Hg2. auto.
Qed.

(** X12.  A tag only filters.  Whenever ConfirmResponder returns normally
    on some tag, it returns the same, and leaves the same session, on the
    nil tag; whenever ConfirmInitiator returns a key on some tag, it
    returns the same key on the nil tag; and each accepts the tag it
    recomputes, with the result of the nil tag.  So neither confirmation
    insists on a tag, whatever genSignature is. *)
Theorem tags_are_optional :
  (forall (ke ke' : KeyExchange) rB sB out,
      ConfirmResponder rB sB ke = (ke', Ok out) ->
      ConfirmResponder rB None ke = (ke', Ok out))
  /\ (forall (ke : KeyExchange) s1 key,
      ConfirmInitiator s1 ke = Ok key -> ConfirmInitiator None ke = Ok key)
  /\ (forall (ke ke' : KeyExchange) rB x y tag,
      peerPub ke <> None -> coords rB = Some (x, y) ->
      elliptic.IsOnCurve (curve ke) x y = true ->
      mqv (set_peerSecret rB ke) = Some ke' ->
      sign ke' false x02 = Some tag ->
      ConfirmResponder rB (Some tag) ke = ConfirmResponder rB None ke)
  /\ (forall (ke : KeyExchange) tag,
      sign ke true x03 = Some tag ->
      ConfirmInitiator (Some tag) ke = ConfirmInitiator None ke).
Proof.
  split; [|split; [|split]].
  - intros ke ke' rB sB out. unfold ConfirmResponder. cbv zeta.
    destruct (peerPub ke); [|discriminate].
    destruct (bind_opt rB _) as [[|]|]; try discriminate.
    destruct (mqv _) as [ke2|]; [|discriminate].
    destruct (v_is_infinity ke2) as [[|]|]; try discriminate.
    change (len None >? 0) with false. cbv iota.
    destruct (len sB >? 0); [|exact (fun H => H)].
    destruct (sign ke2 false x02) as [buffer|]; [|discriminate].
    destruct (negb (subtle.ConstantTimeCompare _ _ =? 1)); [discriminate|].
    exact (fun H => H).
  - intros ke s1 key. unfold ConfirmInitiator. cbv zeta.
    destruct s1 as [s|]; [|exact (fun H => H)].
    destruct (sign ke true x03) as [buffer|]; [|discriminate].
    destruct (negb (subtle.ConstantTimeCompare _ _ =? 1)); [discriminate|].
    exact (fun H => H).
  - intros ke ke' rB x y tag Hpeer Hpt Hon Hmqv Hsign.
    unfold ConfirmResponder. cbv zeta.
    destruct (peerPub ke); [|contradiction].
    rewrite (on_curve_check _ _ Hpt), Hon, Hmqv, Hsign.
    destruct (v_is_infinity ke') as [[|]|]; try reflexivity.
    cbn [elems]. rewrite ConstantTimeCompare_refl.
    destruct (len (Some tag) >? 0); reflexivity.
  - intros ke tag Hsign. unfold ConfirmInitiator. cbv zeta.
    rewrite Hsign, ConstantTimeCompare_refl. reflexivity.
Qed.

End Outcomes.

(** ** Tags that do not match *)

Section Tampering.
Context {E : Externals}.

(** sign dereferences v and the two ephemeral points with their
    coordinates: it panics when one of them is nil. *)
Lemma sign_needs_points (ke : KeyExchange) (isResponder : bool) (prefix : byte) :
  coords (v ke) = None \/ coords (secret ke) = None
  \/ coords (peerSecret ke) = None ->
  sign ke isResponder prefix = None.
Proof.
  unfold sign, coords, bind_opt.
  destruct (v ke) as [[cv [vx|] [vy|]]|],
           (secret ke) as [[cs [sx|] [sy|]]|],
           (peerSecret ke) as [[cp [px|] [py|]]|];
    cbn [ecdsa.X ecdsa.Y]; destruct isResponder;
    intros [H|[H|H]]; try discriminate H; reflexivity.
Qed.

(** A normal return of RepondKeyExchange leaves the three points set. *)
Lemma RepondKeyExchange_leaves_points (ke ke1 : KeyExchange) (rand : Reader)
    (rA : option ecdsa.PublicKey)
    (out : option ecdsa.PublicKey * option (list byte)) :
  RepondKeyExchange rand rA ke = (ke1, Ok out) ->
  exists V S P,
    coords (v ke1) = Some V /\ coords (secret ke1) = Some S
    /\ coords (peerSecret ke1) = Some P.
Proof.
  unfold RepondKeyExchange.
  destruct (randFieldElement (privateKey ke) rand) as [r' [e|]];
    [discriminate|].
  unfold respondKeyExchange.
  destruct (peerPub ke); [|discriminate].
  destruct (coords rA) as [[x y]|] eqn:Hpt.
  2:{ unfold coords in Hpt. unfold bind_opt.
      destruct rA as [[cA [x|] [y|]]|]; discriminate. }
  rewrite (on_curve_check _ _ Hpt).
  destruct (elliptic.IsOnCurve (curve ke) x y); [|discriminate].
  destruct (initKeyExchange (set_peerSecret rA ke) r') as [ke2|] eqn:Hi;
    [|discriminate].
  apply initKeyExchange_shape in Hi as (rv & sec & _ & _ & ->).
  match goal with
  | |- context [mqv ?k] => destruct (mqv k) as [ke3|] eqn:Hm; [|discriminate]
  end.
  apply mqv_shape in Hm as (v0 & xy & _ & ->).
  intros H.
  assert (Hke : ke1 = set_v (Some (set_XY v0 xy))
                        (set_r (Some rv)
                           (set_secret
                              (Some (set_XY sec
                                       (scalarBaseMultiply
                                          (curve (set_peerSecret rA ke)) rv)))
                              (set_peerSecret rA ke)))).
  { repeat break_match; try discriminate; injection H as <- _; reflexivity. }
  rewrite Hke. eexists. eexists. exists (x, y).
  split; [apply coords_set_XY|]. split; [apply coords_set_XY|exact Hpt].
Qed.

(** C6.  On a session that holds what the step reads, a tag that does
    not match is refused with an error and no key.  ConfirmResponder, on a
    session with its window constants, private scalar, ephemeral scalar
    and point and the peer's key, for a received point of the curve and a
    tag that is not empty and differs from the tag of prefix 0x02 it
    recomputes, returns the "invalid responder's signature" error (the
    "U is infinity point" error when the combination point is (0, 0)).
    ConfirmInitiator, on a session whose combination point and two
    ephemeral points have their coordinates, which is so whenever
    RepondKeyExchange has returned normally, returns the "invalid
    initiator's signature" error on a non-nil tag that differs from the
    tag of prefix 0x03 it recomputes.  On other sessions the confirmation
    panics: ConfirmInitiator on every non-nil tag when one of the three
    points lacks a coordinate, ConfirmResponder when the session has no
    ephemeral scalar. *)
Theorem tampered_tag_rejected :
  (forall (ke : KeyExchange) (pt s0 v0 : ecdsa.PublicKey) (sB : list byte)
          (a b rv d : Z) (PP P S : Z * Z),
      0 < elliptic.Params_N (curve ke) ->
      w2 ke = Some a -> w2Minus1 ke = Some b ->
      secret ke = Some s0 -> coords (Some s0) = Some S ->
      r ke = Some rv -> v ke = Some v0 -> D (privateKey ke) = Some d ->
      coords (peerPub ke) = Some PP -> coords (Some pt) = Some P ->
      elliptic.IsOnCurve (curve ke) (fst P) (snd P) = true ->
      let c := curve ke in
      let U := scalarMultiply c
                 (add c PP (scalarMultiply c P (a + Z.land b (fst P))))
                 (((a + Z.land b (fst S)) * rv + d) mod elliptic.Params_N c) in
      let ke' := set_v (Some (set_XY v0 U)) (set_peerSecret (Some pt) ke) in
      sB <> [] ->
      sB <> ComputeTag c false x02 U (elems (z ke)) (elems (peerZ ke)) S P ->
      ConfirmResponder (Some pt) (Some sB) ke
      = (ke',
         if (fst U =? 0) && (snd U =? 0) then Err err_U_infinity
         else Err err_invalid_responder_signature))
  /\ (forall (ke : KeyExchange) (s1 : list byte),
      match coords (v ke), coords (secret ke), coords (peerSecret ke) with
      | Some vxy, Some sxy, Some pxy =>
          s1 <> ComputeTag (curve ke) true x03 vxy (elems (z ke))
                  (elems (peerZ ke)) sxy pxy ->
          ConfirmInitiator (Some s1) ke = Err err_invalid_initiator_signature
      | _, _, _ => ConfirmInitiator (Some s1) ke = Panic
      end)
  /\ (forall (ke ke1 : KeyExchange) (rand : Reader) rA out (s1 : list byte),
      RepondKeyExchange rand rA ke = (ke1, Ok out) ->
      exists tag,
        sign ke1 true x03 = Some tag
        /\ (s1 <> tag ->
            ConfirmInitiator (Some s1) ke1
            = Err err_invalid_initiator_signature))
  /\ (forall (ke : KeyExchange) rB x y (sB : option (list byte)),
      peerPub ke <> None -> coords rB = Some (x, y) ->
      elliptic.IsOnCurve (curve ke) x y = true ->
      r ke = None ->
      ConfirmResponder rB sB ke = (set_peerSecret rB ke, Panic)).
Proof.
  assert (Hreject : forall (ke : KeyExchange) (s1 : list byte) V S P,
             coords (v ke) = Some V -> coords (secret ke) = Some S ->
             coords (peerSecret ke) = Some P ->
             s1 <> ComputeTag (curve ke) true x03 V (elems (z ke))
                     (elems (peerZ ke)) S P ->
             ConfirmInitiator (Some s1) ke
             = Err err_invalid_initiator_signature).
  { intros ke s1 V S P HV HS HP Hneq. unfold ConfirmInitiator.
    rewrite (sign_value ke true x03 HV HS HP).
    rewrite ConstantTimeCompare_neq by congruence. reflexivity. }
  assert (Hpanic : forall (ke : KeyExchange) (s1 : list byte),
             coords (v ke) = None \/ coords (secret ke) = None
             \/ coords (peerSecret ke) = None ->
             ConfirmInitiator (Some s1) ke = Panic).
  { intros ke s1 H. unfold ConfirmInitiator.
    rewrite (sign_needs_points ke true x03 H). reflexivity. }
  split; [|split; [|split]].
  - intros ke pt s0 v0 sB a b rv d PP P S HN Hw2 Hw2m Hs HS Hr Hv Hd Hpp Hpt
      Hon c U ke' Hne Hneq.
    rewrite (@ConfirmResponder_run E ke pt s0 v0 (Some sB) a b rv d PP P S
               HN Hw2 Hw2m Hs HS Hr Hv Hd Hpp Hpt Hon).
    fold c. fold U. fold ke'.
    destruct ((fst U =? 0) && (snd U =? 0)); [reflexivity|].
    assert (Hlen : (len (Some sB) >? 0) = true).
    { unfold len. cbn [elems]. destruct sB; [contradiction|].
      cbn [length]. apply Z.gtb_lt. lia. }
    rewrite Hlen. cbn [elems].
    rewrite ConstantTimeCompare_neq by congruence. reflexivity.
  - intros ke s1.
    destruct (coords (v ke)) as [V|] eqn:HV; [|apply Hpanic; auto].
    destruct (coords (secret ke)) as [S|] eqn:HS; [|apply Hpanic; auto].
    destruct (coords (peerSecret ke)) as [P|] eqn:HP; [|apply Hpanic; auto].
    apply Hreject; assumption.
  - intros ke ke1 rand rA out s1 H.
    apply RepondKeyExchange_leaves_points in H as (V & S & P & HV & HS & HP).
    eexists. split; [apply (sign_value ke1 true x03 HV HS HP)|].
    intros Hneq. apply (Hreject ke1 s1 V S P); assumption.
  - intros ke rB x y sB Hpeer Hpt Hon Hr. unfold ConfirmResponder.
    destruct (peerPub ke); [|contradiction].
    rewrite (on_curve_check _ _ Hpt), Hon.
    assert (Hm : mqv (set_peerSecret rB ke) = None).
    { unfold mqv, bind_opt. cbn [secret r set_peerSecret]. rewrite Hr.
      destruct (secret ke) as [s|]; [|reflexivity].
      destruct (avf _ _); reflexivity. }
    rewrite Hm. reflexivity.
Qed.

End Tampering.

(** ** Calls out of order, and panics *)

Section Safety.
Context {E : Externals}.

(** X14.  ConfirmResponder before InitKeyExchange panics.  On a session
    as NewKeyExchange built it, bound to a peer at construction or by
    SetPeerParameters, a received point that passes the on-curve check
    makes ConfirmResponder store the point and then panic: the x
    coordinate of the own ephemeral point is still nil when avf reads
    it. *)
Theorem ConfirmResponder_before_InitKeyExchange (priv : PrivateKey)
    (pub' pub'' : option ecdsa.PublicKey) (uid peerUID uid'' : list byte)
    (keyLen : Z) (gen : bool) (ke0 : KeyExchange)
    (rB : option ecdsa.PublicKey) (x y : Z) (sB : option (list byte)) :
  NewKeyExchange priv pub' uid peerUID keyLen gen = Ok ke0 ->
  let ke := fst (SetPeerParameters pub'' uid'' ke0) in
  peerPub ke <> None ->
  coords rB = Some (x, y) ->
  elliptic.IsOnCurve (curve ke) x y = true ->
  ConfirmResponder rB sB ke = (set_peerSecret rB ke, Panic).
Proof.
  intros Hnew ke Hpeer Hpt Hon.
  assert (Hs : secret ke = Some (emptyKey (ecdsa.Curve (PublicKey priv)))).
  { apply NewKeyExchange_result in Hnew.
    assert (H0 : secret ke0 = Some (emptyKey (ecdsa.Curve (PublicKey priv))))
      by (rewrite Hnew; destruct pub'; reflexivity).
    unfold ke, SetPeerParameters. repeat break_match; exact H0. }
  unfold ConfirmResponder.
  destruct (peerPub ke); [|contradiction].
  rewrite (on_curve_check _ _ Hpt), Hon.
  unfold mqv. cbn [secret set_peerSecret]. rewrite Hs.
  unfold avf, bind_opt. cbn [ecdsa.X emptyKey].
  destruct (w2Minus1 _); reflexivity.
Qed.

Lemma ConfirmResponder_no_panic (ke : KeyExchange) (s0 v0 : ecdsa.PublicKey)
    (a b rv d : Z) (PP S : Z * Z) rB (P : Z * Z) sB :
  0 < elliptic.Params_N (curve ke) ->
  w2 ke = Some a -> w2Minus1 ke = Some b ->
  secret ke = Some s0 -> coords (Some s0) = Some S ->
  r ke = Some rv -> v ke = Some v0 -> D (privateKey ke) = Some d ->
  coords (peerPub ke) = Some PP -> coords rB = Some P ->
  (forall data, Kdf data (keyLength ke) <> None) ->
  snd (ConfirmResponder rB sB ke) <> Panic.
Proof.
  intros HN Hw2 Hw2m Hs HS Hr Hv Hd Hpp Hpt Hkdf.
  unfold ConfirmResponder. cbv zeta.
  destruct (peerPub ke) as [pp|] eqn:Hpeer; [|discriminate].
  destruct P as [x y]. rewrite (on_curve_check _ _ Hpt).
  destruct (elliptic.IsOnCurve (curve ke) x y); [|discriminate].
  pose proof (coords_inv _ HS) as (s1 & Hs1 & HsX & HsY).
  injection Hs1 as <-.
  set (U := mqv_point (curve ke) a b (fst S) rv d PP (x, y)).
  set (ke' := set_v (Some (set_XY v0 U)) (set_peerSecret rB ke)).
  assert (Hm : mqv (set_peerSecret rB ke) = Some ke').
  { apply (mqv_value (set_peerSecret rB ke) (s0 := s0) (sx := fst S)
             (v0 := v0)); try assumption.
    change (peerPub (set_peerSecret rB ke)) with (peerPub ke).
    rewrite Hpeer. exact Hpp. }
  rewrite Hm.
  assert (HvU : coords (v ke') = Some U) by (destruct U; reflexivity).
  assert (HsS : coords (secret ke') = Some S)
    by (change (secret ke') with (secret ke); rewrite Hs; exact HS).
  assert (HpP : coords (peerSecret ke') = Some (x, y)) by exact Hpt.
  rewrite (v_is_infinity_value _ HvU).
  destruct ((fst U =? 0) && (snd U =? 0)); [discriminate|].
  rewrite !(sign_value ke' false _ HvU HsS HpP).
  destruct (generateSharedKey ke' false) as [key|] eqn:Hk;
    [|rewrite (generateSharedKey_value ke' false HvU) in Hk;
      apply Hkdf in Hk; contradiction].
  destruct (len sB >? 0); [destruct (negb _); [discriminate|]|];
    destruct (negb (genSignature ke')); discriminate.
Qed.

(** X15.  No nil pointer on the way.  For a session built by
    NewKeyExchange on a curve of order N > 0, from a private key with its
    scalar and a peer key with its two coordinates, and as long as Kdf
    returns and randFieldElement returns a scalar when it returns no error:
    InitKeyExchange does not panic; RepondKeyExchange does not panic on a
    received point with two coordinates, on the curve or not;
    ConfirmResponder, after InitKeyExchange has returned normally, does
    not panic on a received point with two coordinates and any tag; and
    ConfirmInitiator, after RepondKeyExchange has returned normally, does
    not panic on any tag.  The methods of the curve are total here. *)
Theorem no_panic_on_received_points (priv : PrivateKey)
    (pub : ecdsa.PublicKey) (uid peerUID : list byte) (keyLen : Z)
    (gen : bool) (ke : KeyExchange) (d : Z) (PP : Z * Z) :
  NewKeyExchange priv (Some pub) uid peerUID keyLen gen = Ok ke ->
  0 < elliptic.Params_N (ecdsa.Curve (PublicKey priv)) ->
  D priv = Some d -> coords (Some pub) = Some PP ->
  (forall data, Kdf data keyLen <> None) ->
  (forall rand r', randFieldElement priv rand = (r', None) -> r' <> None) ->
  (forall rand, snd (InitKeyExchange rand ke) <> Panic)
  /\ (forall rand rA P,
        coords rA = Some P -> snd (RepondKeyExchange rand rA ke) <> Panic)
  /\ (forall rand ke1 R rB P sB,
        InitKeyExchange rand ke = (ke1, Ok R) -> coords rB = Some P ->
        snd (ConfirmResponder rB sB ke1) <> Panic)
  /\ (forall rand rA ke1 out s1,
        RepondKeyExchange rand rA ke = (ke1, Ok out) ->
        ConfirmInitiator s1 ke1 <> Panic).
Proof.
  intros Hnew HN Hd Hpp Hkdf Hrand.
  apply NewKeyExchange_result in Hnew. cbv iota in Hnew.
  set (c := ecdsa.Curve (PublicKey priv)) in *.
  assert (Hc : curve ke = c) by (rewrite Hnew; reflexivity).
  assert (Hpriv : privateKey ke = priv) by (rewrite Hnew; reflexivity).
  assert (Hs : secret ke = Some (emptyKey c)) by (rewrite Hnew; reflexivity).
  assert (Hv : v ke = Some (emptyKey c)) by (rewrite Hnew; reflexivity).
  assert (Hpeer : peerPub ke = Some pub) by (rewrite Hnew; reflexivity).
  assert (Hl : keyLength ke = keyLen) by (rewrite Hnew; reflexivity).
  destruct (w2 ke) as [a|] eqn:Hw2; [|rewrite Hnew in Hw2; discriminate].
  destruct (w2Minus1 ke) as [b|] eqn:Hw2m; [|rewrite Hnew in Hw2m; discriminate].
  assert (Hresp : forall rA P rv,
             coords rA = Some P ->
             elliptic.IsOnCurve c (fst P) (snd P) = true ->
             exists V R,
               respondKeyExchange ke rA (Some rv)
               = (set_v (Some (set_XY (emptyKey c) V))
                    (set_r (Some rv)
                       (set_secret (Some (set_XY (emptyKey c) R))
                          (set_peerSecret rA ke))),
                  if (fst V =? 0) && (snd V =? 0) then Err err_V_infinity
                  else Ok (Some (set_XY (emptyKey c) R),
                           if genSignature ke
                           then Some (ComputeTag c true x02 V (elems (z ke))
                                        (elems (peerZ ke)) R P)
                           else None))).
  { intros rA P rv HP Hon. destruct rA as [pt|]; [|discriminate].
    pose proof (@respondKeyExchange_value _ ke pt (emptyKey c) (emptyKey c)
                  a b rv d PP P) as H.
    rewrite Hc, Hpriv in H.
    specialize (H HN Hw2 Hw2m Hs Hv Hd).
    rewrite Hpeer in H. specialize (H Hpp HP Hon). cbv zeta in H.
    eexists. eexists. exact H. }
  split; [|split; [|split]].
  - intros rand. unfold InitKeyExchange. rewrite Hpriv.
    destruct (randFieldElement priv rand) as [r' [e|]] eqn:Hr; [discriminate|].
    apply Hrand in Hr. destruct r' as [rv|]; [|contradiction].
    unfold initKeyExchange. rewrite Hs. discriminate.
  - intros rand rA P HP. unfold RepondKeyExchange. rewrite Hpriv.
    destruct (randFieldElement priv rand) as [r' [e|]] eqn:Hr; [discriminate|].
    apply Hrand in Hr. destruct r' as [rv|]; [|contradiction].
    destruct (elliptic.IsOnCurve c (fst P) (snd P)) eqn:Hon.
    + destruct (Hresp rA P rv HP Hon) as (V & R & ->). cbn [snd].
      destruct (_ && _); discriminate.
    + unfold respondKeyExchange. rewrite Hpeer. destruct P as [x y].
      rewrite (on_curve_check _ _ HP), Hc. cbn [fst snd] in Hon.
      rewrite Hon. discriminate.
  - intros rand ke1 R rB P sB Hinit HP.
    unfold InitKeyExchange in Hinit. rewrite Hpriv in Hinit.
    destruct (randFieldElement priv rand) as [r' [e|]]; [discriminate|].
    unfold initKeyExchange in Hinit. destruct r' as [rv|]; [|discriminate].
    rewrite Hs in Hinit. cbn [bind_opt] in Hinit. injection Hinit as <- _.
    apply (@ConfirmResponder_no_panic _
             (set_XY (emptyKey c) (elliptic.ScalarBaseMult (curve ke) (Bytes rv)))
             (emptyKey c) a b rv d PP
             (elliptic.ScalarBaseMult (curve ke) (Bytes rv)) rB P sB);
      try assumption; try reflexivity.
    + change (0 < elliptic.Params_N (curve ke)). rewrite Hc. exact HN.
    + apply coords_set_XY.
    + cbn [privateKey set_r set_secret]. rewrite Hpriv. exact Hd.
    + cbn [peerPub set_r set_secret]. rewrite Hpeer. exact Hpp.
    + cbn [keyLength set_r set_secret]. rewrite Hl. exact Hkdf.
  - intros rand rA ke1 out s1. unfold RepondKeyExchange. rewrite Hpriv.
    destruct (randFieldElement priv rand) as [r' [e|]]; [discriminate|].
    intros Hr.
    assert (exists P rv, coords rA = Some P /\ r' = Some rv
                         /\ elliptic.IsOnCurve c (fst P) (snd P) = true)
      as (P & rv & HP & -> & Hon).
    { revert Hr. unfold respondKeyExchange. rewrite Hpeer, Hc.
      destruct rA as [[cA [x|] [y|]]|]; try discriminate.
      cbn [bind_opt ecdsa.X ecdsa.Y].
      destruct (elliptic.IsOnCurve c x y) eqn:Hon; [|discriminate].
      unfold initKeyExchange. destruct r' as [rv|]; [|discriminate].
      intros _. exists (x, y), rv. auto. }
    destruct (Hresp rA P rv HP Hon) as (V & R & Heq).
    rewrite Heq in Hr. injection Hr as <- Hout.
    unfold ConfirmInitiator. cbv zeta.
    set (ke1 := set_v _ _).
    assert (HV : coords (v ke1) = Some V) by apply coords_set_XY.
    assert (HS : coords (secret ke1) = Some R) by apply coords_set_XY.
    assert (HP' : coords (peerSecret ke1) = Some P) by exact HP.
    rewrite (sign_value ke1 true _ HV HS HP').
    destruct (generateSharedKey ke1 true) as [key|] eqn:Hk;
      [|rewrite (generateSharedKey_value ke1 true HV) in Hk;
        change (keyLength ke1) with (keyLength ke) in Hk; rewrite Hl in Hk;
        apply Hkdf in Hk; contradiction].
    destruct s1 as [s|]; [destruct (negb _)|]; discriminate.
Qed.

End Safety.

(** ** Teardown, again *)

Section Wiped.
Context {E : Externals}.

Lemma destroyBytes_idem (s : option (list byte)) :
  destroyBytes (destroyBytes s) = destroyBytes s.
Proof.
  destruct s as [l|]; [|reflexivity]. unfold destroyBytes.
  rewrite !zero_range_all, repeat_length. reflexivity.
Qed.

Lemma destroyBytes_repeat (s : option (list byte)) :
  elems (destroyBytes s) = repeat x00 (length (elems s)).
Proof.
  destruct s as [l|]; [|reflexivity]. cbn [destroyBytes elems].
  apply zero_range_all.
Qed.

(** X16.  Destroy wipes nothing else, and twice is once.  It leaves the
    private key with its scalar D, the peer's key, the two ephemeral
    points secret and peerSecret, the window constants, genSignature and
    keyLength as they are, and a second Destroy changes nothing more. *)
Theorem Destroy_spares_and_repeats (ke : KeyExchange) :
  Destroy (Destroy ke) = Destroy ke
  /\ privateKey (Destroy ke) = privateKey ke
  /\ peerPub (Destroy ke) = peerPub ke
  /\ secret (Destroy ke) = secret ke
  /\ peerSecret (Destroy ke) = peerSecret ke
  /\ (w2 (Destroy ke), w2Minus1 (Destroy ke)) = (w2 ke, w2Minus1 ke)
  /\ (genSignature (Destroy ke), keyLength (Destroy ke))
     = (genSignature ke, keyLength ke).
Proof.
  split; [|repeat split].
  unfold Destroy.
  cbn [z peerZ r v set_z set_peerZ set_r set_v genSignature keyLength
       privateKey peerPub secret peerSecret w2 w2Minus1].
  assert (Hr : destroyBigInt (destroyBigInt (r ke)) = destroyBigInt (r ke))
    by (destruct (r ke); reflexivity).
  assert (Hv : destroyPublicKey (destroyPublicKey (v ke))
               = destroyPublicKey (v ke)).
  { destruct (v ke) as [[c x y]|]; [|reflexivity]. cbn.
    destruct x, y; reflexivity. }
  rewrite !destroyBytes_idem, Hr, Hv. reflexivity.
Qed.

Lemma bigIntToBytes_0 (c : elliptic.Curve) :
  bigIntToBytes c 0 = repeat x00 (elliptic.byteLen c).
Proof.
  unfold bigIntToBytes. change (Bytes 0) with (@nil byte).
  cbn [length]. rewrite Nat.sub_0_r, app_nil_r. reflexivity.
Qed.

(** X17.  A destroyed session still derives a key.  After Destroy on a
    session whose combination point had two coordinates, generateSharedKey
    in either role is Kdf over zero bytes only, as many as two field
    elements and the two identity digests take, and ConfirmInitiator on
    the nil tag returns that key: it depends on nothing but these lengths
    and keyLength. *)
Theorem key_after_Destroy (ke : KeyExchange) (vxy : Z * Z)
    (isResponder : bool) :
  coords (v ke) = Some vxy ->
  let n := (2 * elliptic.byteLen (curve ke)
            + length (elems (z ke)) + length (elems (peerZ ke)))%nat in
  generateSharedKey (Destroy ke) isResponder
  = Kdf (repeat x00 n) (keyLength ke)
  /\ ConfirmInitiator None (Destroy ke)
     = match Kdf (repeat x00 n) (keyLength ke) with
       | Some key => Ok key
       | None => Panic
       end.
Proof.
  intros Hv n.
  assert (Hg : forall b, generateSharedKey (Destroy ke) b
                         = Kdf (repeat x00 n) (keyLength ke)).
  { intros b.
    apply coords_inv in Hv as (v0 & Hv & HvX & HvY).
    assert (Hd : coords (v (Destroy ke)) = Some (0, 0)).
    { unfold Destroy. cbn [v set_v set_r set_peerZ set_z]. rewrite Hv.
      cbn. rewrite HvX, HvY. reflexivity. }
    rewrite (generateSharedKey_value _ b Hd). cbn [fst snd].
    change (curve (Destroy ke)) with (curve ke).
    change (keyLength (Destroy ke)) with (keyLength ke).
    change (z (Destroy ke)) with (destroyBytes (z ke)).
    change (peerZ (Destroy ke)) with (destroyBytes (peerZ ke)).
    rewrite bigIntToBytes_0, !destroyBytes_repeat.
    f_equal. destruct b; rewrite <- !repeat_app; f_equal; unfold n; lia. }
  split; [apply Hg|].
  unfold ConfirmInitiator. rewrite Hg. reflexivity.
Qed.

End Wiped.

(** ** The associative value *)

(** X18.  With w2 = 2^w and w2Minus1 = 2^w - 1, avf(x) is
    2^w + (x mod 2^w): two coordinates have the same associative value
    exactly when they agree modulo 2^w, the value is w + 1 bits long, and
    avf on a nil coordinate panics. *)
Theorem avf_low_bits (ke : KeyExchange) (w x y : Z) :
  0 <= w -> w2 ke = Some (2 ^ w) -> w2Minus1 ke = Some (2 ^ w - 1) ->
  avf ke (Some x) = Some (2 ^ w + x mod 2 ^ w)
  /\ (avf ke (Some x) = avf ke (Some y) <-> x mod 2 ^ w = y mod 2 ^ w)
  /\ (forall t, avf ke (Some x) = Some t -> BitLen t = w + 1)
  /\ avf ke None = None.
Proof.
  intros Hw H2 H1.
  assert (Hv : forall n, avf ke (Some n) = Some (2 ^ w + n mod 2 ^ w)).
  { intros n. rewrite (avf_value ke n H2 H1). do 2 f_equal.
    replace (2 ^ w - 1) with (Z.ones w) by (rewrite Z.ones_equiv; lia).
    rewrite Z.land_comm. apply Z.land_ones. assumption. }
  split; [apply Hv|]. split; [|split].
  - rewrite !Hv. split; [intros H; injection H; lia|intros ->; reflexivity].
  - intros t. rewrite Hv. intros H. injection H as <-.
    pose proof (Z.mod_pos_bound x (2 ^ w) ltac:(apply Z.pow_pos_nonneg; lia)).
    assert (0 < 2 ^ w) by (apply Z.pow_pos_nonneg; lia).
    unfold BitLen. destruct (_ =? 0) eqn:Hz; [apply Z.eqb_eq in Hz; lia|].
    rewrite Z.abs_eq by lia. f_equal.
    apply Z.log2_unique; [assumption|]. rewrite Z.pow_succ_r by assumption. lia.
  - unfold avf, bind_opt. rewrite H1. reflexivity.
Qed.

(** ** Key usages in certificates *)

Section KeyUsages.
Import smx509.

Lemma reverse_table (b : byte) :
  forallb (fun i => Bool.eqb (Z.testbit (Z_of_byte (reverseBitsInAByte b)) i)
                             (Z.testbit (Z_of_byte b) (7 - i)))
          [0; 1; 2; 3; 4; 5; 6; 7] = true.
Proof. destruct b; vm_compute; reflexivity. Qed.

Lemma reverse_testbit (b : byte) (i : Z) :
  0 <= i < 8 ->
  Z.testbit (Z_of_byte (reverseBitsInAByte b)) i = Z.testbit (Z_of_byte b) (7 - i).
Proof.
  intros Hi. pose proof (reverse_table b) as H.
  rewrite forallb_forall in H. apply eqb_prop, H.
  assert (i = 0 \/ i = 1 \/ i = 2 \/ i = 3 \/ i = 4 \/ i = 5 \/ i = 6 \/ i = 7)
    as Hc by lia.
  cbn [In]. intuition.
Qed.

Lemma reverse_involutive (b : byte) :
  reverseBitsInAByte (reverseBitsInAByte b) = b.
Proof. destruct b; vm_compute; reflexivity. Qed.

(** X19.  reverseBitsInAByte mirrors a byte: bit i of the result is bit
    7 - i of the argument, applying it twice gives the byte back, and in
    the bit string of the reversed byte the bit of index i, counted from
    the most significant bit, is bit i of the argument. *)
Theorem reverseBitsInAByte_mirrors (b : byte) (i : Z) :
  0 <= i < 8 ->
  Z.testbit (Z_of_byte (reverseBitsInAByte b)) i = Z.testbit (Z_of_byte b) (7 - i)
  /\ reverseBitsInAByte (reverseBitsInAByte b) = b
  /\ asn1.bit [reverseBitsInAByte b] i = Z.testbit (Z_of_byte b) i.
Proof.
  intros Hi. split; [apply reverse_testbit; assumption|].
  split; [apply reverse_involutive|].
  unfold asn1.bit. rewrite Z.div_small, Z.mod_small by lia.
  cbn [Z.to_nat nth]. rewrite reverse_testbit by lia. f_equal. lia.
Qed.

Lemma land_shiftr_1 (x n : Z) :
  0 <= n -> (Z.land (Z.shiftr x n) 1 =? 1) = Z.testbit x n.
Proof.
  intros Hn. change 1 with (Z.ones 1) at 1.
  rewrite Z.land_ones by lia. change (2 ^ 1) with 2.
  rewrite <- Z.bit0_mod, Z.shiftr_spec by lia.
  rewrite Z.add_0_l. destruct (Z.testbit x n); reflexivity.
Qed.

Lemma bits_from_spec (b : Z) (rounds : nat) :
  forall bit bitLen, 0 <= bit ->
    match bits_from b bit rounds bitLen with
    | inl n =>
        exists k, 0 <= k < Z.of_nat rounds /\ n = bitLen - k
                  /\ Z.testbit b (bit + k) = true
                  /\ forall j, 0 <= j < k -> Z.testbit b (bit + j) = false
    | inr n =>
        n = bitLen - Z.of_nat rounds
        /\ forall j, 0 <= j < Z.of_nat rounds -> Z.testbit b (bit + j) = false
    end.
Proof.
  induction rounds as [|rounds IH]; intros bit bitLen Hbit.
  - cbn [bits_from]. split; [lia|]. intros j Hj. lia.
  - cbn [bits_from]. rewrite land_shiftr_1 by assumption.
    destruct (Z.testbit b bit) eqn:Hb.
    + exists 0. rewrite Z.add_0_r. repeat split; try lia. assumption.
    + specialize (IH (bit + 1) (bitLen - 1) ltac:(lia)).
      destruct (bits_from b (bit + 1) rounds (bitLen - 1)) as [n|n].
      * destruct IH as (k & Hk & Hn & Hset & Hclear).
        exists (k + 1). split; [lia|]. split; [lia|].
        split; [rewrite <- Hset; f_equal; lia|].
        intros j Hj. destruct (Z.eq_dec j 0) as [->|Hj0].
        -- rewrite Z.add_0_r. assumption.
        -- rewrite <- (Hclear (j - 1)) by lia. f_equal. lia.
      * destruct IH as (Hn & Hclear). split; [lia|].
        intros j Hj. destruct (Z.eq_dec j 0) as [->|Hj0].
        -- rewrite Z.add_0_r. assumption.
        -- rewrite <- (Hclear (j - 1)) by lia. f_equal. lia.
Qed.

Lemma bit_of_byte (bytes : list byte) (q k : Z) :
  0 <= q -> 0 <= k < 8 ->
  asn1.bit bytes (8 * q + (7 - k))
  = Z.testbit (Z_of_byte (nth (Z.to_nat q) bytes x00)) k.
Proof.
  intros Hq Hk. unfold asn1.bit.
  replace ((8 * q + (7 - k)) / 8) with q
    by (apply Z.div_unique with (r := 7 - k); lia).
  replace ((8 * q + (7 - k)) mod 8) with (7 - k)
    by (apply Z.mod_unique with (q := q); lia).
  f_equal. lia.
Qed.

Lemma bytes_from_spec (bitString : list byte) (rounds : nat) :
  forall i : nat,
    (i + rounds = length bitString)%nat ->
    (forall j, 8 * Z.of_nat rounds <= j < 8 * Z.of_nat (length bitString) ->
               asn1.bit bitString j = false) ->
    let n := bytes_from bitString i rounds (8 * Z.of_nat rounds) in
    0 <= n <= 8 * Z.of_nat rounds
    /\ (forall j, n <= j < 8 * Z.of_nat (length bitString) ->
                  asn1.bit bitString j = false)
    /\ (0 < n -> asn1.bit bitString (n - 1) = true).
Proof.
  induction rounds as [|rounds IH]; intros i Hi Hzero; cbv zeta.
  - cbn [bytes_from]. split; [lia|]. split; [|lia].
    intros j Hj. apply Hzero. lia.
  - cbn [bytes_from]. cbv zeta.
    replace (length bitString - i - 1)%nat with rounds by lia.
    set (b := Z_of_byte (nth rounds bitString x00)).
    pose proof (@bits_from_spec b 8 0 (8 * Z.of_nat (S rounds)) ltac:(lia)) as Hb.
    assert (Hbit : forall k, 0 <= k < 8 ->
               asn1.bit bitString (8 * Z.of_nat rounds + (7 - k))
               = Z.testbit b k).
    { intros k Hk. rewrite bit_of_byte by lia. rewrite Nat2Z.id. reflexivity. }
    destruct (bits_from b 0 8 (8 * Z.of_nat (S rounds))) as [n|n].
    + destruct Hb as (k & Hk & -> & Hset & Hclear).
      change (Z.of_nat 8) with 8 in Hk. cbn [Z.add] in Hset.
      split; [lia|]. split.
      * intros j Hj.
        destruct (Z_lt_le_dec j (8 * Z.of_nat (S rounds))) as [Hlt|Hge];
          [|apply Hzero; lia].
        replace j with (8 * Z.of_nat rounds + (7 - (8 * Z.of_nat (S rounds) - 1 - j)))
          by lia.
        rewrite Hbit by lia. apply (Hclear (8 * Z.of_nat (S rounds) - 1 - j)). lia.
      * intros _.
        replace (8 * Z.of_nat (S rounds) - k - 1)
          with (8 * Z.of_nat rounds + (7 - k)) by lia.
        rewrite Hbit by lia. exact Hset.
    + destruct Hb as (-> & Hclear). change (Z.of_nat 8) with 8 in *.
      replace (8 * Z.of_nat (S rounds) - 8) with (8 * Z.of_nat rounds) by lia.
      specialize (IH (S i) ltac:(lia)).
      assert (Hz : forall j, 8 * Z.of_nat rounds <= j < 8 * Z.of_nat (length bitString) ->
                             asn1.bit bitString j = false).
      { intros j Hj.
        destruct (Z_lt_le_dec j (8 * Z.of_nat (S rounds))) as [Hlt|Hge];
          [|apply Hzero; lia].
        replace j with (8 * Z.of_nat rounds + (7 - (8 * Z.of_nat (S rounds) - 1 - j)))
          by lia.
        rewrite Hbit by lia. apply (Hclear (8 * Z.of_nat (S rounds) - 1 - j)). lia. }
      specialize (IH Hz). cbv zeta in IH.
      destruct IH as (H1 & H2 & H3). split; [lia|]. split; assumption.
Qed.

(** The length is the index of the last bit that is set, plus one. *)
Lemma asn1BitLength_spec (bitString : list byte) :
  let n := asn1BitLength bitString in
  let size := 8 * Z.of_nat (length bitString) in
  0 <= n <= size
  /\ (forall j, n <= j < size -> asn1.bit bitString j = false)
  /\ (0 < n -> asn1.bit bitString (n - 1) = true)
  /\ (n = 0 <-> Forall (fun x => x = x00) bitString).
Proof.
  intros n size.
  pose proof (@bytes_from_spec bitString (length bitString) 0%nat eq_refl) as H.
  assert (Hn : n = bytes_from bitString 0 (length bitString) size).
  { unfold n, asn1BitLength, size. cbv zeta. f_equal. lia. }
  fold size in H. specialize (H ltac:(intros; lia)). cbv zeta in H.
  rewrite <- Hn in H. clearbody n.
  destruct H as (H1 & H2 & H3).
  split; [exact H1|]. split; [exact H2|]. split; [exact H3|].
  split.
  - intros H0. rewrite H0 in H2. apply Forall_forall. intros x Hx.
    apply In_nth with (d := x00) in Hx as (k & Hk & <-).
    apply Z_of_byte_inj. change (Z_of_byte x00) with 0.
    apply Z.bits_inj_0. intros m.
    destruct (Z_lt_le_dec m 0) as [Hneg|Hpos]; [apply Z.testbit_neg_r; lia|].
    destruct (Z_lt_le_dec m 8) as [Hlt|Hge].
    + rewrite <- (Nat2Z.id k). rewrite <- bit_of_byte by lia.
      apply H2. unfold size. lia.
    + pose proof (Z_of_byte_range (nth k bitString x00)) as Hr.
      destruct (Z.eq_dec (Z_of_byte (nth k bitString x00)) 0) as [->|Hnz];
        [apply Z.bits_0|].
      apply Z.bits_above_log2; [lia|].
      assert (Z.log2 (Z_of_byte (nth k bitString x00)) < 8); [|lia].
      apply Z.log2_lt_pow2; lia.
  - intros Hall. destruct (Z.eq_dec n 0) as [|Hn0]; [assumption|].
    exfalso. assert (Hpos : 0 < n) by lia. specialize (H3 Hpos).
    unfold asn1.bit in H3.
    assert (Hnth : nth (Z.to_nat ((n - 1) / 8)) bitString x00 = x00).
    { destruct (nth_in_or_default (Z.to_nat ((n - 1) / 8)) bitString x00) as [Hin|Hd];
        [|exact Hd].
      rewrite Forall_forall in Hall. apply Hall. exact Hin. }
    rewrite Hnth in H3. change (Z_of_byte x00) with 0 in H3.
    rewrite Z.bits_0 in H3. discriminate H3.
Qed.

(** X20.  asn1BitLength is the index of the last bit that is set, plus
    one, bits counted from the most significant bit of the first byte: it
    lies between 0 and 8 * len, every bit from it on is clear, the bit
    before it is set unless it is 0, and it is 0 exactly when every byte
    is zero (the empty slice included). *)
Theorem asn1BitLength_last_set_bit (bitString : list byte) :
  let n := asn1BitLength bitString in
  let size := 8 * Z.of_nat (length bitString) in
  0 <= n <= size
  /\ (forall j, n <= j < size -> asn1.bit bitString j = false)
  /\ (0 < n -> asn1.bit bitString (n - 1) = true)
  /\ (n = 0 <-> Forall (fun x => x = x00) bitString).
Proof. exact (asn1BitLength_spec bitString). Qed.

Lemma BitLen_unique (m n : Z) :
  0 <= m -> 0 <= n ->
  (forall j, n <= j -> Z.testbit m j = false) ->
  (0 < n -> Z.testbit m (n - 1) = true) ->
  n = BitLen m.
Proof.
  intros Hm Hn Hhigh Hlast. unfold BitLen.
  destruct (m =? 0) eqn:H0.
  - apply Z.eqb_eq in H0. subst m.
    destruct (Z.eq_dec n 0) as [|Hnz]; [assumption|].
    specialize (Hlast ltac:(lia)). rewrite Z.bits_0 in Hlast. discriminate.
  - apply Z.eqb_neq in H0. rewrite Z.abs_eq by assumption.
    assert (Hpos : 0 < m) by lia.
    pose proof (Z.bit_log2 m Hpos) as Hlog.
    pose proof (Z.log2_nonneg m) as Hl0.
    destruct (Z_lt_le_dec (Z.log2 m) n) as [Hlt|Hge];
      [|rewrite Hhigh in Hlog by assumption; discriminate].
    destruct (Z.eq_dec n 0) as [|Hnz]; [lia|].
    specialize (Hlast ltac:(lia)).
    destruct (Z_lt_le_dec (Z.log2 m) (n - 1)) as [Hlt'|Hge']; [|lia].
    rewrite Z.bits_above_log2 in Hlast by lia. discriminate.
Qed.

Lemma reverse_zero (x : byte) :
  Z_of_byte (reverseBitsInAByte x) = 0 <-> Z_of_byte x = 0.
Proof.
  split; intros H.
  - apply (Z_of_byte_inj _ x00) in H.
    rewrite <- (reverse_involutive x), H. reflexivity.
  - apply (Z_of_byte_inj _ x00) in H. subst x. reflexivity.
Qed.

Lemma byte_of_Z_testbit (n k : Z) :
  0 <= k < 8 -> Z.testbit (Z_of_byte (byte_of_Z n)) k = Z.testbit n k.
Proof.
  intros Hk. rewrite Z_of_byte_of_Z. change 256 with (2 ^ 8).
  apply Z.mod_pow2_bits_low. lia.
Qed.

Lemma Z_of_byte_high (x : byte) (k : Z) :
  8 <= k -> Z.testbit (Z_of_byte x) k = false.
Proof.
  intros Hk. pose proof (Z_of_byte_range x) as Hr.
  destruct (Z.eq_dec (Z_of_byte x) 0) as [->|Hnz]; [apply Z.bits_0|].
  apply Z.bits_above_log2; [lia|].
  assert (Z.log2 (Z_of_byte x) < 8); [|lia].
  apply Z.log2_lt_pow2; lia.
Qed.

(** X21.  marshalKeyUsage hands asn1.Marshal a bit string in which the bit
    of index i, for i below 16, is bit i of the key usage, so that
    KeyUsageDigitalSignature (bit 0) is the first bit; it is one byte long
    unless one of the bits 8 to 15 is set, its BitLength is the bit length
    of the low 16 bits of the key usage, and the extension carries the
    key usage identifier 2.5.29.15, is critical, and has as value and
    error what asn1.Marshal returns. *)
Theorem marshalKeyUsage_bit_string
    (Marshal : asn1.BitString -> option (list byte) * option error) (ku : Z) :
  exists bitString,
    marshalKeyUsage Marshal ku
    = (let m := Marshal {| asn1.Bytes := bitString;
                           asn1.BitLength := BitLen (ku mod 2 ^ 16) |} in
       ({| pkix.Id := oidExtensionKeyUsage; pkix.Critical := true;
           pkix.Value := fst m |}, snd m))
    /\ length bitString = (if ku mod 2 ^ 16 <? 256 then 1%nat else 2%nat)
    /\ forall i, 0 <= i < 16 -> asn1.bit bitString i = Z.testbit ku i.
Proof.
  unfold marshalKeyUsage.
  set (a0 := reverseBitsInAByte (byte_of_Z ku)).
  set (a1 := reverseBitsInAByte (byte_of_Z (Z.shiftr ku 8))).
  set (l := if negb (Z_of_byte a1 =? 0) then 2%nat else 1%nat).
  set (bitString := firstn l [a0; a1]).
  assert (Hlow : forall i, 0 <= i < 8 ->
             Z.testbit (Z_of_byte a0) (7 - i) = Z.testbit ku i).
  { intros i Hi. unfold a0. rewrite reverse_testbit by lia.
    rewrite byte_of_Z_testbit by lia. f_equal. lia. }
  assert (Hhigh : forall i, 8 <= i < 16 ->
             Z.testbit (Z_of_byte a1) (7 - (i - 8)) = Z.testbit ku i).
  { intros i Hi. unfold a1. rewrite reverse_testbit by lia.
    rewrite byte_of_Z_testbit by lia. rewrite Z.shiftr_spec by lia.
    f_equal. lia. }
  assert (Hbit : forall i, 0 <= i < 16 -> asn1.bit bitString i = Z.testbit ku i).
  { intros i Hi. unfold asn1.bit.
    destruct (Z_lt_le_dec i 8) as [Hlt|Hge].
    - rewrite Z.div_small, Z.mod_small by lia.
      replace (nth (Z.to_nat 0) bitString x00) with a0
        by (unfold bitString, l; destruct (negb _); reflexivity).
      apply Hlow. lia.
    - replace (i / 8) with 1
        by (apply Z.div_unique with (r := i - 8); lia).
      replace (i mod 8) with (i - 8)
        by (apply Z.mod_unique with (q := 1); lia).
      rewrite <- (Hhigh i) by lia.
      unfold bitString, l. destruct (Z_of_byte a1 =? 0) eqn:Hz.
      + apply Z.eqb_eq in Hz. cbn. rewrite Hz. rewrite !Z.bits_0. reflexivity.
      + reflexivity. }
  assert (Hl : length bitString = (if ku mod 2 ^ 16 <? 256 then 1%nat else 2%nat)).
  { assert (Hz : Z_of_byte a1 = 0 <-> ku mod 2 ^ 16 < 256).
    { unfold a1. rewrite reverse_zero, Z_of_byte_of_Z, Z.shiftr_div_pow2 by lia.
      change (2 ^ 8) with 256.
      replace (2 ^ 16) with (256 * 256) by reflexivity.
      rewrite Z.rem_mul_r by lia.
      pose proof (Z.mod_pos_bound ku 256 ltac:(lia)).
      pose proof (Z.mod_pos_bound (ku / 256) 256 ltac:(lia)). lia. }
    unfold bitString, l.
    destruct (Z_of_byte a1 =? 0) eqn:H0, (ku mod 2 ^ 16 <? 256) eqn:H1;
      try reflexivity; exfalso.
    - apply Z.eqb_eq in H0. apply Z.ltb_ge in H1. apply Hz in H0. lia.
    - apply Z.eqb_neq in H0. apply Z.ltb_lt in H1. apply Hz in H1. contradiction. }
  exists bitString. split; [|split; assumption].
  replace (asn1BitLength bitString) with (BitLen (ku mod 2 ^ 16)).
  { destruct (Marshal _); reflexivity. }
  symmetry.
  pose proof (asn1BitLength_spec bitString) as Hspec. cbv zeta in Hspec.
  destruct Hspec as (Hrange & Hclear & Hset & _).
  set (n := asn1BitLength bitString) in *.
  pose proof (Z.mod_pos_bound ku (2 ^ 16) ltac:(lia)) as Hm.
  assert (Hlen : Z.of_nat (length bitString) <= 2).
  { rewrite Hl. destruct (_ <? _); lia. }
  assert (Hsame : forall j, 0 <= j < 16 ->
             Z.testbit (ku mod 2 ^ 16) j = asn1.bit bitString j).
  { intros j Hj. rewrite Hbit by assumption.
    apply Z.mod_pow2_bits_low. lia. }
  assert (Hbeyond : forall j, 8 * Z.of_nat (length bitString) <= j < 16 ->
             asn1.bit bitString j = false).
  { intros j Hj. unfold asn1.bit.
    rewrite nth_overflow; [apply Z.bits_0|].
    assert (Z.of_nat (length bitString) <= j / 8)
      by (apply Z.div_le_lower_bound; lia).
    lia. }
  apply BitLen_unique; try lia.
  - intros j Hj. destruct (Z_lt_le_dec j 16) as [Hlt|Hge].
    + rewrite Hsame by lia.
      destruct (Z_lt_le_dec j (8 * Z.of_nat (length bitString))) as [Hin|Hout];
        [apply Hclear|apply Hbeyond]; lia.
    + apply Z.mod_pow2_bits_high. lia.
  - intros Hpos. rewrite Hsame by lia. apply Hset. assumption.
Qed.

Lemma Equal_eq (oi other : list Z) : asn1.Equal oi other = true <-> oi = other.
Proof.
  revert other. induction oi as [|a oi IH]; intros [|b other]; cbn [asn1.Equal];
    try (split; [discriminate|discriminate]); [split; reflexivity|].
  rewrite andb_true_iff, Z.eqb_eq, IH. split.
  - intros [-> ->]. reflexivity.
  - intros H. injection H as -> ->. auto.
Qed.

Lemma oidFromExtKeyUsage_range_In (eku : Z) (pairs : list (Z * list Z)) oid :
  oidFromExtKeyUsage_range eku pairs = (oid, true) -> In (eku, oid) pairs.
Proof.
  induction pairs as [|[k o] pairs IH]; cbn [oidFromExtKeyUsage_range fst snd];
    [discriminate|].
  destruct (eku =? k) eqn:Hk.
  - apply Z.eqb_eq in Hk. intros H. injection H as <-. subst. left. reflexivity.
  - intros H. right. apply IH. exact H.
Qed.

Lemma extKeyUsageFromOID_range_In (oid : list Z) (pairs : list (Z * list Z)) eku :
  extKeyUsageFromOID_range oid pairs = (eku, true) -> In (eku, oid) pairs.
Proof.
  induction pairs as [|[k o] pairs IH]; cbn [extKeyUsageFromOID_range fst snd];
    [discriminate|].
  destruct (asn1.Equal oid o) eqn:Ho.
  - apply Equal_eq in Ho. intros H. injection H as <-. subst. left. reflexivity.
  - intros H. right. apply IH. exact H.
Qed.

Lemma extKeyUsageOIDs_round_trip :
  forallb (fun p =>
             let '(eku, ok) := extKeyUsageFromOID (snd p) in
             let '(oid, ok') := oidFromExtKeyUsage (fst p) in
             ok && ok' && (eku =? fst p) && asn1.Equal oid (snd p))
          extKeyUsageOIDs = true.
Proof. vm_compute. reflexivity. Qed.

Lemma extKeyUsageOIDs_pairs (k : Z) (o : list Z) :
  In (k, o) extKeyUsageOIDs ->
  extKeyUsageFromOID o = (k, true) /\ oidFromExtKeyUsage k = (o, true).
Proof.
  pose proof extKeyUsageOIDs_round_trip as Htable.
  rewrite forallb_forall in Htable.
  intros Hin. specialize (Htable _ Hin). cbn [fst snd] in Htable.
  destruct (extKeyUsageFromOID o) as [k' ok], (oidFromExtKeyUsage k) as [o' ok'].
  apply andb_true_iff in Htable as [Htable Ho].
  apply andb_true_iff in Htable as [Htable Hk].
  apply andb_true_iff in Htable as [-> ->].
  apply Z.eqb_eq in Hk. apply Equal_eq in Ho. subst. auto.
Qed.

Lemma oidFromExtKeyUsage_known (eku : Z) :
  snd (oidFromExtKeyUsage eku) = true <-> 0 <= eku <= 13.
Proof.
  split.
  - destruct (oidFromExtKeyUsage eku) as [o ok] eqn:H. cbn [snd]. intros ->.
    apply oidFromExtKeyUsage_range_In in H.
    cbn [In extKeyUsageOIDs] in H.
    repeat (destruct H as [H|H]; [injection H as <- _; cbv; split; discriminate|]).
    contradiction.
  - intros Hr.
    assert (Hc : eku = 0 \/ eku = 1 \/ eku = 2 \/ eku = 3 \/ eku = 4 \/ eku = 5
                 \/ eku = 6 \/ eku = 7 \/ eku = 8 \/ eku = 9 \/ eku = 10
                 \/ eku = 11 \/ eku = 12 \/ eku = 13) by lia.
    repeat (destruct Hc as [->|Hc]; [reflexivity|]). subst. reflexivity.
Qed.

(** X22.  oidFromExtKeyUsage and extKeyUsageFromOID are inverse to each
    other: one maps an extended key usage to an identifier exactly when
    the other maps this identifier to it.  A usage is known exactly when
    it is one of the fourteen constants, 0 to 13; an unknown usage gives
    the nil identifier and false, an unknown identifier gives 0 and
    false. *)
Theorem extKeyUsage_round_trip (eku : Z) (oid : list Z) :
  (oidFromExtKeyUsage eku = (oid, true) <-> extKeyUsageFromOID oid = (eku, true))
  /\ (snd (oidFromExtKeyUsage eku) = true <-> 0 <= eku <= 13)
  /\ (snd (oidFromExtKeyUsage eku) = false -> oidFromExtKeyUsage eku = ([], false))
  /\ (snd (extKeyUsageFromOID oid) = false -> extKeyUsageFromOID oid = (0, false)).
Proof.
  split; [|split; [|split]].
  - split; intros H.
    + apply oidFromExtKeyUsage_range_In in H. apply extKeyUsageOIDs_pairs in H.
      apply H.
    + apply extKeyUsageFromOID_range_In in H. apply extKeyUsageOIDs_pairs in H.
      apply H.
  - apply oidFromExtKeyUsage_known.
  - unfold oidFromExtKeyUsage. generalize extKeyUsageOIDs.
    induction l as [|[k o] l IH]; cbn [oidFromExtKeyUsage_range fst snd];
      [reflexivity|].
    destruct (eku =? k); [discriminate|exact IH].
  - unfold extKeyUsageFromOID. generalize extKeyUsageOIDs.
    induction l as [|[k o] l IH]; cbn [extKeyUsageFromOID_range fst snd];
      [reflexivity|].
    destruct (asn1.Equal oid o); [discriminate|exact IH].
Qed.

Lemma assign_app (A : Type) (done : list A) (x y : A) (rest : list A) :
  assign (length done) x (done ++ y :: rest) = done ++ x :: rest.
Proof.
  induction done as [|a done IH]; [reflexivity|].
  cbn [length app assign]. rewrite IH. reflexivity.
Qed.

Lemma marshalExtKeyUsage_range_spec (extUsages : list Z) :
  forall (done : list (list Z)) (pad : list (list Z)),
    marshalExtKeyUsage_range extUsages (length done)
      (done ++ repeat [] (length extUsages) ++ pad)
    = if forallb (fun u => snd (oidFromExtKeyUsage u)) extUsages
      then Some (done ++ map (fun u => fst (oidFromExtKeyUsage u)) extUsages ++ pad)
      else None.
Proof.
  induction extUsages as [|u extUsages IH]; intros done pad; [reflexivity|].
  cbn [marshalExtKeyUsage_range forallb map length repeat app].
  destruct (oidFromExtKeyUsage u) as [oid ok]. cbn [fst snd].
  destruct ok; [|reflexivity]. cbn [andb].
  rewrite assign_app.
  specialize (IH (done ++ [oid]) pad).
  rewrite length_app in IH. cbn [length] in IH.
  replace (length done + 1)%nat with (S (length done)) in IH by lia.
  rewrite <- !app_assoc in IH. cbn [app] in IH. exact IH.
Qed.

(** X23.  marshalExtKeyUsage returns the "unknown extended key usage"
    error, and an extension with no value, exactly when one of the usages
    is not among the fourteen known ones; otherwise it hands asn1.Marshal
    the identifiers of the usages, in their order, followed by the
    unknownUsages, in theirs, and returns its value and error in an
    extension of identifier 2.5.29.37 that is not critical. *)
Theorem marshalExtKeyUsage_encodes
    (Marshal : list (list Z) -> option (list byte) * option error)
    (extUsages : list Z) (unknownUsages : list (list Z)) :
  marshalExtKeyUsage Marshal extUsages unknownUsages
  = if forallb (fun u => (0 <=? u) && (u <=? 13)) extUsages
    then
      let m := Marshal (map (fun u => fst (oidFromExtKeyUsage u)) extUsages
                        ++ unknownUsages) in
      ({| pkix.Id := oidExtensionExtendedKeyUsage; pkix.Critical := false;
          pkix.Value := fst m |}, snd m)
    else
      ({| pkix.Id := oidExtensionExtendedKeyUsage; pkix.Critical := false;
          pkix.Value := None |}, Some err_unknown_extended_key_usage).
Proof.
  unfold marshalExtKeyUsage. cbv zeta.
  pose proof (marshalExtKeyUsage_range_spec extUsages []
                (repeat [] (length unknownUsages))) as H.
  cbn [length app] in H. rewrite <- repeat_app in H. rewrite H. clear H.
  assert (Hknown : forallb (fun u => snd (oidFromExtKeyUsage u)) extUsages
                   = forallb (fun u => (0 <=? u) && (u <=? 13)) extUsages).
  { induction extUsages as [|u l IH]; [reflexivity|].
    cbn [forallb]. rewrite IH. f_equal.
    destruct (oidFromExtKeyUsage_known u) as [H1 H2].
    destruct (snd (oidFromExtKeyUsage u)) eqn:Hs.
    - symmetry. specialize (H1 eq_refl). apply andb_true_iff.
      split; apply Z.leb_le; lia.
    - symmetry. apply not_true_iff_false. intros Hc.
      apply andb_true_iff in Hc as [Ha Hb].
      apply Z.leb_le in Ha, Hb. specialize (H2 (conj Ha Hb)). discriminate H2. }
  rewrite Hknown. clear Hknown. destruct (forallb _ extUsages); [|reflexivity].
  set (known := map _ extUsages).
  assert (Hlen : length known = length extUsages) by apply length_map.
  rewrite <- Hlen.
  rewrite firstn_app, firstn_all, Nat.sub_diag, firstn_0, app_nil_r.
  rewrite skipn_app, skipn_all, Nat.sub_diag, skipn_0. cbn [app].
  unfold copy. rewrite repeat_length, firstn_all, skipn_all2
    by (rewrite repeat_length; lia).
  rewrite app_nil_r.
  destruct (Marshal _); reflexivity.
Qed.

End KeyUsages.

(** ** The small instance *)

Section ToyFacts.
Import Toy.

Lemma indices_spec (i : Z) : 0 <= i < 19 -> In i indices.
Proof.
  intros Hi. unfold indices. apply in_map_iff. exists (Z.to_nat i).
  split; [lia|]. apply in_seq. lia.
Qed.

Lemma table_add (i j : Z) :
  0 <= i < 19 -> 0 <= j < 19 ->
  Add (fst (T i)) (snd (T i)) (fst (T j)) (snd (T j)) = T ((i + j) mod 19).
Proof.
  intros Hi Hj.
  assert (H : forallb (fun i => forallb (fun j =>
              let P := Add (fst (T i)) (snd (T i)) (fst (T j)) (snd (T j)) in
              let Q := T ((i + j) mod 19) in
              (fst P =? fst Q) && (snd P =? snd Q)) indices) indices = true)
    by (vm_compute; reflexivity).
  rewrite forallb_forall in H. specialize (H i (indices_spec Hi)).
  rewrite forallb_forall in H. specialize (H j (indices_spec Hj)).
  cbv zeta in H. apply andb_true_iff in H as [H1 H2].
  apply Z.eqb_eq in H1, H2.
  destruct (Add _ _ _ _), (T ((i + j) mod 19)). cbn [fst snd] in *. congruence.
Qed.

Lemma table_on_curve (i : Z) :
  0 < i < 19 -> IsOnCurve (fst (T i)) (snd (T i)) = true.
Proof.
  intros Hi.
  assert (H : forallb (fun i => (i =? 0) || IsOnCurve (fst (T i)) (snd (T i)))
                indices = true) by (vm_compute; reflexivity).
  assert (Hin : In i indices) by (apply indices_spec; lia).
  rewrite forallb_forall in H. specialize (H i Hin).
  apply orb_true_iff in H as [H|H]; [apply Z.eqb_eq in H; lia|exact H].
Qed.

Lemma mul_pos_table (k : positive) :
  forall i, 0 <= i < 19 ->
  Weierstrass.mul_pos p a (fst (T i)) (snd (T i)) k = T ((i * Zpos k) mod 19).
Proof.
  induction k as [k IH|k IH|]; intros i Hi; cbn [Weierstrass.mul_pos].
  - rewrite IH by assumption. cbv zeta.
    change (Weierstrass.Add p a) with Add.
    rewrite table_add by (apply Z.mod_pos_bound; lia).
    rewrite table_add by (try apply Z.mod_pos_bound; lia).
    f_equal. rewrite Zplus_mod_idemp_l.
    pose proof (Z.mod_eq (i * Zpos k) 19 ltac:(lia)) as Hj.
    change (Zpos k~1) with (2 * Zpos k + 1).
    replace (i * Zpos k mod 19 + i * Zpos k mod 19 + i)
      with (i * (2 * Zpos k + 1) + (- 2 * (i * Zpos k / 19)) * 19) by lia.
    apply Z.mod_add. lia.
  - rewrite IH by assumption. cbv zeta.
    change (Weierstrass.Add p a) with Add.
    rewrite table_add by (apply Z.mod_pos_bound; lia).
    f_equal.
    pose proof (Z.mod_eq (i * Zpos k) 19 ltac:(lia)) as Hj.
    change (Zpos k~0) with (2 * Zpos k).
    replace (i * Zpos k mod 19 + i * Zpos k mod 19)
      with (i * (2 * Zpos k) + (- 2 * (i * Zpos k / 19)) * 19) by lia.
    apply Z.mod_add. lia.
  - rewrite Z.mul_1_r, Z.mod_small by assumption.
    destruct (T i). reflexivity.
Qed.

Lemma ScalarMult_table (i k : Z) :
  0 <= i < 19 -> 0 <= k ->
  ScalarMult (fst (T i)) (snd (T i)) (Bytes k) = T ((i * k) mod 19).
Proof.
  intros Hi Hk. unfold ScalarMult, Weierstrass.ScalarMult.
  rewrite SetBytes_Bytes, Z.abs_eq by assumption.
  destruct k as [|n|n]; [|apply mul_pos_table; assumption|lia].
  rewrite Z.mul_0_r. reflexivity.
Qed.

Lemma base_table (k : Z) :
  0 <= k -> scalarBaseMultiply curve k = T (k mod 19).
Proof.
  intros Hk. unfold scalarBaseMultiply. cbn [elliptic.ScalarBaseMult curve].
  unfold ScalarBaseMult.
  change (ScalarMult 5 1 (Bytes k))
    with (ScalarMult (fst (T 1)) (snd (T 1)) (Bytes k)).
  rewrite ScalarMult_table by lia. f_equal. f_equal. lia.
Qed.

Lemma toy_laws : CurveLaws curve.
Proof.
  constructor.
  - cbn. lia.
  - intros k l Hk Hl. cbn [elliptic.Params_N curve].
    rewrite !base_table by (try apply Z.mod_pos_bound; lia).
    unfold add. cbn [elliptic.Add curve].
    rewrite table_add by (apply Z.mod_pos_bound; lia).
    f_equal. rewrite Z.mod_mod by lia. rewrite <- Zplus_mod. reflexivity.
  - intros k l Hk Hl. cbn [elliptic.Params_N curve].
    rewrite !base_table by (try apply Z.mod_pos_bound; lia).
    unfold scalarMultiply. cbn [elliptic.ScalarMult curve].
    rewrite ScalarMult_table by (try apply Z.mod_pos_bound; lia).
    f_equal. rewrite Z.mod_mod by lia. rewrite Zmult_mod_idemp_l. reflexivity.
  - intros k Hk. cbn [elliptic.Params_N curve] in Hk.
    rewrite base_table by lia. cbn [elliptic.IsOnCurve curve].
    rewrite Z.mod_small by lia. apply table_on_curve. lia.
Qed.

Lemma valid_key_toy (d : Z) : 0 < d < 19 -> valid_key curve (key d).
Proof.
  intros Hd. exists d. repeat split; try reflexivity; cbn; lia.
Qed.

End ToyFacts.

(** ** The operations on the small instance *)

Section Witnesses.
Import Toy.

Ltac by_computation := vm_compute; reflexivity.



(** The run of the small instance with draws 7 and 13: the key pairs, the
    key length and the draws are valid,
    13 * G = (16, 4), avf(16) = 4 and
    (4 * 13 + 5) mod 19 = 0, so the responder's combination point is the
    point at infinity and RepondKeyExchange returns the error: no key is
    derived on either side. *)
Lemma small_run_stops_at_infinity :
  CurveLaws curve
  /\ valid_key curve (key 3) /\ valid_key curve (key 5)
  /\ NewKeyExchange (key 3) (Some (PublicKey (key 5))) [] [] 16 true
     = Ok (session 3 5 true)
  /\ NewKeyExchange (key 5) (Some (PublicKey (key 3))) [] [] 16 true
     = Ok (session 5 3 true)
  /\ randFieldElement (key 3) (Some 7) = (Some 7, None)
  /\ randFieldElement (key 5) (Some 13) = (Some 13, None)
  /\ 0 < 7 < elliptic.Params_N curve /\ 0 < 13 < elliptic.Params_N curve
  /\ (forall data, exists key,
        Kdf data 16 = Some key /\ Z.of_nat (length key) = 16)
  /\ InitKeyExchange (Some 7) (session 3 5 true)
     = (initiated, Ok (Some (point 7)))
  /\ snd (RepondKeyExchange (Some 13) (Some (point 7)) (session 5 3 true))
     = Err err_V_infinity
  /\ ~ (exists keB1 RB sB,
         RepondKeyExchange (Some 13) (Some (point 7)) (session 5 3 true)
         = (keB1, Ok (RB, sB))).
Proof.
  assert (Herr : snd (RepondKeyExchange (Some 13) (Some (point 7))
                        (session 5 3 true)) = Err err_V_infinity)
    by by_computation.
  split; [exact toy_laws|].
  split; [apply valid_key_toy; lia|].
  split; [apply valid_key_toy; lia|].
  do 4 (split; [reflexivity|]).
  do 2 (split; [cbn; lia|]).
  split; [intros data; eexists; split; reflexivity|].
  split; [reflexivity|].
  split; [exact Herr|].
  intros (keB1 & RB & sB & H). rewrite H in Herr. discriminate Herr.
Qed.

(** The initiator of the instance, on the responder's point 11 * G. *)
Lemma mqv_is_Combine_witness :
  mqv (set_peerSecret (Some (point 11)) initiated)
  = Some (set_v (Some (set_XY (emptyKey curve)
                         (Combine curve 2 (fst (scalarBaseMultiply curve 7))
                            7 3 (scalarBaseMultiply curve 5)
                            (scalarBaseMultiply curve 11))))
            (set_peerSecret (Some (point 11)) initiated))
  /\ Combine curve 2 (fst (scalarBaseMultiply curve 7)) 7 3
       (scalarBaseMultiply curve 5) (scalarBaseMultiply curve 11) = (6, 14).
Proof.
  split; [|by_computation].
  apply (@mqv_is_Combine
           (set_peerSecret (Some (point 11)) initiated) 2
           (fst (scalarBaseMultiply curve 7)) 7 3
           (set_XY (emptyKey curve) (scalarBaseMultiply curve 7))
           (emptyKey curve)
           (scalarBaseMultiply curve 5) (scalarBaseMultiply curve 11)).
  - cbn. lia.
  - reflexivity.
  - reflexivity.
  - reflexivity.
  - reflexivity.
  - reflexivity.
  - reflexivity.
  - apply coords_set_XY.
  - apply coords_set_XY.
  - reflexivity.
Defined.

(** The responder's first tag in the instance. *)
Lemma sign_two_stage_witness :
  sign responded true x02
  = Some (ComputeTag curve true x02 (6, 14) (elems (z responded))
            (elems (peerZ responded)) (13, 10) (0, 6))
  /\ forall n, 0 <= n < 256 ^ Z.of_nat (elliptic.byteLen curve) ->
       bigIntToBytes curve n
       = repeat x00 (elliptic.byteLen curve - length (Bytes n)) ++ Bytes n
       /\ length (bigIntToBytes curve n) = elliptic.byteLen curve
       /\ SetBytes (bigIntToBytes curve n) = n.
Proof.
  apply (@sign_two_stage externals responded true x02 (6, 14) (13, 10) (0, 6));
    by_computation.
Defined.

(** Both sides of the instance on a combination point at infinity. *)
Lemma infinity_is_fatal_witness :
  snd (RepondKeyExchange (Some 13) (Some (point 7)) (session 5 3 true))
  = Err err_V_infinity
  /\ snd (ConfirmResponder (Some (point 13)) None initiated)
     = Err err_U_infinity.
Proof.
  set (G := scalarBaseMultiply curve).
  split.
  - set (ke1 := set_r (Some 13)
                  (set_secret (Some (point 13))
                     (set_peerSecret (Some (point 7)) (session 5 3 true)))).
    set (ke2 := set_v (Some (set_XY (emptyKey curve)
                               (mqv_point curve 4 3 (fst (G 13)) 13 5
                                  (G 3) (G 7)))) ke1).
    destruct (@infinity_is_fatal externals (session 5 3 true) (Some 13)
                (Some (point 7)) 0 6 (Some 13) None) as (H & _);
      [reflexivity|discriminate|by_computation|by_computation|].
    destruct (H ke1 ke2) as (_ & ->); [reflexivity| | |reflexivity].
    + apply (@mqv_value ke1 4 3 (fst (G 13)) 13 5 (point 13) (emptyKey curve)
               (G 3) (G 7));
        try reflexivity; apply coords_set_XY.
    + unfold ke2. cbn [v set_v]. rewrite coords_set_XY. by_computation.
  - set (ke0 := set_peerSecret (Some (point 13)) initiated).
    set (ke2 := set_v (Some (set_XY (emptyKey curve)
                               (mqv_point curve 4 3 (fst (G 7)) 7 3
                                  (G 5) (G 13)))) ke0).
    destruct (@infinity_is_fatal externals initiated (Some 1)
                (Some (point 13)) 16 4 (Some 1) None) as (_ & H & _);
      [reflexivity|discriminate|by_computation|by_computation|].
    rewrite (H ke2); [reflexivity| |].
    + apply (@mqv_value ke0 4 3 (fst (G 7)) 7 3 (point 7) (emptyKey curve)
               (G 5) (G 13));
        try reflexivity; apply coords_set_XY.
    + unfold ke2. cbn [v set_v]. rewrite coords_set_XY. by_computation.
Defined.

(** The instance without a peer key, and on a point off the curve. *)
Lemma ephemeral_key_checks_witness :
  RepondKeyExchange (Some 11) (Some (point 7)) (unbound 5)
  = (unbound 5, Err err_no_peer)
  /\ ConfirmResponder (Some (point 7)) None (unbound 5)
     = (unbound 5, Err err_no_peer)
  /\ RepondKeyExchange (Some 11) (Some off_curve) (session 5 3 true)
     = (session 5 3 true, Err err_invalid_initiator_key)
  /\ ConfirmResponder (Some off_curve) None initiated
     = (initiated, Err err_invalid_responder_key)
  /\ RepondKeyExchange None (Some (point 7)) (session 5 3 true)
     = (session 5 3 true, Err err_EOF).
Proof.
  destruct (@ephemeral_key_checks externals (unbound 5) (Some (point 7)))
    as (H1 & _ & _).
  destruct (H1 eq_refl) as (H2 & _ & H3).
  destruct (@ephemeral_key_checks externals (session 5 3 true) (Some off_curve))
    as (_ & H4 & _).
  destruct (H4 1 1) as (_ & _ & H5);
    [discriminate|reflexivity|by_computation|].
  destruct (@ephemeral_key_checks externals initiated (Some off_curve))
    as (_ & H6 & _).
  destruct (H6 1 1) as (H7 & _);
    [discriminate|reflexivity|by_computation|].
  destruct (@ephemeral_key_checks externals (session 5 3 true) (Some (point 7)))
    as (_ & _ & H8).
  split; [exact (H3 (Some 11) eq_refl)|]. split; [exact (H2 None)|].
  split; [exact (H5 (Some 11) eq_refl)|]. split; [exact (H7 None)|].
  exact (H8 None err_EOF eq_refl).
Defined.

(** C5 fails as stated on a reader that is exhausted.  RepondKeyExchange
    draws its scalar before it looks at the peer key or at the point: on
    the session without a peer key it returns the error of the draw and not
    the no-peer-key error, and on the session bound to a peer, with a point
    that is not on the curve, the error of the draw and not the
    invalid-ephemeral-key error. *)
Lemma failed_draw_precedes_checks :
  peerPub (unbound 5) = None
  /\ randFieldElement (key 5) None = (None, Some err_EOF)
  /\ RepondKeyExchange None (Some (point 7)) (unbound 5)
     = (unbound 5, Err err_EOF)
  /\ fails_with err_no_peer
       (snd (RepondKeyExchange None (Some (point 7)) (unbound 5))) = false
  /\ peerPub (session 5 3 true) = Some (PublicKey (key 3))
  /\ coords (Some off_curve) = Some (1, 1)
  /\ elliptic.IsOnCurve curve 1 1 = false
  /\ RepondKeyExchange None (Some off_curve) (session 5 3 true)
     = (session 5 3 true, Err err_EOF)
  /\ fails_with err_invalid_initiator_key
       (snd (RepondKeyExchange None (Some off_curve) (session 5 3 true)))
     = false.
Proof.
  do 3 (split; [reflexivity|]). split; [by_computation|].
  do 2 (split; [reflexivity|]). split; [by_computation|].
  split; [reflexivity|by_computation].
Qed.

(** A one-byte tag in place of each 32-byte tag of the instance. *)
Lemma tampered_tag_rejected_witness :
  snd (ConfirmResponder (Some (point 11)) (Some [x00]) initiated)
  = Err err_invalid_responder_signature
  /\ ConfirmInitiator (Some [x00]) responded
     = Err err_invalid_initiator_signature.
Proof.
  destruct (@tampered_tag_rejected externals) as (H1 & H2 & _).
  assert (Hlen : forall m, [x00] <> SM3 m).
  { intros m H. apply (f_equal (@length byte)) in H. discriminate H. }
  split.
  - rewrite (H1 initiated (point 11) (point 7) (emptyKey curve) [x00]
               4 3 7 3 (scalarBaseMultiply curve 5)
               (scalarBaseMultiply curve 11) (scalarBaseMultiply curve 7)
               ltac:(cbn; lia) eq_refl eq_refl eq_refl (coords_set_XY _ _)
               eq_refl eq_refl eq_refl (coords_set_XY _ _) (coords_set_XY _ _)
               ltac:(by_computation) ltac:(discriminate) (Hlen _)).
    cbn [snd]. by_computation.
  - specialize (H2 responded [x00]).
    assert (HV : coords (v responded) = Some (6, 14)) by by_computation.
    assert (HS : coords (secret responded) = Some (13, 10)) by by_computation.
    assert (HP : coords (peerSecret responded) = Some (0, 6)) by by_computation.
    rewrite HV, HS, HP in H2. apply H2, Hlen.
Defined.

(** C6 fails as stated on a session that has not made its step of the
    exchange.  On the sessions as NewKeyExchange returns them the
    combination point and the ephemeral point have no coordinates and
    there is no ephemeral scalar: ConfirmInitiator on a one-byte tag
    panics in sign, on the nil coordinate v.X, and ConfirmResponder on a
    point of the curve and a one-byte tag panics in mqv. *)
Lemma tampered_tag_before_the_exchange :
  NewKeyExchange (key 5) (Some (PublicKey (key 3))) [] [] 16 true
  = Ok (session 5 3 true)
  /\ coords (v (session 5 3 true)) = None
  /\ ConfirmInitiator (Some [x00]) (session 5 3 true) = Panic
  /\ NewKeyExchange (key 3) (Some (PublicKey (key 5))) [] [] 16 true
     = Ok (session 3 5 true)
  /\ r (session 3 5 true) = None
  /\ coords (Some (point 11)) = Some (13, 10)
  /\ elliptic.IsOnCurve curve 13 10 = true
  /\ snd (ConfirmResponder (Some (point 11)) (Some [x00]) (session 3 5 true))
     = Panic.
Proof.
  do 2 (split; [reflexivity|]). split; [by_computation|].
  do 2 (split; [reflexivity|]). do 2 (split; [by_computation|]).
  by_computation.
Qed.

(** The instance has order 19: w = 2, w2 = 4, w2Minus1 = 3. *)
Lemma window_constants_witness :
  w2 (session 3 5 true) = Some (2 ^ 2)
  /\ w2Minus1 (session 3 5 true) = Some (2 ^ 2 - 1)
  /\ forall calls,
       let ke' := fold_left after calls (session 3 5 true) in
       w2 ke' = Some (2 ^ 2) /\ w2Minus1 ke' = Some (2 ^ 2 - 1)
       /\ forall x, 0 <= x ->
            exists t, avf ke' (Some x) = Some t
                      /\ t = 2 ^ 2 + Z.land x (2 ^ 2 - 1)
                      /\ 2 ^ 2 <= t <= 2 ^ (2 + 1) - 1.
Proof.
  apply (@window_constants externals (key 3) (Some (PublicKey (key 5)))
           [] [] 16 true (session 3 5 true)).
  - cbn. lia.
  - by_computation.
  - reflexivity.
Defined.


(** C7.  A session built without a peer has neither peer field.  When
    SetPeerParameters is called on it with a key of its curve and an
    identity whose digest fails, the error is returned and the peer key
    stays stored with no peer digest: the call has changed the peer fields,
    only one of the two is set, and a second call with a good identity is
    refused because a peer key exists.  A key of another curve, by
    contrast, is refused with the session left as it was. *)
Theorem SetPeerParameters_partial_binding :
  let pub := PublicKey (key 5) in
  let ke' := set_peerZ None (set_peerPub (Some pub) (unbound 3)) in
  NewKeyExchange (key 3) None [] [] 16 true = Ok (unbound 3)
  /\ peerPub (unbound 3) = None /\ peerZ (unbound 3) = None
  /\ SetPeerParameters (Some pub) long_uid (unbound 3)
     = (ke', Err err_uid_too_long)
  /\ peerPub ke' = Some pub /\ peerZ ke' = None
  /\ SetPeerParameters (Some pub) [] ke' = (ke', Err err_peerPub_exists)
  /\ SetPeerParameters (Some (emptyKey other_curve)) [] (unbound 3)
     = (unbound 3, Err err_peer_not_supported).
Proof.
  intros pub ke'.
  split; [reflexivity|]. split; [reflexivity|]. split; [reflexivity|].
  split.
  - apply SetPeerParameters_digest_failure; [reflexivity|reflexivity|].
    by_computation.
  - split; [reflexivity|]. split; [reflexivity|]. split.
    + apply SetPeerParameters_guards. discriminate.
    + apply SetPeerParameters_guards; reflexivity.
Qed.

End Witnesses.

(** ** More runs of the small instance *)

Section MoreWitnesses.
Import Toy.
Import smx509.

Ltac by_computation := vm_compute; reflexivity.

(** A call that returned normally, with the session it left. *)
Lemma returned_normally (S A : Type) (x : S * result A) :
  match snd x with Ok _ => true | _ => false end = true ->
  exists out, x = (fst x, Ok out).
Proof.
  destruct x as [s [out|e|]]; cbn [fst snd]; try discriminate.
  intros _. exists out. reflexivity.
Qed.

Lemma NewKeyExchange_outcome_witness :
  session 3 5 true = constructed (key 3) (PublicKey (key 5)) [] [] 16 true
  /\ (snd (CalculateZA (PublicKey (key 3)) (identity [])) = Some err_peer_not_supported
      \/ exists pub, Some (emptyKey other_curve) = Some pub
           /\ ((err_peer_not_supported = err_peer_not_supported
                /\ elliptic.neq (ecdsa.Curve pub) (ecdsa.Curve (PublicKey (key 3))) = true)
               \/ snd (CalculateZA pub (identity [])) = Some err_peer_not_supported))
  /\ NewKeyExchange (key 3) None [] long_uid 16 true
     = NewKeyExchange (key 3) None [] [] 16 true
  /\ NewKeyExchange {| PublicKey := emptyKey zero_order; D := Some 1 |}
       None [] [] 16 true
     = Panic.
Proof.
  destruct (@NewKeyExchange_outcome externals (key 3)
              (Some (PublicKey (key 5))) [] [] 16 true) as (_ & _ & H1 & _);
    [by_computation|].
  destruct (@NewKeyExchange_outcome externals (key 3)
              (Some (emptyKey other_curve)) [] [] 16 true) as (_ & H2 & _);
    [by_computation|].
  destruct (@NewKeyExchange_outcome externals (key 3) None [] long_uid 16 true)
    as (_ & _ & _ & H3); [by_computation|].
  destruct (@NewKeyExchange_outcome externals
              {| PublicKey := emptyKey zero_order; D := Some 1 |}
              None [] [] 16 true) as ((_ & H4) & _); [by_computation|].
  split; [exact (H1 _ eq_refl)|]. split; [exact (H2 _ eq_refl)|].
  split; [exact (H3 eq_refl)|exact (H4 eq_refl)].
Defined.

Lemma peer_bound_once_witness :
  (peerPub (unbound 3) = None
   /\ peerPub (fst (SetPeerParameters (Some (PublicKey (key 5))) [] (unbound 3)))
      = Some (PublicKey (key 5)))
  /\ let ke' := fold_left after [CallInitKeyExchange (Some 7); CallDestroy]
                  (session 3 5 true) in
     peerPub ke' = Some (PublicKey (key 5))
     /\ SetPeerParameters (Some (PublicKey (key 7))) [] ke'
        = (ke', Err err_peerPub_exists)
     /\ SetPeerParameters None [] ke' = (ke', Ok tt).
Proof.
  destruct (@peer_bound_once externals) as (H1 & H2).
  split.
  - apply (H1 (unbound 3) _ (PublicKey (key 5)) []). reflexivity.
  - apply (H2 (session 3 5 true) (PublicKey (key 5))). reflexivity.
Defined.


Lemma steps_can_be_repeated_witness :
  (exists out,
      RepondKeyExchange (Some 11) (Some (point 7))
        (fst (RepondKeyExchange (Some 13) (Some (point 7)) (session 5 3 true)))
      = (responded, Ok out))
  /\ (exists out,
      ConfirmResponder (Some (point 11)) None
        (fst (ConfirmResponder (Some (point 11)) (Some [x00]) initiated))
      = (fst (ConfirmResponder (Some (point 11)) None initiated), Ok out)).
Proof.
  destruct (@steps_can_be_repeated externals) as (H1 & H2).
  split.
  - destruct (@returned_normally _ _
                (@RepondKeyExchange externals (Some 11) (Some (point 7)) (session 5 3 true)))
      as (out & Hout); [by_computation|].
    exists out.
    apply (H1 (session 5 3 true) (Some 13) (Some (point 7)) (Some 11)
              (Some (point 7))).
    exact Hout.
  - destruct (@returned_normally _ _
                (@ConfirmResponder externals (Some (point 11)) None initiated))
      as (out & Hout); [by_computation|].
    exists out.
    apply (H2 initiated (Some (point 11)) (Some [x00]) (Some (point 11)) None).
    exact Hout.
Defined.

Lemma key_after_Destroy_witness :
  generateSharedKey (Destroy responded) true = Kdf (repeat x00 66) 16
  /\ ConfirmInitiator None (Destroy responded)
     = match Kdf (repeat x00 66) 16 with
       | Some key => Ok key
       | None => Panic
       end.
Proof.
  apply (@key_after_Destroy externals responded (6, 14) true).
  by_computation.
Defined.

Lemma avf_low_bits_witness :
  avf (session 3 5 true) (Some 13) = Some (2 ^ 2 + 13 mod 2 ^ 2)
  /\ (avf (session 3 5 true) (Some 13) = avf (session 3 5 true) (Some 5)
      <-> 13 mod 2 ^ 2 = 5 mod 2 ^ 2)
  /\ (forall t, avf (session 3 5 true) (Some 13) = Some t -> BitLen t = 2 + 1)
  /\ avf (session 3 5 true) None = None.
Proof.
  apply (@avf_low_bits (session 3 5 true) 2 13 5);
    [lia|reflexivity|reflexivity].
Defined.

Lemma ConfirmResponder_before_InitKeyExchange_witness :
  let ke := fst (SetPeerParameters (Some (PublicKey (key 5))) [] (unbound 3)) in
  ConfirmResponder (Some (point 11)) None ke
  = (set_peerSecret (Some (point 11)) ke, Panic).
Proof.
  apply (@ConfirmResponder_before_InitKeyExchange externals (key 3) None
           (Some (PublicKey (key 5))) [] [] [] 16 true (unbound 3)
           (Some (point 11)) 13 10 None).
  - reflexivity.
  - discriminate.
  - by_computation.
  - by_computation.
Defined.

Lemma errors_returned_witness :
  (let X := RepondKeyExchange (Some 13) (Some (point 7)) (session 5 3 true) in
   (snd (randFieldElement (privateKey (session 5 3 true)) (Some 13))
    = Some err_V_infinity /\ fst X = session 5 3 true)
   \/ (err_V_infinity = err_no_peer /\ peerPub (session 5 3 true) = None
       /\ fst X = session 5 3 true)
   \/ (err_V_infinity = err_invalid_initiator_key /\ fst X = session 5 3 true)
   \/ (err_V_infinity = err_V_infinity /\ v_is_infinity (fst X) = Some true))
  /\ (let X := ConfirmResponder (Some (point 11)) (Some [x00]) initiated in
      (err_invalid_responder_signature = err_no_peer /\ peerPub initiated = None
       /\ fst X = initiated)
      \/ (err_invalid_responder_signature = err_invalid_responder_key
          /\ fst X = initiated)
      \/ (err_invalid_responder_signature = err_U_infinity
          /\ v_is_infinity (fst X) = Some true)
      \/ (err_invalid_responder_signature = err_invalid_responder_signature
          /\ 0 < len (Some [x00])
          /\ sign (fst X) false x02 <> Some (elems (Some [x00]))))
  /\ (err_invalid_initiator_signature = err_invalid_initiator_signature
      /\ exists s, Some [x00] = Some s /\ sign responded true x03 <> Some s).
Proof.
  destruct (@errors_returned externals) as (H1 & H2 & H3).
  assert (Hpair : forall (S A : Type) (x : S * A) a, snd x = a -> x = (fst x, a))
    by (intros S A [s a'] a; cbn; intros ->; reflexivity).
  split; [|split].
  - apply (H1 (session 5 3 true) _ (Some 13) (Some (point 7)) err_V_infinity).
    apply Hpair. by_computation.
  - apply (H2 initiated _ (Some (point 11)) (Some [x00])
              err_invalid_responder_signature).
    apply Hpair. by_computation.
  - apply (H3 responded (Some [x00]) err_invalid_initiator_signature).
    by_computation.
Defined.

Lemma tags_follow_genSignature_witness :
  (exists ke' RB sB,
      RepondKeyExchange (Some 11) (Some (point 7)) (session 5 3 true)
      = (ke', Ok (RB, sB))
      /\ RB = secret ke'
      /\ sB = sign ke' true x02
      /\ exists tag, sB = Some tag /\ length tag = 32%nat)
  /\ (exists ke' key sA,
      ConfirmResponder (Some (point 11)) None (fst (InitKeyExchange (Some 7) (session 3 5 false)))
      = (ke', Ok (key, sA))
      /\ generateSharedKey ke' false = Some key
      /\ sA = None).
Proof.
  destruct (@tags_follow_genSignature externals (fun m => eq_refl)) as (H1 & H2).
  split.
  - destruct (@returned_normally _ _
                (@RepondKeyExchange externals (Some 11) (Some (point 7)) (session 5 3 true)))
      as ([RB sB] & Hout); [by_computation|].
    destruct (H1 _ _ _ _ _ _ Hout) as (Ha & Hb & Hc).
    eexists. exists RB, sB. split; [exact Hout|]. auto.
  - destruct (@returned_normally _ _
                (@ConfirmResponder externals (Some (point 11)) None
                   (fst (@InitKeyExchange externals (Some 7) (session 3 5 false)))))
      as ([key sA] & Hout); [by_computation|].
    destruct (H2 _ _ _ _ _ _ Hout) as (Ha & Hb & Hc).
    eexists. exists key, sA. split; [exact Hout|]. auto.
Defined.

Lemma tags_are_optional_witness :
  (exists out,
      ConfirmResponder (Some (point 11)) None initiated
      = (fst (ConfirmResponder (Some (point 11)) (Some []) initiated), Ok out))
  /\ (exists key, ConfirmInitiator None responded = Ok key)
  /\ ConfirmInitiator
       (Some (ComputeTag curve true x03 (6, 14) (elems (z responded))
                (elems (peerZ responded)) (13, 10) (0, 6))) responded
     = ConfirmInitiator None responded.
Proof.
  destruct (@tags_are_optional externals) as (H1 & H2 & _ & H4).
  assert (Hsign : sign responded true x03
                  = Some (ComputeTag curve true x03 (6, 14) (elems (z responded))
                            (elems (peerZ responded)) (13, 10) (0, 6)))
    by (apply (@sign_value externals responded true x03 (6, 14) (13, 10) (0, 6));
        by_computation).
  split; [|split].
  - destruct (@returned_normally _ _
                (@ConfirmResponder externals (Some (point 11)) (Some []) initiated))
      as (out & Hout); [by_computation|].
    exists out. apply (H1 _ _ _ _ _ Hout).
  - destruct (ConfirmInitiator
                (Some (ComputeTag curve true x03 (6, 14) (elems (z responded))
                         (elems (peerZ responded)) (13, 10) (0, 6))) responded)
      as [key|e|] eqn:Hk.
    + exists key. exact (H2 _ _ _ Hk).
    + exfalso. rewrite (H4 _ _ Hsign) in Hk.
      assert (Hf : match ConfirmInitiator None responded with
                   | Ok _ => true | _ => false end = true) by by_computation.
      rewrite Hk in Hf. discriminate Hf.
    + exfalso. rewrite (H4 _ _ Hsign) in Hk.
      assert (Hf : match ConfirmInitiator None responded with
                   | Ok _ => true | _ => false end = true) by by_computation.
      rewrite Hk in Hf. discriminate Hf.
  - exact (H4 _ _ Hsign).
Defined.

Lemma no_panic_on_received_points_witness :
  snd (InitKeyExchange (Some 7) (session 3 5 true)) <> Panic
  /\ snd (RepondKeyExchange (Some 11) (Some off_curve) (session 3 5 true)) <> Panic
  /\ snd (ConfirmResponder (Some (point 13)) (Some [x00]) initiated) <> Panic
  /\ ConfirmInitiator (Some []) responded <> Panic.
Proof.
  destruct (@no_panic_on_received_points externals (key 3) (PublicKey (key 5))
              [] [] 16 true (session 3 5 true) 3 (scalarBaseMultiply curve 5))
    as (H1 & H2 & H3 & _).
  - reflexivity.
  - cbn. lia.
  - reflexivity.
  - apply coords_set_XY.
  - intros data. discriminate.
  - intros [k|] r' H; [injection H as <-|]; discriminate.
  - destruct (@no_panic_on_received_points externals (key 5) (PublicKey (key 3))
                [] [] 16 true (session 5 3 true) 5 (scalarBaseMultiply curve 3))
      as (_ & _ & _ & H4).
    + reflexivity.
    + cbn. lia.
    + reflexivity.
    + apply coords_set_XY.
    + intros data. discriminate.
    + intros [k|] r' H; [injection H as <-|]; discriminate.
    + split; [apply H1|]. split; [apply (H2 _ _ (1, 1)); reflexivity|].
      split.
      * apply (H3 (Some 7) initiated (Some (point 7)) (Some (point 13))
                  (scalarBaseMultiply curve 13)); [reflexivity|apply coords_set_XY].
      * destruct (@returned_normally _ _
                    (@RepondKeyExchange externals (Some 11) (Some (point 7)) (session 5 3 true)))
          as (out & Hout); [by_computation|].
        apply (H4 (Some 11) (Some (point 7)) responded out). exact Hout.
Defined.

Lemma reverseBitsInAByte_mirrors_witness :
  Z.testbit (Z_of_byte (reverseBitsInAByte x01)) 7 = Z.testbit (Z_of_byte x01) (7 - 7)
  /\ reverseBitsInAByte (reverseBitsInAByte x01) = x01
  /\ asn1.bit [reverseBitsInAByte x01] 7 = Z.testbit (Z_of_byte x01) 7.
Proof. apply (@reverseBitsInAByte_mirrors x01 7). lia. Defined.

Lemma asn1BitLength_last_set_bit_witness :
  asn1.bit [x05; xa0] (asn1BitLength [x05; xa0] - 1) = true
  /\ asn1.bit [x05; xa0] 12 = false
  /\ asn1BitLength [x05; xa0] = 11.
Proof.
  destruct (asn1BitLength_last_set_bit [x05; xa0]) as (_ & H2 & H3 & _).
  split; [apply H3; change (0 < 11); lia|].
  split; [apply H2; change (11 <= 12 < 16); lia|by_computation].
Defined.

Lemma marshalKeyUsage_bit_string_witness :
  exists bitString,
    marshalKeyUsage (fun bs => (Some (asn1.Bytes bs), None)) 5
    = ({| pkix.Id := oidExtensionKeyUsage; pkix.Critical := true;
          pkix.Value := Some bitString |}, None)
    /\ length bitString = 1%nat
    /\ asn1.bit bitString 2 = true.
Proof.
  destruct (marshalKeyUsage_bit_string (fun bs => (Some (asn1.Bytes bs), None)) 5)
    as (bitString & H1 & H2 & H3).
  exists bitString. split; [exact H1|]. split; [exact H2|].
  apply (H3 2). lia.
Defined.

Lemma extKeyUsage_round_trip_witness :
  extKeyUsageFromOID oidExtKeyUsageServerAuth = (ExtKeyUsageServerAuth, true)
  /\ 0 <= ExtKeyUsageOCSPSigning <= 13
  /\ oidFromExtKeyUsage 14 = ([], false)
  /\ extKeyUsageFromOID [1; 2; 3] = (0, false).
Proof.
  destruct (extKeyUsage_round_trip ExtKeyUsageServerAuth oidExtKeyUsageServerAuth)
    as ((H1 & _) & _).
  destruct (extKeyUsage_round_trip ExtKeyUsageOCSPSigning []) as (_ & (H2 & _) & _).
  destruct (extKeyUsage_round_trip 14 [1; 2; 3]) as (_ & _ & H3 & H4).
  split; [apply H1; reflexivity|]. split; [apply H2; reflexivity|].
  split; [apply H3; reflexivity|apply H4; reflexivity].
Defined.

Lemma RepondKeyExchange_outcome_witness :
  RepondKeyExchange (Some 11) (Some (point 7)) (session 5 3 true)
  = (responded,
     Ok (Some (point 11),
         Some (ComputeTag curve true x02 (6, 14) (elems (z responded))
                 (elems (peerZ responded)) (13, 10) (0, 6)))).
Proof.
  exact (@RepondKeyExchange_outcome externals (session 5 3 true) (Some 11)
           (point 7) (emptyKey curve) (emptyKey curve) 4 3 11 5
           (scalarBaseMultiply curve 3) (scalarBaseMultiply curve 7)
           ltac:(cbn; lia) eq_refl eq_refl eq_refl eq_refl eq_refl
           (coords_set_XY _ _) (coords_set_XY _ _) ltac:(by_computation) eq_refl).
Defined.

Lemma ConfirmResponder_outcome_witness :
  snd (ConfirmResponder (Some (point 11)) None initiated)
  = Ok (map (fun i => byte_of_Z (checksum ([x06; x0e] ++ elems (z initiated)
                                           ++ elems (peerZ initiated))
                                 + 3 * Z.of_nat i)) (seq 0 16),
        Some (ComputeTag curve false x03 (6, 14) (elems (z initiated))
                (elems (peerZ initiated)) (0, 6) (13, 10))).
Proof.
  rewrite (@ConfirmResponder_outcome externals initiated (point 11) (point 7)
             (emptyKey curve) None 4 3 7 3 (scalarBaseMultiply curve 5)
             (scalarBaseMultiply curve 11) (scalarBaseMultiply curve 7)
             ltac:(cbn; lia) eq_refl eq_refl eq_refl (coords_set_XY _ _)
             eq_refl eq_refl eq_refl (coords_set_XY _ _) (coords_set_XY _ _)
             ltac:(by_computation)).
  reflexivity.
Defined.

Lemma roles_mirror_witness :
  let keA := fst (ConfirmResponder (Some (point 11)) None initiated) in
  sign keA false x03 = sign responded true x03
  /\ generateSharedKey keA false = generateSharedKey responded true
  /\ generateSharedKey keA false
     = Kdf (bigIntToBytes curve 6 ++ bigIntToBytes curve 14
            ++ elems (z keA) ++ elems (z responded)) (keyLength keA).
Proof.
  intro keA.
  refine (@roles_mirror externals keA responded x03 (6, 14) (0, 6) (13, 10)
            _ _ _ _ _ _ _ _ _ _).
  - reflexivity.
  - reflexivity.
  - by_computation.
  - by_computation.
  - by_computation.
  - by_computation.
  - by_computation.
  - by_computation.
  - by_computation.
  - by_computation.
Defined.

End MoreWitnesses.
